(** * nwatch: the file-event-to-client-broadcast pipeline

    A shallow embedding of the backend of nwatch (domain/step.py,
    domain/events.py, adapters/json_file_repository.py,
    adapters/watchdog_file_watcher.py, application/step_service.py,
    application/connection_manager.py and main.py) and of the pure parts
    of its emulator (emulator.py), followed by the properties the
    specification states about it and further properties of the code.

    Conventions of the embedding:
    - a Python [str] is a [string]; each [ascii] is one code point below 256;
    - a Python exception is a constructor of [exn]; a call that may raise
      returns a [result];
    - objects with mutable attributes are records threaded through the
      functions that mutate them;
    - the values produced by [json.load] are terms of [pyval]. *)

From Stdlib Require Import ZArith Ascii String.
From stdpp Require Import gmap strings pretty list fin_maps.

Local Open Scope string_scope.
Local Open Scope Z_scope.
Local Open Scope list_scope.
Local Set Warnings "-register-all".

(** ** Python builtins the code relies on *)

Module Py.

(** The exception classes that occur in the code. [JSONDecodeError] and
    [UnicodeDecodeError] are subclasses of [ValueError]; the three
    [OSError]s are raised by [open] and by the watcher's start-up;
    [WebSocketDisconnect] stands for what a closed socket raises. *)
Inductive exn : Type :=
| JSONDecodeError
| KeyError
| ValueError
| AttributeError
| TypeError
| RuntimeError
| FileNotFoundError
| NotADirectoryError
| OSError
| WebSocketDisconnect
| SystemExit.

#[global] Instance exn_eq_dec : EqDecision exn.
Proof. solve_decision. Defined.

(** [isinstance(e, ValueError)] *)
Definition is_ValueError (e : exn) : bool :=
  match e with
  | ValueError | JSONDecodeError => true
  | _ => false
  end.

Inductive result (A : Type) : Type :=
| Ok (a : A)
| Raise (e : exn).
#[global] Arguments Ok {A} a.
#[global] Arguments Raise {A} e.

#[global] Instance result_ret : MRet result := fun A a => Ok a.

#[global] Instance result_bind : MBind result := fun A B k r =>
  match r with
  | Ok a => k a
  | Raise e => Raise e
  end.

Definition raises {A} (r : result A) : bool :=
  match r with
  | Ok _ => false
  | Raise _ => true
  end.

(** *** Characters *)

Definition code (c : ascii) : nat := nat_of_ascii c.

(** The white space [int] skips, on a code point below 256: TAB..CR and
    SPACE, and NEL and NBSP, which [int] turns into a space first. The
    separators FS..US are white space for [str.isspace] but not for
    [int]: below code point 127 it skips only what C's [isspace] does. *)
Definition is_space (c : ascii) : bool :=
  let n := code c in
  ((9 <=? n) && (n <=? 13) || (n =? 32) || (n =? 133) || (n =? 160))%nat.

(** The decimal digits below code point 256 are the ASCII ones. *)
Definition is_digit (c : ascii) : bool :=
  let n := code c in ((48 <=? n) && (n <=? 57))%nat.

Definition digit_value (c : ascii) : Z := Z.of_nat (code c) - 48.

Definition hyphen : ascii := "-"%char.
Definition underscore : ascii := "_"%char.

(** *** [x in s] for a one-character [x] *)
Fixpoint contains (x : ascii) (s : string) : bool :=
  match s with
  | EmptyString => false
  | String c r => if Ascii.eqb c x then true else contains x r
  end.

(** *** [s.split(sep)] for a one-character separator: every occurrence
    of [sep] ends a part, so the result has one part more than [s] has
    separators. *)
Fixpoint split (sep : ascii) (s : string) : list string :=
  match s with
  | EmptyString => [EmptyString]
  | String c r =>
      if Ascii.eqb c sep then EmptyString :: split sep r
      else match split sep r with
           | p :: ps => String c p :: ps
           | [] => [String c EmptyString]
           end
  end.

(** *** [int(s)] on a string, base 10

    CPython skips leading white space, reads an optional sign, rejects a
    leading underscore, reads digits in which single underscores may
    separate two digits, skips trailing white space and demands the end
    of the string. More than [int_max_str_digits] digits are refused. *)
Definition int_max_str_digits : nat := 4300.

Fixpoint lstrip (s : string) : string :=
  match s with
  | String c r => if is_space c then lstrip r else s
  | EmptyString => EmptyString
  end.

Fixpoint all_space (s : string) : bool :=
  match s with
  | String c r => is_space c && all_space r
  | EmptyString => true
  end.

(** The digit scan: [prev_us] records that the previous character was
    an underscore, [acc] is the value so far, [n] the digits seen. It
    returns the value, the number of digits and the unread rest. *)
Fixpoint scan_digits (prev_us : bool) (acc : Z) (n : nat) (s : string)
  : option (Z * nat * string) :=
  match s with
  | String c r =>
      if is_digit c then scan_digits false (10 * acc + digit_value c) (S n) r
      else if Ascii.eqb c underscore then
        if prev_us then None else scan_digits true acc n r
      else if prev_us then None else Some (acc, n, s)
  | EmptyString => if prev_us then None else Some (acc, n, s)
  end.

Definition int_unsigned (s : string) : option Z :=
  match s with
  | String c _ =>
      if Ascii.eqb c underscore then None
      else match scan_digits false 0 0%nat s with
           | Some (v, n, rest) =>
               if ((0 <? n) && (n <=? int_max_str_digits))%nat && all_space rest
               then Some v else None
           | None => None
           end
  | EmptyString => None
  end.

Definition int (s : string) : result Z :=
  let body := lstrip s in
  let signed :=
    match body with
    | String c r =>
        if Ascii.eqb c "+"%char then int_unsigned r
        else if Ascii.eqb c hyphen then Z.opp <$> int_unsigned r
        else int_unsigned body
    | EmptyString => None
    end in
  match signed with
  | Some v => Ok v
  | None => Raise ValueError
  end.

End Py.

Import Py.

(** ** Values produced by [json.load] *)

Module Json.

(** A Python float: not-a-number, an infinity, or [(-1)^neg * m * 2^e]. *)
Inductive pyfloat : Type :=
| FNan
| FInf (neg : bool)
| FFin (neg : bool) (m : N) (e : Z).

Inductive pyval : Type :=
| PNone
| PBool (b : bool)
| PInt (z : Z)
| PFloat (f : pyfloat)
| PStr (s : string)
| PList (l : list pyval)
| PDict (d : list (string * pyval)).

(** [bool(v)] *)
Definition truthy (v : pyval) : bool :=
  match v with
  | PNone => false
  | PBool b => b
  | PInt z => negb (z =? 0)
  | PFloat (FFin _ 0%N _) => false
  | PFloat _ => true
  | PStr s => negb (String.eqb s "")
  | PList l => match l with [] => false | _ => true end
  | PDict d => match d with [] => false | _ => true end
  end.

(** [d.get(key)]: the entries of a dict have distinct keys, the first
    match is the only one. *)
Fixpoint dict_lookup (key : string) (d : list (string * pyval)) : option pyval :=
  match d with
  | [] => None
  | (k, v) :: r => if String.eqb k key then Some v else dict_lookup key r
  end.

(** [v.get(key, default)]: only a dict has the method. *)
Definition get (v : pyval) (key : string) (dflt : pyval) : result pyval :=
  match v with
  | PDict d => Ok (default dflt (dict_lookup key d))
  | _ => Raise AttributeError
  end.

(** [v[key]] on a value read from JSON: a dict raises [KeyError] for a
    missing key; a list or a string takes no string index and the other
    values are not subscriptable, both a [TypeError]. *)
Definition getitem (v : pyval) (key : string) : result pyval :=
  match v with
  | PDict d => match dict_lookup key d with
               | Some x => Ok x
               | None => Raise KeyError
               end
  | _ => Raise TypeError
  end.

End Json.

Import Json.

(** ** domain/step.py and domain/events.py *)

Module Domain.

Inductive StepStatus : Type :=
| PENDING
| IN_PROGRESS
| COMPLETED
| FAILED
| SKIPPED.

#[global] Instance StepStatus_eq_dec : EqDecision StepStatus.
Proof. solve_decision. Defined.

(** [status.value] *)
Definition status_value (s : StepStatus) : string :=
  match s with
  | PENDING => "pending"
  | IN_PROGRESS => "in_progress"
  | COMPLETED => "completed"
  | FAILED => "failed"
  | SKIPPED => "skipped"
  end.

(** [StepStatus(value)]: the member with that value, else [ValueError]. *)
Definition StepStatus_of (v : pyval) : result StepStatus :=
  match v with
  | PStr s =>
      if String.eqb s "pending" then Ok PENDING
      else if String.eqb s "in_progress" then Ok IN_PROGRESS
      else if String.eqb s "completed" then Ok COMPLETED
      else if String.eqb s "failed" then Ok FAILED
      else if String.eqb s "skipped" then Ok SKIPPED
      else Raise ValueError
  | _ => Raise ValueError
  end.

(** The dataclass. [from_dict] stores [project_id], [phase] and
    [description] as it finds them, so they are arbitrary JSON values;
    [task_id] is a string in every instance that gets constructed
    (see [Step_init]). *)
Record Step : Type := mkStep {
  task_id : string;
  project_id : pyval;
  phase : pyval;
  description : pyval;
  status : StepStatus;
  major_version : Z;
  minor_version : Z
}.

(** ["-" in v] *)
Definition has_hyphen (v : pyval) : result bool :=
  match v with
  | PStr s => Ok (contains hyphen s)
  | PList l =>
      Ok (existsb (fun x => match x with
                            | PStr s => String.eqb s "-"
                            | _ => false
                            end) l)
  | PDict d => Ok (bool_decide (is_Some (dict_lookup "-" d)))
  | _ => Raise TypeError
  end.

(** [v.split("-")] *)
Definition split_hyphen (v : pyval) : result (list string) :=
  match v with
  | PStr s => Ok (split hyphen s)
  | _ => Raise AttributeError
  end.

(** [Step._parse_version_from_task_id]. The [ValueError] of [int] is
    caught and raised again as a [ValueError]. *)
Definition _parse_version_from_task_id (task_id : pyval) : result (Z * Z) :=
  if negb (truthy task_id) then Raise ValueError
  else
    h ← has_hyphen task_id;
    if negb h then Raise ValueError
    else
      parts ← split_hyphen task_id;
      match parts with
      | [p0; p1] =>
          match (major ← int p0; minor ← int p1; Ok (major, minor)) with
          | Ok r => Ok r
          | Raise e => if is_ValueError e then Raise ValueError else Raise e
          end
      | _ => Raise ValueError
      end.

(** [Step(task_id=.., project_id=.., phase=.., description=.., status=..)]
    as [from_dict], the only caller, writes it: both versions keep their
    default 0, so [__post_init__] always parses the task id. A task id
    that is not a string never passes the parse, so the last branch is
    never taken. *)
Definition Step_init (tid pid ph descr : pyval) (st : StepStatus) : result Step :=
  v ← _parse_version_from_task_id tid;
  match tid with
  | PStr s => Ok (mkStep s pid ph descr st v.1 v.2)
  | _ => Raise TypeError
  end.

(** [Step.from_dict] *)
Definition from_dict (data : pyval) : result Step :=
  validation ← get data "validation" (PDict []);
  status_str ← get validation "status" (PStr "pending");
  st ← StepStatus_of status_str;
  tid ← getitem data "task_id";
  pid ← getitem data "project_id";
  ph ← getitem data "phase";
  descr ← getitem data "description";
  Step_init tid pid ph descr st.

(** [Step.to_dict] *)
Definition to_dict (s : Step) : pyval :=
  PDict [ ("taskId", PStr (task_id s));
          ("projectId", project_id s);
          ("phase", phase s);
          ("description", description s);
          ("status", PStr (status_value (status s)));
          ("majorVersion", PInt (major_version s));
          ("minorVersion", PInt (minor_version s)) ].

Inductive FileEventType : Type :=
| CREATED
| MODIFIED
| DELETED.

#[global] Instance FileEventType_eq_dec : EqDecision FileEventType.
Proof. solve_decision. Defined.

(** [event_type.value] *)
Definition event_value (t : FileEventType) : string :=
  match t with
  | CREATED => "created"
  | MODIFIED => "modified"
  | DELETED => "deleted"
  end.

Record FileEvent : Type := mkFileEvent {
  event_type : FileEventType;
  file_path : string
}.

#[global] Instance FileEvent_eq_dec : EqDecision FileEvent.
Proof. solve_decision. Defined.

End Domain.

Import Domain.

(** ** ports/step_repository.py and ports/file_watcher.py *)

Module Ports.

(** The [StepRepository] protocol. A value of [R] is the repository
    together with what its backing store holds when it is called. *)
Class StepRepository (R : Type) : Type := {
  get_all : R -> result (list Step);
  get_by_id : R -> string -> result (option Step);
  refresh : R -> string -> result (option Step)
}.

(** The [FileWatcher] protocol. The callback handed to [start] is always
    the service's own [_handle_file_event]; the watcher's state is what
    the calls change. *)
Class FileWatcher (W : Type) : Type := {
  start : W -> result W;
  stop : W -> result W
}.

End Ports.

Import Ports.

(** ** adapters/json_file_repository.py *)

Module JsonFileRepository.

(** What [open] and [json.load] make of one file: [open] raises an
    [OSError], the bytes are not UTF-8 (a [UnicodeDecodeError], which is
    a [ValueError]), the text is not JSON, or a value is loaded. *)
Inductive file : Type :=
| Unopenable
| BadEncoding
| Undecodable
| Loaded (data : pyval).

Definition load (f : file) : result pyval :=
  match f with
  | Unopenable => Raise OSError
  | BadEncoding => Raise ValueError
  | Undecodable => Raise JSONDecodeError
  | Loaded data => Ok data
  end.

(** The repository and the entries of its folder, by name, in the order
    the directory lists them. *)
Record t : Type := mk {
  folder_path : string;
  entries : list (string * file)
}.

Definition ends_with (suffix s : string) : bool :=
  let n := String.length s in
  let k := String.length suffix in
  ((k <=? n)%nat && String.eqb (String.substring (n - k) k s) suffix).

(** [glob(folder / "*.json")]: the names that end in [.json]; the
    wildcard does not match a leading dot. *)
Definition glob_json (r : t) : list (string * file) :=
  filter (fun e => ends_with ".json" e.1 = true
                   /\ String.prefix "." e.1 = false) (entries r).

(** [_read_step_file] *)
Definition _read_step_file (f : file) : result (option Step) :=
  match (data ← load f; from_dict data) with
  | Ok s => Ok (Some s)
  | Raise JSONDecodeError => Ok None
  | Raise e =>
      if bool_decide (e = KeyError) || is_ValueError e then Ok None
      else Raise e
  end.

(** The loop of [get_all] over the paths [glob] returned. *)
Fixpoint read_all (fs : list (string * file)) (steps : list Step)
  : result (list Step) :=
  match fs with
  | [] => Ok steps
  | (_, f) :: rest =>
      step ← _read_step_file f;
      match step with
      | Some s => read_all rest (steps ++ [s])
      | None => read_all rest steps
      end
  end.

Definition get_all (r : t) : result (list Step) :=
  read_all (glob_json r) [].

(** The loop of [get_by_id]: the first step with that [task_id]. *)
Fixpoint first_with_id (tid : string) (steps : list Step) : option Step :=
  match steps with
  | [] => None
  | s :: rest => if String.eqb (task_id s) tid then Some s
                 else first_with_id tid rest
  end.

Definition get_by_id (r : t) (tid : string) : result (option Step) :=
  steps ← get_all r;
  Ok (first_with_id tid steps).

Definition refresh (r : t) (tid : string) : result (option Step) :=
  get_by_id r tid.

#[global] Instance repository : StepRepository t := {|
  Ports.get_all := get_all;
  Ports.get_by_id := get_by_id;
  Ports.refresh := refresh
|}.

End JsonFileRepository.

(** ** adapters/watchdog_file_watcher.py *)

(** A [dict] whose iteration order matters: the entries in insertion
    order, one per key. *)
Module Dict.

Section Ops.
Context {V : Type}.

(** [k in d] *)
Definition has (k : string) (d : list (string * V)) : bool :=
  existsb (fun e => String.eqb e.1 k) d.

(** [d.get(k)], and [d[k]] where the key is present. *)
Fixpoint get (k : string) (d : list (string * V)) : option V :=
  match d with
  | [] => None
  | e :: r => if String.eqb e.1 k then Some e.2 else get k r
  end.

(** [del d[k]] *)
Definition del (k : string) (d : list (string * V)) : list (string * V) :=
  filter (fun e => e.1 <> k) d.

(** [d[k] = v]: a present key keeps its place, a new one goes last. *)
Fixpoint set (k : string) (v : V) (d : list (string * V)) : list (string * V) :=
  match d with
  | [] => [(k, v)]
  | e :: r => if String.eqb e.1 k then (k, v) :: r else e :: set k v r
  end.
End Ops.

End Dict.

Module Debounce.

(** A [threading.Timer]: once started, its thread waits until the clock
    reaches [deadline] and then, unless the timer was cancelled, runs
    [fire_callback], closed over [file_path] and [event_type]. Time is a
    count of clock ticks. *)
Record Timer : Type := mkTimer {
  deadline : nat;
  fn_path : string;
  fn_event_type : FileEventType
}.

(** [_DebouncedEventHandler], together with the timers it has started.
    [threads] holds every timer that was started, in the order of their
    creation, each with the flag [finished] of its thread: [cancel] sets
    it, and the thread sets it once it has run. A timer object is known by
    its place in [threads], and the values of [_pending_timers] are such
    places. A timer that is overwritten in, or deleted from,
    [_pending_timers] goes on running unless it was cancelled.
    [delivered] records the events handed to [_callback], oldest first. *)
Record t : Type := mk {
  _debounce_delay : nat;
  threads : list (Timer * bool);
  _pending_timers : list (string * nat);
  delivered : list FileEvent
}.

Definition init (debounce_delay : nat) : t := mk debounce_delay [] [] [].

(** [self.finished.set()] on a timer *)
Definition finish (timer : nat) (ths : list (Timer * bool)) : list (Timer * bool) :=
  alter (fun th => (th.1, true)) timer ths.

(** [timer.cancel()] *)
Definition cancel (timer : nat) (ths : list (Timer * bool)) : list (Timer * bool) :=
  finish timer ths.

Definition _cancel_pending_timer (path : string) (h : t) : t :=
  match Dict.get path (_pending_timers h) with
  | Some timer =>
      mk (_debounce_delay h) (cancel timer (threads h))
         (Dict.del path (_pending_timers h)) (delivered h)
  | None => h
  end.

(** The closure [fire_callback] of [_schedule_callback]. *)
Definition fire_callback (path : string) (ty : FileEventType) (h : t) : t :=
  let pending :=
    if Dict.has path (_pending_timers h)
    then Dict.del path (_pending_timers h)
    else _pending_timers h in
  mk (_debounce_delay h) (threads h) pending (delivered h ++ [mkFileEvent ty path]).

(** [Timer.run], once the delay of the timer has run out: unless the
    timer is finished its function runs; then the timer is finished. *)
Definition run_timer (timer : nat) (h : t) : t :=
  match threads h !! timer with
  | Some (tm, false) =>
      let h1 := fire_callback (fn_path tm) (fn_event_type tm) h in
      mk (_debounce_delay h1) (finish timer (threads h1))
         (_pending_timers h1) (delivered h1)
  | _ => h
  end.

(** [_schedule_callback], called when the clock shows [now]. The new
    timer takes the next place in [threads] when it is started. *)
Definition _schedule_callback (now : nat) (path : string) (ty : FileEventType)
    (h : t) : t :=
  let h1 := _cancel_pending_timer path h in
  let timer := length (threads h1) in
  mk (_debounce_delay h1)
     (threads h1 ++ [(mkTimer (now + _debounce_delay h1) path ty, false)])
     (Dict.set path timer (_pending_timers h1)) (delivered h1).

Definition cancel_all_pending (h : t) : t :=
  mk (_debounce_delay h)
     (foldl (fun ths e => cancel e.2 ths) (threads h) (_pending_timers h))
     [] (delivered h).

(** A thread that is still waiting and whose delay has run out when the
    clock shows [now]. *)
Definition waiting_until (now : nat) (th : Timer * bool) : bool :=
  negb th.2 && (deadline th.1 <=? now)%nat.

(** The timers whose threads wake up by [now], in the order they were
    started. *)
Definition due (now : nat) (h : t) : list nat :=
  filter (fun i => from_option (waiting_until now) false (threads h !! i) = true)
         (seq 0 (length (threads h))).

(** The clock advances to [now]: the thread of every due timer runs. *)
Definition elapse (now : nat) (h : t) : t :=
  foldl (fun h timer => run_timer timer h) h (due now h).

(** A raw notification that passed the filters of [on_created],
    [on_modified] and [on_deleted]: when it arrived, for which path,
    of which kind. *)
Record notification : Type := mkNotification {
  at_time : nat;
  src_path : string;
  kind : FileEventType
}.

Definition notify (n : notification) (h : t) : t :=
  _schedule_callback (at_time n) (src_path n) (kind n) (elapse (at_time n) h).

(** The handler fed with notifications in the order they arrive. *)
Definition run (ns : list notification) (h : t) : t :=
  foldl (fun h n => notify n h) h ns.

(** The events for [path] among those handed to the callback. *)
Definition delivered_for (path : string) (h : t) : list FileEvent :=
  filter (fun e => file_path e = path) (delivered h).

End Debounce.

Module WatchdogFileWatcher.

(** The watcher, with what the file system says of its folder.
    [_observer] is [Some alive] once an observer is set. *)
Record t : Type := mk {
  folder_exists : bool;
  folder_is_dir : bool;
  _debounce_delay : nat;
  _observer : option bool;
  _handler : option Debounce.t
}.

Definition is_running (w : t) : bool :=
  match _observer w with
  | Some alive => alive
  | None => false
  end.

Definition start (w : t) : result t :=
  if is_running w then Raise RuntimeError
  else if negb (folder_exists w) then Raise FileNotFoundError
  else if negb (folder_is_dir w) then Raise NotADirectoryError
  else Ok (mk (folder_exists w) (folder_is_dir w) (_debounce_delay w)
              (Some true) (Some (Debounce.init (_debounce_delay w)))).

Definition stop (w : t) : result t :=
  if negb (is_running w) then Ok w
  else Ok (mk (folder_exists w) (folder_is_dir w) (_debounce_delay w) None None).

#[global] Instance watcher : FileWatcher t := {|
  Ports.start := start;
  Ports.stop := stop
|}.

End WatchdogFileWatcher.

(** ** application/step_service.py *)

Module StepService.

(** [os.path.basename]: what follows the last slash. *)
Definition basename (path : string) : string :=
  List.last (split "/"%char path) "".

(** [re.match(r"^\d{2}-\d{2}$", s)]: two digits, a hyphen, two digits;
    [$] also matches before a final newline. *)
Definition matches_task_id (s : string) : bool :=
  match list_ascii_of_string s with
  | [a; b; h; c; d] =>
      is_digit a && is_digit b && Ascii.eqb h hyphen && is_digit c && is_digit d
  | [a; b; h; c; d; nl] =>
      is_digit a && is_digit b && Ascii.eqb h hyphen && is_digit c && is_digit d
      && Ascii.eqb nl "010"%char
  | _ => false
  end.

Definition _extract_task_id_from_path (path : string) : option string :=
  let filename := basename path in
  let filename :=
    if JsonFileRepository.ends_with ".json" filename
    then String.substring 0 (String.length filename - 5) filename
    else filename in
  if matches_task_id filename then Some filename else None.

Section Service.
Context {R W CB : Type} `{!StepRepository R} `{!FileWatcher W}.

(** The service. Its repository is passed to the methods that read
    it, as it is at the time of the call. *)
Record t : Type := mk {
  _file_watcher : W;
  _steps_cache : gmap string Step;
  _callback : option CB;
  _watching : bool
}.

(** [StepService(repository, file_watcher)] *)
Definition init (file_watcher : W) : t := mk file_watcher ∅ None false.

Definition set_cache (c : gmap string Step) (s : t) : t :=
  mk (_file_watcher s) c (_callback s) (_watching s).

(** [{step.task_id: step for step in steps}]: a later step replaces
    an earlier one with the same id. *)
Definition by_task_id (steps : list Step) : gmap string Step :=
  foldl (fun m st => <[task_id st := st]> m) ∅ steps.

Definition _load_steps_into_cache (repo : R) (s : t) : result unit * t :=
  match get_all repo with
  | Ok steps => (Ok tt, set_cache (by_task_id steps) s)
  | Raise e => (Raise e, s)
  end.

(** [not self._steps_cache] *)
Definition cache_empty (s : t) : bool :=
  bool_decide (_steps_cache s = ∅).

(** [list(self._steps_cache.values())], in the order the map lists its
    entries; the protocol leaves the order of the steps open. *)
Definition cached_steps (s : t) : list Step :=
  (map_to_list (_steps_cache s)).*2.

Definition get_all_steps (repo : R) (s : t) : result (list Step) * t :=
  if cache_empty s then
    match _load_steps_into_cache repo s with
    | (Ok _, s1) => (Ok (cached_steps s1), s1)
    | (Raise e, s1) => (Raise e, s1)
    end
  else (Ok (cached_steps s), s).

Definition start_watching (repo : R) (callback : CB) (s : t) : result unit * t :=
  if _watching s then (Raise RuntimeError, s)
  else
    let loaded :=
      if cache_empty s then _load_steps_into_cache repo s else (Ok tt, s) in
    match loaded with
    | (Raise e, s1) => (Raise e, s1)
    | (Ok _, s1) =>
        let s2 := mk (_file_watcher s1) (_steps_cache s1) (Some callback) (_watching s1) in
        match start (_file_watcher s2) with
        | Raise e => (Raise e, s2)
        | Ok w => (Ok tt, mk w (_steps_cache s2) (_callback s2) true)
        end
    end.

Definition stop_watching (s : t) : result unit * t :=
  if negb (_watching s) then (Ok tt, s)
  else
    match stop (_file_watcher s) with
    | Raise e => (Raise e, s)
    | Ok w => (Ok tt, mk w (_steps_cache s) None false)
    end.

(** One call of the registered callback: [callback(event_type, step)]. *)
Record invocation : Type := mkInvocation {
  inv_callback : CB;
  inv_event_type : string;
  inv_step : option Step
}.

(** [_handle_file_event]: the state it leaves and the call of the
    callback it makes, if it makes one. *)
Definition _handle_file_event (repo : R) (file_event : FileEvent) (s : t)
  : result (option invocation) * t :=
  match _extract_task_id_from_path (file_path file_event) with
  | None => (Ok None, s)
  | Some tid =>
      let ty := event_value (event_type file_event) in
      let updated : result (option Step) * t :=
        if bool_decide (event_type file_event = DELETED) then
          (Ok (_steps_cache s !! tid), set_cache (delete tid (_steps_cache s)) s)
        else
          match refresh repo tid with
          | Raise e => (Raise e, s)
          | Ok (Some st) => (Ok (Some st), set_cache (<[tid := st]> (_steps_cache s)) s)
          | Ok None => (Ok None, s)
          end in
      match updated with
      | (Raise e, s1) => (Raise e, s1)
      | (Ok step, s1) =>
          match _callback s1 with
          | Some cb => (Ok (Some (mkInvocation cb ty step)), s1)
          | None => (Ok None, s1)
          end
      end
  end.

End Service.

Arguments t : clear implicits.
Arguments invocation : clear implicits.

End StepService.

(** ** application/connection_manager.py *)

(** What the process does to the outside, in order. *)
Module IO.

(** A [WebSocket] object, by identity. *)
Definition WebSocket : Type := nat.

Inductive event : Type :=
| Accept (ws : WebSocket)                        (* websocket.accept() *)
| Dumps (message : pyval)                        (* json.dumps(message) *)
| SendText (ws : WebSocket) (text : string) (delivered : bool).
                                                 (* ws.send_text(text) *)

(** The state of the connections: [down ws = Some e] when a send on
    [ws] raises [e]. *)
Definition network : Type := WebSocket -> option exn.

(** [json.dumps], a function of the message. *)
Class JsonCodec : Type := json_dumps : pyval -> string.

(** The texts handed to [send_text] of [ws]. *)
Definition sends_to (ws : WebSocket) (out : list event) : list string :=
  omap (fun e => match e with
                 | SendText ws' text _ => if bool_decide (ws' = ws) then Some text else None
                 | _ => None
                 end) out.

(** The messages serialized. *)
Definition dumped (out : list event) : list pyval :=
  omap (fun e => match e with Dumps m => Some m | _ => None end) out.

End IO.

Import IO.

(** Each coroutine is run from start to end, or to the point where it
    waits for the client; what other tasks do while it is suspended at an
    [await] is not part of the embedding. *)
Module ConnectionManager.

Record t : Type := mk { _active_connections : list WebSocket }.

Definition init : t := mk [].

(** [list.remove(x)]: the first occurrence goes. *)
Fixpoint list_remove (x : WebSocket) (l : list WebSocket) : list WebSocket :=
  match l with
  | [] => []
  | y :: r => if bool_decide (y = x) then r else y :: list_remove x r
  end.

(** [connect]; the handshake of [accept] is taken to succeed. *)
Definition connect (websocket : WebSocket) (m : t) : t * list event :=
  (mk (_active_connections m ++ [websocket]), [Accept websocket]).

Definition disconnect (websocket : WebSocket) (m : t) : t :=
  if bool_decide (websocket ∈ _active_connections m)
  then mk (list_remove websocket (_active_connections m))
  else m.

Section Sending.
Context `{!JsonCodec} (down : network).

Definition send_text (ws : WebSocket) (text : string) : result unit * list event :=
  match down ws with
  | None => (Ok tt, [SendText ws text true])
  | Some e => (Raise e, [SendText ws text false])
  end.

(** The state of the first loop of [broadcast]: the manager, the
    clients marked for removal, what was done so far. *)
Definition pass : Type := t * list WebSocket * list event.

(** The body of the first loop. *)
Definition send_or_mark (json_message : string) (st : pass)
    (connection : WebSocket) : pass :=
  let '(m, disconnected_clients, out) := st in
  match send_text connection json_message with
  | (Ok _, o) => (m, disconnected_clients, out ++ o)
  | (Raise _, o) => (m, disconnected_clients ++ [connection], out ++ o)
  end.

(** The body of the second loop. *)
Definition remove_marked (m : t) (client : WebSocket) : t :=
  if bool_decide (client ∈ _active_connections m)
  then mk (list_remove client (_active_connections m))
  else m.

Definition broadcast (message : pyval) (m : t) : t * list event :=
  let json_message := json_dumps message in
  let '(m1, disconnected_clients, out) :=
    foldl (send_or_mark json_message) (m, [], [Dumps message])
          (_active_connections m) in
  (foldl remove_marked m1 disconnected_clients, out).

Definition send_personal (websocket : WebSocket) (message : pyval)
  : result unit * list event :=
  let json_message := json_dumps message in
  let '(r, o) := send_text websocket json_message in
  (r, Dumps message :: o).

End Sending.

End ConnectionManager.

(** ** main.py *)

Module Main.

(** The one callback the service is given. *)
Inductive callback : Type := on_file_change.

Definition service : Type :=
  StepService.t WatchdogFileWatcher.t callback.

(** The module's globals. [main_event_loop] is [Some running] once
    set. *)
Record t : Type := mk {
  connection_manager : ConnectionManager.t;
  step_service : option service;
  main_event_loop : option bool
}.

(** The module as imported. *)
Definition init : t := mk ConnectionManager.init None None.

Definition init_message (steps : list Step) : pyval :=
  PDict [("type", PStr "init"); ("steps", PList (map to_dict steps))].

Definition remove_message (st : Step) : pyval :=
  PDict [("type", PStr "remove"); ("taskId", PStr (task_id st))].

Definition update_message (st : Step) : pyval :=
  PDict [("type", PStr "update"); ("step", to_dict st)].

Section Server.
Context `{!JsonCodec} (down : network).

(** [handle_step_update], run on the manager. *)
Definition handle_step_update (event_type : string) (step : option Step)
    (m : ConnectionManager.t) : ConnectionManager.t * list event :=
  match step with
  | Some st =>
      if String.eqb event_type "deleted"
      then ConnectionManager.broadcast down (remove_message st) m
      else ConnectionManager.broadcast down (update_message st) m
  | None => (m, [])
  end.

(** [on_file_change]: the coroutine runs on the loop if there is a
    running one. *)
Definition on_file_change_ (event_type : string) (step : option Step)
    (g : t) : t * list event :=
  match main_event_loop g with
  | Some true =>
      let '(m, out) := handle_step_update event_type step (connection_manager g) in
      (mk m (step_service g) (main_event_loop g), out)
  | _ => (g, [])
  end.

(** A settled file event reaches the service, whose callback runs. An
    exception of the handler ends the timer's thread and goes no
    further. *)
Definition file_changed (repo : JsonFileRepository.t) (file_event : FileEvent)
    (g : t) : result unit * t * list event :=
  match step_service g with
  | None => (Ok tt, g, [])
  | Some svc =>
      let '(r, svc1) := StepService._handle_file_event repo file_event svc in
      let g1 := mk (connection_manager g) (Some svc1) (main_event_loop g) in
      match r with
      | Raise e => (Raise e, g1, [])
      | Ok None => (Ok tt, g1, [])
      | Ok (Some (StepService.mkInvocation on_file_change ty step)) =>
          let '(g2, out) := on_file_change_ ty step g1 in
          (Ok tt, g2, out)
      end
  end.

Definition with_manager (m : ConnectionManager.t) (g : t) : t :=
  mk m (step_service g) (main_event_loop g).

(** [websocket_endpoint] up to its receive loop. Either [except]
    clause disconnects the client and ends the coroutine. *)
Definition websocket_endpoint (repo : JsonFileRepository.t)
    (websocket : WebSocket) (g : t) : t * list event :=
  let '(m, out) := ConnectionManager.connect websocket (connection_manager g) in
  match step_service g with
  | None => (with_manager m g, out)
  | Some svc =>
      match StepService.get_all_steps repo svc with
      | (Raise _, svc1) =>
          (mk (ConnectionManager.disconnect websocket m) (Some svc1)
              (main_event_loop g), out)
      | (Ok steps, svc1) =>
          match ConnectionManager.send_personal down websocket (init_message steps) with
          | (Ok _, o) => (mk m (Some svc1) (main_event_loop g), out ++ o)
          | (Raise _, o) =>
              (mk (ConnectionManager.disconnect websocket m) (Some svc1)
                  (main_event_loop g), out ++ o)
          end
      end
  end.

(** The receive loop of [websocket_endpoint] ends: [receive_text]
    raised, the client is disconnected. *)
Definition websocket_closed (websocket : WebSocket) (g : t) : t :=
  with_manager (ConnectionManager.disconnect websocket (connection_manager g)) g.

End Server.

(** [lifespan] up to its [yield]: the loop is stored, the folder is
    checked, the service is created and started. *)
Definition lifespan_startup (repo : JsonFileRepository.t)
    (file_watcher : WatchdogFileWatcher.t) (g : t) : result unit * t :=
  let g1 := mk (connection_manager g) (step_service g) (Some true) in
  if negb (WatchdogFileWatcher.folder_exists file_watcher) then (Raise SystemExit, g1)
  else
    let '(r, svc) :=
      StepService.start_watching repo on_file_change (StepService.init file_watcher) in
    (r, mk (connection_manager g1) (Some svc) (main_event_loop g1)).

(** What happens to the running server. *)
Inductive happening : Type :=
| ClientConnects (repo : JsonFileRepository.t) (ws : WebSocket)
| ClientCloses (ws : WebSocket)
| FileChanges (repo : JsonFileRepository.t) (file_event : FileEvent).

Section Run.
Context `{!JsonCodec}.

Definition step (down : network) (h : happening) (g : t) : t * list event :=
  match h with
  | ClientConnects repo ws => websocket_endpoint down repo ws g
  | ClientCloses ws => (websocket_closed ws g, [])
  | FileChanges repo fe =>
      let '(_, g1, out) := file_changed down repo fe g in (g1, out)
  end.

(** The server handles one happening after the other, each with the
    network as it is then. *)
Fixpoint run (hs : list (network * happening)) (g : t) : t * list event :=
  match hs with
  | [] => (g, [])
  | (down, h) :: rest =>
      let '(g1, out1) := step down h g in
      let '(g2, out2) := run rest g1 in
      (g2, out1 ++ out2)
  end.
End Run.

End Main.

(** ** The filters of adapters/watchdog_file_watcher.py *)

(** [pathlib.PurePosixPath(path)], as far as [suffix] needs it. *)
Module PurePath.

(** [Path(path).name]: the last component of the path; empty components
    and the components [.] are dropped when the path is parsed. *)
Definition name (path : string) : string :=
  List.last (filter (fun x => x <> "" /\ x <> ".") (split "/"%char path)) "".

(** [s.rfind(x)] for a one-character [x]: the index of its last
    occurrence, or -1. *)
Fixpoint rfind (x : ascii) (s : string) : Z :=
  match s with
  | EmptyString => -1
  | String c r =>
      let i := rfind x r in
      if 0 <=? i then i + 1 else if Ascii.eqb c x then 0 else -1
  end.

(** [Path(path).suffix]: the name from its last dot on, unless that dot
    is the first or the last character of the name. *)
Definition suffix (path : string) : string :=
  let name := name path in
  let i := rfind "."%char name in
  if (0 <? i) && (i <? Z.of_nat (String.length name) - 1)
  then String.substring (Z.to_nat i) (String.length name - Z.to_nat i) name
  else "".

(** [str.lower] on code points below 256: the capital letters of ASCII
    and of Latin-1 have their small letter 32 places on. *)
Definition lower_char (c : ascii) : ascii :=
  let n := code c in
  if ((65 <=? n) && (n <=? 90) || (192 <=? n) && (n <=? 214)
      || (216 <=? n) && (n <=? 222))%nat
  then ascii_of_nat (n + 32) else c.

Fixpoint lower (s : string) : string :=
  match s with
  | EmptyString => EmptyString
  | String c r => String (lower_char c) (lower r)
  end.

End PurePath.

(** The methods of [_DebouncedEventHandler] that watchdog calls. *)
Module EventHandler.

(** A [FileSystemEvent] of watchdog. *)
Record FileSystemEvent : Type := mkFileSystemEvent {
  src_path : string;
  is_directory : bool
}.

Definition _is_json_file (path : string) : bool :=
  String.eqb (PurePath.lower (PurePath.suffix path)) ".json".

(** The three methods differ in the kind they schedule. *)
Definition on_created (now : nat) (event : FileSystemEvent) (h : Debounce.t)
  : Debounce.t :=
  if is_directory event then h
  else if negb (_is_json_file (src_path event)) then h
  else Debounce._schedule_callback now (src_path event) CREATED h.

Definition on_modified (now : nat) (event : FileSystemEvent) (h : Debounce.t)
  : Debounce.t :=
  if is_directory event then h
  else if negb (_is_json_file (src_path event)) then h
  else Debounce._schedule_callback now (src_path event) MODIFIED h.

Definition on_deleted (now : nat) (event : FileSystemEvent) (h : Debounce.t)
  : Debounce.t :=
  if is_directory event then h
  else if negb (_is_json_file (src_path event)) then h
  else Debounce._schedule_callback now (src_path event) DELETED h.

End EventHandler.

(** ** emulator.py *)

Module Emulator.

Definition PHASES : list string :=
  ["research"; "design"; "implement"; "test"; "deploy"].

Definition DESCRIPTIONS : list (string * list string) :=
  [ ("research",
     [ "Analyze existing codebase structure";
       "Research best practices for implementation";
       "Identify dependencies and constraints";
       "Review related documentation" ]);
    ("design",
     [ "Design component architecture";
       "Define API contracts";
       "Create data models";
       "Plan integration points" ]);
    ("implement",
     [ "Implement core functionality";
       "Add error handling";
       "Create unit tests";
       "Refactor for clarity";
       "Add logging and monitoring" ]);
    ("test",
     [ "Run integration tests";
       "Perform load testing";
       "Validate edge cases";
       "Fix failing tests" ]);
    ("deploy",
     [ "Prepare deployment configuration";
       "Deploy to staging environment";
       "Run smoke tests";
       "Deploy to production" ]) ].

(** [DESCRIPTIONS[phase]] for a phase of [PHASES]. *)
Fixpoint descriptions_of (phase : string) (d : list (string * list string))
  : list string :=
  match d with
  | [] => []
  | (k, v) :: r => if String.eqb k phase then v else descriptions_of phase r
  end.

(** [f"{z:02d}"]: the decimal numeral, with a zero in front where it is
    a single digit. *)
Definition format_02d (z : Z) : string :=
  let s := pretty z in
  if (String.length s <? 2)%nat then ("0" ++ s)%string else s.

(** The path, below the folder, and the value that [create_step_file]
    writes there. *)
Definition create_step_file (task_id project_id phase description status : string)
  : string * pyval :=
  ((task_id ++ ".json")%string,
   PDict [ ("task_id", PStr task_id);
           ("project_id", PStr project_id);
           ("phase", PStr phase);
           ("description", PStr description);
           ("validation", PDict [("status", PStr status)]) ]).

(** [d[key] = v] on a value that was read from JSON and is a dict. *)
Definition setitem (d : pyval) (key : string) (v : pyval) : result pyval :=
  match d with
  | PDict entries => Ok (PDict (Dict.set key v entries))
  | _ => Raise TypeError
  end.

(** [update_step_status] on the value read from the file: the value it
    writes back, if it gets that far, and how it ends. The old status is
    printed in capitals after the file is written, which only a string
    allows. *)
Definition update_step_status (data : pyval) (new_status : string)
  : option pyval * result unit :=
  match (validation ← getitem data "validation";
         old_status ← getitem validation "status";
         validation' ← setitem validation "status" (PStr new_status);
         data' ← setitem data "validation" validation';
         Ok (old_status, data')) with
  | Raise e => (None, Raise e)
  | Ok (old_status, data') =>
      (Some data',
       match old_status with
       | PStr _ => Ok tt
       | _ => Raise AttributeError
       end)
  end.

(** [steps[:n]] *)
Definition slice_to {A : Type} (n : Z) (l : list A) : list A :=
  if 0 <=? n then take (Z.to_nat n) l
  else take (length l - Z.to_nat (- n)) l.

(** The inner loop of [generate_steps] over the indices that are left:
    the steps and [minor] it ends with. *)
Fixpoint phase_loop (num_steps major : Z) (phase : string)
    (descriptions : list string) (indices : list nat)
    (steps : list pyval) (minor : Z) : list pyval * Z :=
  match indices with
  | [] => (steps, minor)
  | i :: rest =>
      if Z.of_nat (length steps) >=? num_steps then (steps, minor)
      else
        let task_id := (format_02d major ++ "-" ++ format_02d minor)%string in
        let step :=
          PDict [ ("task_id", PStr task_id);
                  ("phase", PStr phase);
                  ("description",
                   PStr (nth (i mod length descriptions) descriptions "")) ] in
        phase_loop num_steps major phase descriptions rest (steps ++ [step]) (minor + 1)
  end.

(** The body of the outer loop: the steps and [major] after one phase. *)
Definition phase_steps (num_steps : Z) (st : list pyval * Z) (phase : string)
  : list pyval * Z :=
  let '(steps, major) := st in
  let descriptions := descriptions_of phase DESCRIPTIONS in
  let num_phase_steps :=
    Z.min (Z.of_nat (length descriptions))
          (num_steps / Z.of_nat (length PHASES) + 1) in
  let '(steps, _) :=
    phase_loop num_steps major phase descriptions
      (seq 0 (Z.to_nat num_phase_steps)) steps 1 in
  (steps, major + 1).

Definition generate_steps (num_steps : Z) : list pyval :=
  slice_to num_steps (foldl (phase_steps num_steps) ([], 1) PHASES).1.

End Emulator.

(** * The vocabulary of the properties *)

(** The canonical form of the specification: two digits, a hyphen, two
    digits. *)
Definition is_NN_NN (s : string) : bool :=
  match list_ascii_of_string s with
  | [a; b; h; c; d] =>
      is_digit a && is_digit b && Ascii.eqb h hyphen && is_digit c && is_digit d
  | _ => false
  end.

(** The same form with groups of any length: one or more digits, a
    hyphen, one or more digits. *)
Definition all_digits (s : string) : bool :=
  negb (String.eqb s "") && forallb is_digit (list_ascii_of_string s).

Definition is_digit_groups (s : string) : bool :=
  match split hyphen s with
  | [a; b] => all_digits a && all_digits b
  | _ => false
  end.

(** A [Step] can be constructed with this task id. *)
Definition constructs (tid : string) : Prop :=
  forall pid ph descr st, exists s, Step_init (PStr tid) pid ph descr st = Ok s.

(** A string is two integer groups when one hyphen cuts it into two parts
    that [int] reads. *)
Definition two_int_groups (tid : string) (major minor : Z) : Prop :=
  exists a b, tid = (a ++ String hyphen b)%string
              /\ contains hyphen a = false /\ contains hyphen b = false
              /\ int a = Ok major /\ int b = Ok minor.



(** A step file as the tests write it. *)
Definition step_data (tid st : string) : pyval :=
  PDict [ ("task_id", PStr tid); ("project_id", PStr "demo");
          ("phase", PStr "design"); ("description", PStr "Test step");
          ("validation", PDict [("status", PStr st)]) ].

(** A JSON object without any of the required fields, whose
    ["validation"] is a number. *)
Definition no_fields : pyval := PDict [("validation", PInt 3)].

Definition folder_with_no_fields : JsonFileRepository.t :=
  JsonFileRepository.mk "/steps"
    [ ("01-01.json", JsonFileRepository.Loaded (step_data "01-01" "pending"));
      ("02-01.json", JsonFileRepository.Loaded no_fields) ].

(** A folder without files, and the folder once the file without fields
    was put in it. *)
Definition empty_folder : JsonFileRepository.t :=
  JsonFileRepository.mk "/steps" [].

Definition folder_of_no_fields : JsonFileRepository.t :=
  JsonFileRepository.mk "/steps"
    [("02-01.json", JsonFileRepository.Loaded no_fields)].

(** The exceptions the reader of step files treats as bad data. *)
Definition data_error (e : exn) : bool :=
  bool_decide (e = KeyError) || is_ValueError e.

(** ** Concrete values for the examples *)

Module Examples.

Definition quote : string := String (ascii_of_nat 34) "".

(** A plain printer that stands in for [json.dumps] in the examples; the
    theorems hold for every codec. It prints no escapes and one token for
    every float. *)
Fixpoint dumps (v : pyval) : string :=
  match v with
  | PNone => "null"
  | PBool true => "true"
  | PBool false => "false"
  | PInt z => pretty z
  | PFloat _ => "<float>"
  | PStr s => quote +:+ s +:+ quote
  | PList l => "[" +:+ String.concat ", " (map dumps l) +:+ "]"
  | PDict d =>
      "{" +:+ String.concat ", "
                (map (fun e => quote +:+ e.1 +:+ quote +:+ ": " +:+ dumps e.2) d)
      +:+ "}"
  end.

Definition codec : JsonCodec := dumps.

(** A network on which every send succeeds. *)
Definition all_up : network := fun _ => None.

Definition watcher : WatchdogFileWatcher.t :=
  WatchdogFileWatcher.mk true true 100 None None.

(** A folder with one step, and the same folder after the step was
    completed. *)
Definition folder : JsonFileRepository.t :=
  JsonFileRepository.mk "/steps"
    [("01-01.json", JsonFileRepository.Loaded (step_data "01-01" "pending"))].

Definition folder_completed : JsonFileRepository.t :=
  JsonFileRepository.mk "/steps"
    [("01-01.json", JsonFileRepository.Loaded (step_data "01-01" "completed"))].

(** The server once [lifespan] has started it on [folder]. *)
Definition started : Main.t :=
  (Main.lifespan_startup folder watcher Main.init).2.

Definition started_service : Main.service :=
  (StepService.start_watching folder Main.on_file_change
     (StepService.init watcher)).2.

Definition deleted_unknown : FileEvent := mkFileEvent DELETED "/steps/09-09.json".
Definition modified_known : FileEvent := mkFileEvent MODIFIED "/steps/01-01.json".
Definition created_unknown : FileEvent := mkFileEvent CREATED "/steps/09-09.json".

End Examples.

Definition keyed (cache : gmap string Step) : Prop :=
  forall key st, cache !! key = Some st -> task_id st = key.

(** The calls a service receives. *)
Inductive call (CB : Type) : Type :=
| GetAllSteps (repo : JsonFileRepository.t)
| StartWatching (repo : JsonFileRepository.t) (callback : CB)
| StopWatching
| HandleFileEvent (repo : JsonFileRepository.t) (file_event : FileEvent).
Arguments GetAllSteps {CB} repo.
Arguments StartWatching {CB} repo callback.
Arguments StopWatching {CB}.
Arguments HandleFileEvent {CB} repo file_event.

(** The service after a call, whether the call returned or raised. *)
Definition after {W CB : Type} `{!FileWatcher W} (c : call CB)
    (s : StepService.t W CB) : StepService.t W CB :=
  match c with
  | GetAllSteps repo => (StepService.get_all_steps repo s).2
  | StartWatching repo callback => (StepService.start_watching repo callback s).2
  | StopWatching => (StepService.stop_watching s).2
  | HandleFileEvent repo fe => (StepService._handle_file_event repo fe s).2
  end.

(** A client whose send succeeds. *)
Definition up (down : network) (c : WebSocket) : Prop := down c = None.

(** What one pass does for one registered client. *)
Definition attempt (down : network) (text : string) (c : WebSocket) : event :=
  SendText c text (bool_decide (up down c)).

(** The second loop on the list of connections. *)
Definition drop_marked (l : list WebSocket) (c : WebSocket) : list WebSocket :=
  if bool_decide (c ∈ l) then ConnectionManager.list_remove c l else l.

(** The event a timer hands to the callback when it fires. *)
Definition event_of (tm : Debounce.Timer) : FileEvent :=
  mkFileEvent (Debounce.fn_event_type tm) (Debounce.fn_path tm).

(** The timers still running are the ones [_pending_timers] holds: no
    path has two entries, every entry is a timer that is not finished and
    was created for the path it is stored under, and every timer that is
    not finished is the entry of its path. *)
Definition well_formed (h : Debounce.t) : Prop :=
  NoDup (Debounce._pending_timers h).*1
  /\ (forall path i,
        Dict.get path (Debounce._pending_timers h) = Some i ->
        exists tm, Debounce.threads h !! i = Some (tm, false)
                   /\ Debounce.fn_path tm = path)
  /\ (forall i tm,
        Debounce.threads h !! i = Some (tm, false) ->
        Dict.get (Debounce.fn_path tm) (Debounce._pending_timers h) = Some i).

(** The timer the handler holds for a path. *)
Definition pending_timer (path : string) (h : Debounce.t) : option Debounce.Timer :=
  i ← Dict.get path (Debounce._pending_timers h);
  fst <$> Debounce.threads h !! i.

(** What the handler holds and has delivered for one path. *)
Definition view (path : string) (h : Debounce.t)
  : option Debounce.Timer * list FileEvent :=
  (pending_timer path h, Debounce.delivered_for path h).

(** The timer of a path fires, seen for that path. *)
Definition view_fire (v : option Debounce.Timer * list FileEvent)
  : option Debounce.Timer * list FileEvent :=
  match v.1 with
  | Some tm => (None, v.2 ++ [event_of tm])
  | None => v
  end.

(** The timer a path is stored with is among the timers [timers]. *)
Definition hit (path : string) (timers : list nat) (h : Debounce.t) : bool :=
  match Dict.get path (Debounce._pending_timers h) with
  | Some j => bool_decide (j ∈ timers)
  | None => false
  end.

(** The clock advances, seen for one path: its timer fires if it is due. *)
Definition view_elapse (now : nat) (v : option Debounce.Timer * list FileEvent)
  : option Debounce.Timer * list FileEvent :=
  match v.1 with
  | Some tm => if decide (Debounce.deadline tm <= now)%nat
               then (None, v.2 ++ [event_of tm]) else v
  | None => v
  end.

(** The timer [_schedule_callback] starts for a notification. *)
Definition timer_for (delay : nat) (n : Debounce.notification) : Debounce.Timer :=
  Debounce.mkTimer (Debounce.at_time n + delay) (Debounce.src_path n) (Debounce.kind n).

(** A notification, seen for one path. *)
Definition view_notify (delay : nat) (path : string) (n : Debounce.notification)
    (v : option Debounce.Timer * list FileEvent)
  : option Debounce.Timer * list FileEvent :=
  let v1 := view_elapse (Debounce.at_time n) v in
  if decide (path = Debounce.src_path n) then (Some (timer_for delay n), v1.2) else v1.

(** Notifications in the order of their times, none before [t]. *)
Fixpoint chronological (t : nat) (ns : list Debounce.notification) : Prop :=
  match ns with
  | [] => True
  | n :: rest => (t <= Debounce.at_time n)%nat /\ chronological (Debounce.at_time n) rest
  end.

(** Notifications that each arrive less than [delay] after the one
    before, the first less than [delay] after [t]. *)
Fixpoint burst_after (delay t : nat) (ns : list Debounce.notification) : Prop :=
  match ns with
  | [] => True
  | n :: rest => (t <= Debounce.at_time n < t + delay)%nat
                 /\ burst_after delay (Debounce.at_time n) rest
  end.

(** An update or a remove message. *)
Definition is_transition (message : pyval) : bool :=
  match message with
  | PDict (("type", PStr t) :: _) => String.eqb t "update" || String.eqb t "remove"
  | _ => false
  end.

(** The transitions serialized, in order. *)
Definition transitions (out : list event) : list pyval :=
  filter (fun m => is_transition m = true) (dumped out).

(** The occurrences of a client among the registered connections. *)
Definition registrations (ws : WebSocket) (g : Main.t) : list WebSocket :=
  filter (fun c => c = ws)
    (ConnectionManager._active_connections (Main.connection_manager g)).

(** A happening that is neither the connection nor the closing of [ws]. *)
Definition of_others (ws : WebSocket) (h : Main.happening) : Prop :=
  match h with
  | Main.ClientConnects _ ws' | Main.ClientCloses ws' => ws' <> ws
  | Main.FileChanges _ _ => True
  end.

(** What one happening does, as far as a client is concerned that
    neither connects nor closes: nothing that concerns it, or one
    broadcast of a transition. *)
Definition quiet_for (ws : WebSocket) (g : Main.t) (r : Main.t * list event) : Prop :=
  sends_to ws r.2 = [] /\ transitions r.2 = []
  /\ registrations ws r.1 = registrations ws g.

Definition broadcasts `{!JsonCodec} (down : network) (g : Main.t)
    (r : Main.t * list event) : Prop :=
  exists message,
    is_transition message = true
    /\ (Main.connection_manager r.1, r.2)
       = ConnectionManager.broadcast down message (Main.connection_manager g).

(** A run around the connection of client 7: a step is completed before
    it connects; afterwards client 8 connects, the step is modified again
    and client 8 closes. *)
Definition before_connect : list (network * Main.happening) :=
  [(Examples.all_up, Main.FileChanges Examples.folder_completed Examples.modified_known)].

Definition after_connect : list (network * Main.happening) :=
  [(Examples.all_up, Main.ClientConnects Examples.folder_completed 8%nat);
   (Examples.all_up, Main.FileChanges Examples.folder Examples.modified_known);
   (Examples.all_up, Main.ClientCloses 8%nat)].

Definition service_at_connect : Main.service :=
  (StepService._handle_file_event Examples.folder_completed Examples.modified_known
     Examples.started_service).2.


(** The service after a sequence of calls. *)
Definition service_after {W CB : Type} `{!FileWatcher W} (file_watcher : W)
    (calls : list (call CB)) : StepService.t W CB :=
  foldl (fun s c => after c s) (StepService.init file_watcher) calls.

(** The notifications for one path that settle by [T]: those that the
    next one follows no sooner than [delay] later, and the last one if
    the clock has reached its deadline. *)
Fixpoint settled (delay T : nat) (ns : list Debounce.notification)
  : list Debounce.notification :=
  match ns with
  | [] => []
  | n :: rest =>
      match rest with
      | [] => if decide (Debounce.at_time n + delay <= T)%nat then [n] else []
      | n' :: _ =>
          if decide (Debounce.at_time n + delay <= Debounce.at_time n')%nat
          then n :: settled delay T rest
          else settled delay T rest
      end
  end.

(** The event a settled notification becomes. *)
Definition event_for (n : Debounce.notification) : FileEvent :=
  mkFileEvent (Debounce.kind n) (Debounce.src_path n).

(** An event of the observer: when it comes, which method of the handler
    it is dispatched to, and the event itself. *)
Record observed : Type := mkObserved {
  observed_at : nat;
  observed_kind : FileEventType;
  observed_event : EventHandler.FileSystemEvent
}.

(** The observer dispatches an event; the timers that are due by then
    have fired. *)
Definition dispatch (o : observed) (h : Debounce.t) : Debounce.t :=
  let h1 := Debounce.elapse (observed_at o) h in
  match observed_kind o with
  | CREATED => EventHandler.on_created (observed_at o) (observed_event o) h1
  | MODIFIED => EventHandler.on_modified (observed_at o) (observed_event o) h1
  | DELETED => EventHandler.on_deleted (observed_at o) (observed_event o) h1
  end.

(** An observed event that passes the filters of the handler. *)
Definition passes (o : observed) : Prop :=
  EventHandler.is_directory (observed_event o) = false
  /\ EventHandler._is_json_file (EventHandler.src_path (observed_event o)) = true.

(** The file event that an observed event becomes, if it settles. *)
Definition settles_as (o : observed) : FileEvent :=
  mkFileEvent (observed_kind o) (EventHandler.src_path (observed_event o)).

(** Where the events handed on and the timers started come from. *)
Definition from_observed (os : list observed) (h : Debounce.t) : Prop :=
  Forall (fun e => exists o, o ∈ os /\ passes o /\ e = settles_as o)
    (Debounce.delivered h)
  /\ Forall (fun th => exists o, o ∈ os /\ passes o /\ event_of th.1 = settles_as o)
       (Debounce.threads h).

(** The three fields of a step definition of the emulator. *)
Definition generated_fields (s : pyval) : option (string * string * string) :=
  match s with
  | PDict [(k1, PStr tid); (k2, PStr ph); (k3, PStr d)] =>
      if String.eqb k1 "task_id" && String.eqb k2 "phase"
         && String.eqb k3 "description"
      then Some (tid, ph, d) else None
  | _ => None
  end.

(** The task id of a step definition of the emulator. *)
Definition generated_id (s : pyval) : option string :=
  (fun f => f.1.1) <$> generated_fields s.

(** A step definition as [generate_steps] is meant to make it: an id of
    the form NN-NN, a phase of [PHASES] and one of its descriptions. *)
Definition generated_ok (s : pyval) : bool :=
  match generated_fields s with
  | Some (tid, ph, d) =>
      is_NN_NN tid
      && bool_decide (ph ∈ Emulator.PHASES)
      && bool_decide (d ∈ Emulator.descriptions_of ph Emulator.DESCRIPTIONS)
  | None => false
  end.

(** The three properties of a list of step definitions, as one test. *)
Definition generated_list_ok (n : Z) (steps : list pyval) : bool :=
  bool_decide (length steps = Z.to_nat (Z.min n 21))
  && forallb generated_ok steps
  && bool_decide (NoDup (omap generated_id steps)).

(** The descriptions of all phases together. *)
Definition all_descriptions : nat :=
  sum_list (map (fun ph => length (Emulator.descriptions_of ph Emulator.DESCRIPTIONS))
              Emulator.PHASES).

(** A step with another status. *)
Definition with_status (st : StepStatus) (s : Step) : Step :=
  mkStep (task_id s) (project_id s) (phase s) (description s) st
    (major_version s) (minor_version s).


(** * Properties *)

(** ** Strings *)

Lemma digit_is_plain (c : ascii) :
  is_digit c = true ->
  Ascii.eqb c hyphen = false /\ Ascii.eqb c underscore = false
  /\ Ascii.eqb c "+"%char = false /\ is_space c = false.
Proof.
  destruct c as [[] [] [] [] [] [] [] []]; vm_compute; intros; try discriminate; done.
Qed.

Lemma contains_app (x : ascii) (a b : string) :
  contains x (a ++ b)%string = contains x a || contains x b.
Proof.
  induction a as [|c a IH]; simpl; [done|].
  destruct (Ascii.eqb c x); [done | apply IH].
Qed.

Lemma split_no_sep (sep : ascii) (s : string) :
  contains sep s = false -> split sep s = [s].
Proof.
  induction s as [|c s IH]; simpl; [done|].
  destruct (Ascii.eqb c sep); [done|].
  intros H. by rewrite IH.
Qed.

Lemma split_app_sep (sep : ascii) (a b : string) :
  contains sep a = false ->
  split sep (a ++ String sep b)%string = a :: split sep b.
Proof.
  induction a as [|c a IH]; simpl.
  - intros _. by rewrite Ascii.eqb_refl.
  - destruct (Ascii.eqb c sep); [done|].
    intros H. by rewrite IH.
Qed.

Lemma split_nonempty (sep : ascii) (s : string) : split sep s <> [].
Proof.
  destruct s as [|c s]; simpl; [done|].
  destruct (Ascii.eqb c sep); [done|].
  by destruct (split sep s).
Qed.

Lemma split_one (sep : ascii) (s b : string) :
  split sep s = [b] -> s = b /\ contains sep s = false.
Proof.
  revert b. induction s as [|c s IH]; simpl; intros b.
  - by intros [= <-].
  - destruct (Ascii.eqb c sep).
    + intros [= _ H]. by destruct (split_nonempty sep s).
    + destruct (split sep s) as [|p [|q ps]] eqn:E.
      * by destruct (split_nonempty sep s).
      * intros [= <-]. destruct (IH p eq_refl) as [-> H]. done.
      * done.
Qed.

(** A split into two parts cuts the string at its only separator. *)
Lemma split_two (sep : ascii) (s a b : string) :
  split sep s = [a; b] ->
  s = (a ++ String sep b)%string
  /\ contains sep a = false /\ contains sep b = false.
Proof.
  revert a. induction s as [|c s IH]; simpl; intros a; [done|].
  destruct (Ascii.eqb_spec c sep) as [->|Hne].
  - intros [= <- Hs]. destruct (split_one _ _ _ Hs) as [-> Hc]. done.
  - destruct (split sep s) as [|p [|q [|r ps]]] eqn:E; try done.
    intros [= <- <-].
    destruct (IH p eq_refl) as (-> & Ha & Hb).
    split; [done|]. split; [|done].
    simpl. destruct (Ascii.eqb_spec c sep); [done | exact Ha].
Qed.

(** ** C2: which task ids construct a [Step] *)

Lemma int_two_digits (a b : ascii) :
  is_digit a = true -> is_digit b = true ->
  int (String a (String b "")) = Ok (10 * digit_value a + digit_value b).
Proof.
  intros Ha Hb.
  destruct (digit_is_plain a Ha) as (Ha1 & Ha2 & Ha3 & Ha4).
  unfold int. cbn [lstrip]. rewrite Ha4, Ha3, Ha1.
  unfold int_unsigned. rewrite Ha2.
  cbn [scan_digits]. rewrite Ha, Hb.
  replace (10 * 0 + digit_value a) with (digit_value a) by lia.
  reflexivity.
Qed.

Lemma parse_string (tid : string) :
  _parse_version_from_task_id (PStr tid) =
  match split hyphen tid with
  | [p0; p1] =>
      match int p0, int p1 with
      | Ok major, Ok minor => Ok (major, minor)
      | _, _ => Raise ValueError
      end
  | _ => Raise ValueError
  end.
Proof.
  unfold _parse_version_from_task_id. cbn [truthy has_hyphen split_hyphen mbind result_bind].
  destruct tid as [|c tid]; [reflexivity|].
  cbn [String.eqb negb].
  destruct (contains hyphen (String c tid)) eqn:Hc; cbn [negb].
  - destruct (split hyphen (String c tid)) as [|p0 [|p1 [|p2 ps]]]; try reflexivity.
    unfold int. 
    repeat match goal with
           | |- context [match ?x with Some _ => _ | None => _ end] => destruct x
           end; reflexivity.
  - by rewrite (split_no_sep _ _ Hc).
Qed.

Lemma Step_init_string (tid : string) pid ph descr st :
  Step_init (PStr tid) pid ph descr st =
  match _parse_version_from_task_id (PStr tid) with
  | Ok v => Ok (mkStep tid pid ph descr st v.1 v.2)
  | Raise e => Raise e
  end.
Proof. unfold Step_init. by destruct (_parse_version_from_task_id _). Qed.

Lemma Step_init_groups (tid : string) pid ph descr st s :
  Step_init (PStr tid) pid ph descr st = Ok s <->
  two_int_groups tid (major_version s) (minor_version s)
  /\ s = mkStep tid pid ph descr st (major_version s) (minor_version s).
Proof.
  rewrite Step_init_string, parse_string. split.
  - destruct (split hyphen tid) as [|p0 [|p1 [|p2 ps]]] eqn:E; try done.
    destruct (int p0) as [x|] eqn:E0; [|done].
    destruct (int p1) as [y|] eqn:E1; [|done].
    intros [= <-]. cbn. split; [|done].
    destruct (split_two _ _ _ _ E) as (-> & Ha & Hb).
    by exists p0, p1.
  - intros [(a & b & -> & Ha & Hb & Ia & Ib) Hs].
    rewrite (split_app_sep _ _ _ Ha), (split_no_sep _ _ Hb), Ia, Ib.
    cbn. by rewrite Hs at 3.
Qed.

Lemma NN_NN_groups (tid : string) :
  is_NN_NN tid = true -> exists x y, two_int_groups tid x y.
Proof.
  unfold is_NN_NN.
  destruct tid as [|a [|b [|h [|c [|d [|e r]]]]]];
    cbn [list_ascii_of_string]; try done.
  rewrite !andb_true_iff.
  intros ((((Da & Db) & ->%Ascii.eqb_eq) & Dc) & Dd).
  destruct (digit_is_plain _ Da) as (Ha & _).
  destruct (digit_is_plain _ Db) as (Hb & _).
  destruct (digit_is_plain _ Dc) as (Hc & _).
  destruct (digit_is_plain _ Dd) as (Hd & _).
  eexists _, _, (String a (String b "")), (String c (String d "")).
  split; [reflexivity|]. cbn [contains]. rewrite Ha, Hb, Hc, Hd.
  split; [done|]. split; [done|].
  split; by apply int_two_digits.
Qed.

Lemma Step_init_raises (tid : string) pid ph descr st (e : exn) :
  Step_init (PStr tid) pid ph descr st = Raise e -> e = ValueError.
Proof.
  rewrite Step_init_string, parse_string.
  destruct (split hyphen tid) as [|p0 [|p1 [|p2 ps]]]; try by intros [= <-].
  destruct (int p0), (int p1); by intros [= <-].
Qed.

(** What [Step_init] accepts: constructing a [Step] from a task id string
    succeeds exactly when one hyphen cuts the string into two parts that
    [int] reads, which then are the major and the minor version; every id
    of the form NN-NN is such a string; and any other string raises
    [ValueError]. *)
Lemma Step_construction (tid : string) (pid ph descr : pyval) (st : StepStatus) :
  (forall s, Step_init (PStr tid) pid ph descr st = Ok s <->
             two_int_groups tid (major_version s) (minor_version s)
             /\ s = mkStep tid pid ph descr st (major_version s) (minor_version s))
  /\ (is_NN_NN tid = true -> exists s, Step_init (PStr tid) pid ph descr st = Ok s)
  /\ (forall e, Step_init (PStr tid) pid ph descr st = Raise e -> e = ValueError).
Proof.
  split; [|split].
  - intros s. apply Step_init_groups.
  - intros H. destruct (NN_NN_groups tid H) as (x & y & G).
    exists (mkStep tid pid ph descr st x y).
    apply Step_init_groups. by cbn.
  - apply Step_init_raises.
Qed.

(** The ids that construct are neither the ids of the form NN-NN nor the
    ids of two groups of digits. *)
Lemma more_than_digit_groups_construct :
  ~ (forall tid : string, constructs tid <-> is_NN_NN tid = true)
  /\ ~ (forall tid : string, constructs tid <-> is_digit_groups tid = true).
Proof.
  split.
  - intros H. destruct (H "1-2") as [H1 _].
    discriminate H1. intros pid ph descr st. eexists. reflexivity.
  - intros H. destruct (H "1_0- 2") as [H1 _].
    discriminate H1. intros pid ph descr st. eexists. reflexivity.
Qed.

(** C2: the code does not keep the claim. The task id ["1-2"] is not of
    the form NN-NN, and ["1_0- 2"] is not even two groups of digits, yet a
    [Step] is constructed from either, with the versions 1, 2 and 10, 2:
    [_parse_version_from_task_id], whose docstring and messages ask for
    the format 'XX-YY', leaves the check of the two parts to [int], which
    reads one digit, an underscore between digits and white space around
    the number. The reader of step files constructs such steps from the
    content of a file. [_extract_task_id_from_path], which checks the same
    format with the pattern of two digits, a hyphen and two digits,
    resolves neither id. *)
Theorem C2_constructs_outside_the_pattern (pid ph descr : pyval) (st : StepStatus) :
  is_NN_NN "1-2" = false
  /\ Step_init (PStr "1-2") pid ph descr st = Ok (mkStep "1-2" pid ph descr st 1 2)
  /\ is_NN_NN "1_0- 2" = false
  /\ is_digit_groups "1_0- 2" = false
  /\ Step_init (PStr "1_0- 2") pid ph descr st
     = Ok (mkStep "1_0- 2" pid ph descr st 10 2)
  /\ JsonFileRepository._read_step_file
       (JsonFileRepository.Loaded (step_data "1-2" "pending"))
     = Ok (Some (mkStep "1-2" (PStr "demo") (PStr "design") (PStr "Test step")
                   PENDING 1 2))
  /\ StepService._extract_task_id_from_path "/steps/1-2.json" = None
  /\ StepService._extract_task_id_from_path "/steps/1_0- 2.json" = None.
Proof. repeat split; reflexivity. Qed.

(** ** C3: reading step files *)

Ltac rsimpl := cbn [mbind result_bind default from_option id get getitem].





(** C3: the code does not keep the claim. A file that decodes to an object
    without the required fields, or to a JSON array, makes
    [_read_step_file] raise [AttributeError] to its caller, and one such
    file next to a valid one makes [get_all] raise instead of returning
    the valid step. *)
Theorem C3_reader_raises_on_missing_fields :
  JsonFileRepository._read_step_file (JsonFileRepository.Loaded no_fields)
    = Raise AttributeError
  /\ JsonFileRepository._read_step_file (JsonFileRepository.Loaded (PList []))
    = Raise AttributeError
  /\ JsonFileRepository.get_all folder_with_no_fields = Raise AttributeError.
Proof. by vm_compute. Qed.

(** ** The service: C6, C7, C8, C9, C10 *)

Section ServiceFacts.
Context {R W CB : Type} `{!StepRepository R} `{!FileWatcher W}.
Implicit Types (s : StepService.t W CB) (repo : R).

Lemma set_cache_same s : StepService.set_cache (StepService._steps_cache s) s = s.
Proof. by destruct s. Qed.

(** A deletion of an id the cache does not hold changes nothing. *)
Lemma delete_unknown repo (fe : FileEvent) s tid :
  event_type fe = DELETED ->
  StepService._extract_task_id_from_path (file_path fe) = Some tid ->
  StepService._steps_cache s !! tid = None ->
  StepService._handle_file_event repo fe s
  = (Ok ((fun cb => StepService.mkInvocation cb (event_value DELETED) None)
           <$> StepService._callback s), s).
Proof.
  intros Hd Hx Hc. unfold StepService._handle_file_event.
  rewrite Hx, Hd, bool_decide_eq_true_2, Hc by done.
  rewrite delete_id, set_cache_same by done.
  by destruct (StepService._callback s).
Qed.

(** A creation or modification whose re-read finds no step changes
    nothing either. *)
Lemma refresh_none repo (fe : FileEvent) s tid :
  event_type fe <> DELETED ->
  StepService._extract_task_id_from_path (file_path fe) = Some tid ->
  refresh repo tid = Ok None ->
  StepService._handle_file_event repo fe s
  = (Ok ((fun cb => StepService.mkInvocation cb (event_value (event_type fe)) None)
           <$> StepService._callback s), s).
Proof.
  intros Hd Hx Hr. unfold StepService._handle_file_event.
  rewrite Hx, bool_decide_eq_false_2, Hr by done.
  by destruct (StepService._callback s).
Qed.

(** A creation or modification whose re-read finds a step stores it
    under the id of the path. *)
Lemma refresh_some repo (fe : FileEvent) s tid st :
  event_type fe <> DELETED ->
  StepService._extract_task_id_from_path (file_path fe) = Some tid ->
  refresh repo tid = Ok (Some st) ->
  StepService._handle_file_event repo fe s
  = (Ok ((fun cb => StepService.mkInvocation cb (event_value (event_type fe)) (Some st))
           <$> StepService._callback s),
     StepService.set_cache (<[tid := st]> (StepService._steps_cache s)) s).
Proof.
  intros Hd Hx Hr. unfold StepService._handle_file_event.
  rewrite Hx, bool_decide_eq_false_2, Hr by done.
  cbn [StepService.set_cache StepService._callback].
  by destruct (StepService._callback s).
Qed.

End ServiceFacts.

(** ** C8: starting twice, stopping when stopped *)

(** C8: [start_watching] on a service that is watching raises
    [RuntimeError], which is none of the data errors, and leaves the
    service as it was; [stop_watching] on a service that is not watching
    returns normally and leaves the service as it was. *)
Theorem C8_start_twice_stop_stopped {R W CB : Type}
    `{!StepRepository R} `{!FileWatcher W}
    (repo : R) (callback : CB) (watching stopped : StepService.t W CB) :
  StepService._watching watching = true ->
  StepService._watching stopped = false ->
  StepService.start_watching repo callback watching = (Raise RuntimeError, watching)
  /\ data_error RuntimeError = false
  /\ StepService.stop_watching stopped = (Ok tt, stopped).
Proof.
  intros Hw Hs. unfold StepService.start_watching, StepService.stop_watching.
  by rewrite Hw, Hs.
Qed.

(** ** C6 and C9: events that yield no transition *)

Lemma handle_step_update_none `{!JsonCodec} (down : network) (ty : string)
    (m : ConnectionManager.t) :
  Main.handle_step_update down ty None m = (m, []).
Proof. reflexivity. Qed.

Lemma on_file_change_none `{!JsonCodec} (down : network) (ty : string) (g : Main.t) :
  Main.on_file_change_ down ty None g = (g, []).
Proof.
  unfold Main.on_file_change_. destruct g as [m svc [[]|]]; reflexivity.
Qed.

(** C6: a delete event whose path resolves to an id the cache does not
    hold sends nothing to any client, leaves the cache and the whole
    server state as they were, and raises nothing. *)
Theorem C6_delete_of_unknown_id `{!JsonCodec} (down : network)
    (repo : JsonFileRepository.t) (fe : FileEvent) (g : Main.t)
    (svc : Main.service) (tid : string) :
  Main.step_service g = Some svc ->
  event_type fe = DELETED ->
  StepService._extract_task_id_from_path (file_path fe) = Some tid ->
  StepService._steps_cache svc !! tid = None ->
  Main.file_changed down repo fe g = (Ok tt, g, []).
Proof.
  intros Hs Hd Hx Hc. unfold Main.file_changed.
  rewrite Hs, (delete_unknown repo fe svc tid Hd Hx Hc).
  replace (Main.mk _ (Some svc) _) with g by (destruct g; cbn in *; by subst).
  destruct (StepService._callback svc) as [[]|]; cbn [fmap option_fmap option_map];
    [|done].
  by rewrite on_file_change_none.
Qed.

(** C9: when an event yields no step (a delete of an id the cache does
    not hold, or a create or modify whose re-read returns none), the
    service still calls the registered callback, with the event type and
    [None], and changes nothing; it is [handle_step_update] that returns
    without a broadcast whenever the step is [None]. *)
Theorem C9_callback_called_with_none {R W CB : Type}
    `{!StepRepository R} `{!FileWatcher W} `{!JsonCodec}
    (repo : R) (fe : FileEvent) (s : StepService.t W CB) (cb : CB) (tid : string) :
  StepService._callback s = Some cb ->
  StepService._extract_task_id_from_path (file_path fe) = Some tid ->
  (event_type fe = DELETED /\ StepService._steps_cache s !! tid = None)
  \/ (event_type fe <> DELETED /\ refresh repo tid = Ok None) ->
  StepService._handle_file_event repo fe s
  = (Ok (Some (StepService.mkInvocation cb (event_value (event_type fe)) None)), s)
  /\ forall down ty m, Main.handle_step_update down ty None m = (m, []).
Proof.
  intros Hcb Hx Hno. split; [|intros; apply handle_step_update_none].
  destruct Hno as [[Hd Hc]|[Hd Hr]].
  - rewrite (delete_unknown repo fe s tid Hd Hx Hc), Hcb, Hd. reflexivity.
  - rewrite (refresh_none repo fe s tid Hd Hx Hr), Hcb. reflexivity.
Qed.

(** ** C7: the same create or modify event, twice *)

(** C7: a create or modify event whose re-read returns the same step both
    times leaves, after the first application, the step stored under its
    id; the second application leaves that state as it is and
    calls the callback with the same arguments. *)
Theorem C7_same_event_twice {R W CB : Type}
    `{!StepRepository R} `{!FileWatcher W}
    (repo : R) (fe : FileEvent) (s : StepService.t W CB) (tid : string) (st : Step) :
  event_type fe <> DELETED ->
  StepService._extract_task_id_from_path (file_path fe) = Some tid ->
  refresh repo tid = Ok (Some st) ->
  let first := StepService._handle_file_event repo fe s in
  let second := StepService._handle_file_event repo fe first.2 in
  StepService._steps_cache first.2 !! tid = Some st
  /\ second = first.
Proof.
  intros Hd Hx Hr first second. subst second first.
  rewrite !(refresh_some repo fe _ tid st Hd Hx Hr).
  cbn [snd StepService.set_cache StepService._steps_cache StepService._callback].
  split; [apply lookup_insert_eq|].
  by rewrite insert_insert_eq.
Qed.

(** ** C10: the cache is keyed by task id *)

Lemma first_with_id_task_id (tid : string) (steps : list Step) (st : Step) :
  JsonFileRepository.first_with_id tid steps = Some st -> task_id st = tid.
Proof.
  induction steps as [|s steps IH]; cbn; [done|].
  destruct (String.eqb_spec (task_id s) tid) as [E|_]; [|done].
  by intros [= <-].
Qed.

(** [refresh] returns only a step whose task id is the one asked for. *)
Lemma refresh_task_id (repo : JsonFileRepository.t) (tid : string) (st : Step) :
  refresh repo tid = Ok (Some st) -> task_id st = tid.
Proof.
  cbn. unfold JsonFileRepository.refresh, JsonFileRepository.get_by_id.
  destruct (JsonFileRepository.get_all repo) as [steps|]; cbn; [|done].
  intros [= E]. by eapply first_with_id_task_id.
Qed.

Lemma keyed_empty : keyed ∅.
Proof. intros key st. by rewrite lookup_empty. Qed.

Lemma keyed_insert (cache : gmap string Step) (st : Step) :
  keyed cache -> keyed (<[task_id st := st]> cache).
Proof.
  intros K key st'. rewrite lookup_insert_Some.
  intros [[<- <-]|[_ E]]; [done | by apply K].
Qed.

Lemma keyed_delete (cache : gmap string Step) (key : string) :
  keyed cache -> keyed (delete key cache).
Proof.
  intros K key' st. rewrite lookup_delete_Some. intros [_ E]. by apply K.
Qed.

(** The full load keys every step by its own task id. *)
Lemma keyed_by_task_id (steps : list Step) :
  keyed (StepService.by_task_id steps).
Proof.
  unfold StepService.by_task_id.
  assert (forall acc, keyed acc ->
            keyed (foldl (fun m st => <[task_id st := st]> m) acc steps)) as G.
  { induction steps as [|s steps IH]; intros acc K; cbn; [done|].
    apply IH. by apply keyed_insert. }
  apply G, keyed_empty.
Qed.

Section Keyed.
Context {W CB : Type} `{!FileWatcher W}.
Implicit Types (s : StepService.t W CB) (repo : JsonFileRepository.t).

Lemma keyed_load repo s :
  keyed (StepService._steps_cache s) ->
  keyed (StepService._steps_cache (StepService._load_steps_into_cache repo s).2).
Proof.
  intros K. unfold StepService._load_steps_into_cache. cbn.
  destruct (JsonFileRepository.get_all repo); cbn; [|done].
  apply keyed_by_task_id.
Qed.

Lemma keyed_after (c : call CB) s :
  keyed (StepService._steps_cache s) ->
  keyed (StepService._steps_cache (after c s)).
Proof.
  intros K. destruct c as [repo|repo cb| |repo fe]; cbn [after].
  - unfold StepService.get_all_steps.
    destruct (StepService.cache_empty s); [|done].
    pose proof (keyed_load repo s K) as L.
    by destruct (StepService._load_steps_into_cache repo s) as [[] s1].
  - unfold StepService.start_watching.
    destruct (StepService._watching s); [done|].
    assert (keyed (StepService._steps_cache
                     (if StepService.cache_empty s
                      then StepService._load_steps_into_cache repo s
                      else (Ok tt, s)).2)) as L.
    { destruct (StepService.cache_empty s); [by apply keyed_load | done]. }
    destruct (if StepService.cache_empty s then _ else _) as [[] s1]; [|done].
    cbn in L |- *. by destruct (start (StepService._file_watcher s1)).
  - unfold StepService.stop_watching.
    destruct (StepService._watching s); cbn; [|done].
    by destruct (stop (StepService._file_watcher s)).
  - unfold StepService._handle_file_event.
    destruct (StepService._extract_task_id_from_path (file_path fe)) as [tid|];
      [|done].
    case_bool_decide.
    + cbn. destruct (StepService._callback s); cbn; by apply keyed_delete.
    + destruct (refresh repo tid) as [[st|]|] eqn:E; [| |done].
      * apply refresh_task_id in E as <-.
        cbn. destruct (StepService._callback s); cbn; by apply keyed_insert.
      * by destruct (StepService._callback s).
Qed.

End Keyed.

(** C10: after any sequence of calls on a fresh service, every key of the
    cache is the task id of the step it maps to. The full load keys each
    step by its own task id, [refresh] returns only a step with the task
    id asked for, and a deletion only removes an entry. *)
Theorem C10_cache_keyed_by_task_id {W CB : Type} `{!FileWatcher W}
    (file_watcher : W) (calls : list (call CB)) :
  keyed (StepService._steps_cache
           (foldl (fun s c => after c s) (StepService.init file_watcher) calls))
  /\ (forall repo tid st, refresh repo tid = Ok (Some st) -> task_id st = tid)
  /\ (forall steps, keyed (StepService.by_task_id steps)).
Proof.
  split; [|split].
  - assert (forall s : StepService.t W CB, keyed (StepService._steps_cache s) ->
              keyed (StepService._steps_cache (foldl (fun s c => after c s) s calls)))
      as G.
    { induction calls as [|c calls IH]; intros s K; cbn; [done|].
      apply IH. by apply keyed_after. }
    apply G. cbn. apply keyed_empty.
  - apply refresh_task_id.
  - apply keyed_by_task_id.
Qed.

(** ** C5: one broadcast pass *)

Section Broadcast.
Context `{!JsonCodec} (down : network).

Lemma send_text_attempt (c : WebSocket) (text : string) :
  (ConnectionManager.send_text down c text).2 = [attempt down text c]
  /\ (up down c -> (ConnectionManager.send_text down c text).1 = Ok tt)
  /\ (~ up down c -> raises (ConnectionManager.send_text down c text).1 = true).
Proof.
  unfold ConnectionManager.send_text, attempt, up.
  destruct (down c) eqn:E; cbn; rewrite ?bool_decide_eq_true_2,
    ?bool_decide_eq_false_2 by done; done.
Qed.

Lemma send_or_mark_step (text : string) (m : ConnectionManager.t)
    (marked : list WebSocket) (out : list event) (c : WebSocket) :
  ConnectionManager.send_or_mark down text (m, marked, out) c
  = (m, marked ++ (if decide (~ up down c) then [c] else []), out ++ [attempt down text c]).
Proof.
  unfold ConnectionManager.send_or_mark, ConnectionManager.send_text, attempt, up.
  destruct (down c) eqn:E.
  - rewrite decide_True by done. by rewrite bool_decide_eq_false_2.
  - rewrite decide_False by (intros X; by apply X).
    by rewrite bool_decide_eq_true_2, app_nil_r.
Qed.

(** The first loop: every connection is tried, in order; the failing
    ones are marked; the manager is not touched. *)
Lemma send_loop (text : string) (conns : list WebSocket)
    (m : ConnectionManager.t) (marked : list WebSocket) (out : list event) :
  foldl (ConnectionManager.send_or_mark down text) (m, marked, out) conns
  = (m, marked ++ filter (fun c => ~ up down c) conns, out ++ map (attempt down text) conns).
Proof.
  revert marked out. induction conns as [|c conns IH]; intros marked out.
  - cbn. by rewrite !app_nil_r.
  - cbn [foldl map]. rewrite send_or_mark_step, IH, filter_cons.
    rewrite <- !app_assoc. by destruct (decide (~ up down c)).
Qed.

End Broadcast.

Lemma remove_marked_list (m : ConnectionManager.t) (marked : list WebSocket) :
  foldl ConnectionManager.remove_marked m marked
  = ConnectionManager.mk
      (foldl drop_marked (ConnectionManager._active_connections m) marked).
Proof.
  revert m. induction marked as [|c marked IH]; intros [l]; cbn; [done|].
  rewrite IH. unfold ConnectionManager.remove_marked, drop_marked. cbn.
  by case_bool_decide.
Qed.

Lemma drop_marked_other (l : list WebSocket) (x c : WebSocket) :
  c <> x -> drop_marked (x :: l) c = x :: drop_marked l c.
Proof.
  intros Hne. unfold drop_marked. cbn.
  rewrite (bool_decide_eq_false_2 (x = c)) by done.
  assert (c ∈ x :: l <-> c ∈ l) as E by (rewrite elem_of_cons; tauto).
  repeat case_bool_decide; tauto.
Qed.

Lemma drop_marked_others (marked l : list WebSocket) (x : WebSocket) :
  x ∉ marked ->
  foldl drop_marked (x :: l) marked = x :: foldl drop_marked l marked.
Proof.
  revert l. induction marked as [|c marked IH]; intros l Hx; cbn; [done|].
  rewrite drop_marked_other by set_solver. apply IH. set_solver.
Qed.

(** Removing the marked clients, one occurrence for each mark, leaves the
    clients that were not marked, in their order. *)
Lemma drop_all_marked (P : WebSocket -> Prop) `{!forall c, Decision (P c)}
    (l : list WebSocket) :
  foldl drop_marked l (filter P l) = filter (fun c => ~ P c) l.
Proof.
  induction l as [|x l IH]; [done|].
  rewrite !filter_cons. destruct (decide (P x)) as [Hp|Hp].
  - rewrite decide_False by tauto. cbn.
    unfold drop_marked at 2. cbn.
    rewrite bool_decide_eq_true_2 by set_solver.
    rewrite bool_decide_eq_true_2 by done. exact IH.
  - rewrite decide_True by done.
    rewrite drop_marked_others, IH; [done|].
    rewrite list_elem_of_filter. tauto.
Qed.

Lemma filter_not_not_up (down : network) (l : list WebSocket) :
  filter (fun c => ~ ~ up down c) l = filter (up down) l.
Proof.
  apply list_filter_iff. intros c. unfold up.
  destruct (down c); split; intros X; try done.
  - by destruct X.
  - intros Y. by apply Y.
Qed.

(** The closed form of a broadcast. *)
Lemma broadcast_pass `{!JsonCodec} (down : network) (message : pyval)
    (m : ConnectionManager.t) :
  ConnectionManager.broadcast down message m
  = (ConnectionManager.mk (filter (up down) (ConnectionManager._active_connections m)),
     Dumps message
       :: map (attempt down (json_dumps message))
              (ConnectionManager._active_connections m)).
Proof.
  unfold ConnectionManager.broadcast. rewrite send_loop. cbn [app].
  rewrite remove_marked_list.
  by rewrite (drop_all_marked (fun c => ~ up down c)), filter_not_not_up.
Qed.

Lemma sends_to_app (ws : WebSocket) (a b : list event) :
  sends_to ws (a ++ b) = sends_to ws a ++ sends_to ws b.
Proof. apply omap_app. Qed.

Lemma dumped_app (a b : list event) : dumped (a ++ b) = dumped a ++ dumped b.
Proof. apply omap_app. Qed.

Lemma dumped_attempts (down : network) (text : string) (l : list WebSocket) :
  dumped (map (attempt down text) l) = [].
Proof. induction l as [|c l IH]; [done | exact IH]. Qed.

Lemma sends_to_attempts (down : network) (text : string) (ws : WebSocket)
    (l : list WebSocket) :
  sends_to ws (map (attempt down text) l)
  = replicate (length (filter (fun c => c = ws) l)) text.
Proof.
  induction l as [|c l IH]; [done|].
  rewrite filter_cons. unfold sends_to in *.
  cbn [map omap list_omap attempt]. rewrite IH.
  case_bool_decide.
  - by rewrite decide_True.
  - by rewrite decide_False.
Qed.

(** C5: a broadcast serializes the message once; it hands the same text
    to [send_text] of every registered connection, in order, whether or
    not an earlier send failed; the loop that sends leaves the manager
    untouched; and after it the connections that are left are those whose
    send succeeded. *)
Theorem C5_broadcast_pass `{!JsonCodec} (down : network) (message : pyval)
    (m : ConnectionManager.t) :
  let text := json_dumps message in
  let conns := ConnectionManager._active_connections m in
  let sending :=
    foldl (ConnectionManager.send_or_mark down text) (m, [], [Dumps message]) conns in
  let result := ConnectionManager.broadcast down message m in
  dumped result.2 = [message]
  /\ result.2 = Dumps message :: map (attempt down text) conns
  /\ sending.1.1 = m
  /\ sending.1.2 = filter (fun c => ~ up down c) conns
  /\ ConnectionManager._active_connections result.1 = filter (up down) conns.
Proof.
  intros text conns sending result. subst sending result text conns.
  rewrite broadcast_pass, send_loop. cbn [fst snd app].
  split; [|done].
  pose proof (dumped_app [Dumps message]
                (map (attempt down (json_dumps message))
                     (ConnectionManager._active_connections m))) as E.
  cbn [app] in E. rewrite E, dumped_attempts. done.
Qed.

(** ** C4: debouncing *)

(** *** The dict of pending timers *)

Section DictFacts.
Context {V : Type}.
Implicit Types (d : list (string * V)) (k : string).

Lemma has_get k d : Dict.has k d = bool_decide (is_Some (Dict.get k d)).
Proof.
  induction d as [|e r IH]; cbn; [done|].
  destruct (String.eqb e.1 k); cbn; [done | exact IH].
Qed.

(** A filter on the keys. *)
Lemma get_filter_keys (Q : string -> Prop) `{!forall x, Decision (Q x)} k d :
  Dict.get k (filter (fun e => Q e.1) d) = if decide (Q k) then Dict.get k d else None.
Proof.
  induction d as [|e r IH].
  - cbn. by destruct (decide (Q k)).
  - rewrite filter_cons. cbn [Dict.get].
    destruct (String.eqb_spec e.1 k) as [E|E].
    + destruct (decide (Q e.1)) as [q|q]; cbn [Dict.get].
      * rewrite (proj2 (String.eqb_eq _ _) E). rewrite E in q. by rewrite decide_True.
      * rewrite IH. rewrite E in q. by destruct (decide (Q k)).
    + destruct (decide (Q e.1)); cbn [Dict.get]; [|exact IH].
      by rewrite (proj2 (String.eqb_neq _ _) E).
Qed.

Lemma get_del k k' d :
  Dict.get k' (Dict.del k d) = if decide (k' = k) then None else Dict.get k' d.
Proof.
  pose proof (get_filter_keys (fun x => x <> k) k' d) as G.
  unfold Dict.del. cbn in G. rewrite G.
  destruct (decide (k' = k)); [by rewrite decide_False; [|tauto] | by rewrite decide_True].
Qed.

Lemma get_set k k' (v : V) d :
  Dict.get k' (Dict.set k v d) = if decide (k' = k) then Some v else Dict.get k' d.
Proof.
  induction d as [|e r IH]; cbn.
  - destruct (String.eqb_spec k k'), (decide (k' = k)); congruence.
  - destruct (String.eqb_spec e.1 k) as [E|E]; cbn.
    + destruct (String.eqb_spec k k'), (decide (k' = k)); try congruence.
      destruct (String.eqb_spec e.1 k'); congruence.
    + destruct (String.eqb_spec e.1 k'); [|exact IH].
      by rewrite decide_False by congruence.
Qed.

Lemma keys_del k d : (Dict.del k d).*1 = filter (fun x => x <> k) d.*1.
Proof.
  unfold Dict.del. induction d as [|e r IH]; [done|].
  cbn [fmap list_fmap]. rewrite !filter_cons. destruct (decide _); cbn; by rewrite IH.
Qed.

Lemma set_absent k (v : V) d : k ∉ d.*1 -> Dict.set k v d = d ++ [(k, v)].
Proof.
  induction d as [|e r IH]; cbn; [done|].
  rewrite not_elem_of_cons. intros [E1 E2].
  rewrite (proj2 (String.eqb_neq _ _)) by congruence. by rewrite IH.
Qed.

End DictFacts.

(** *** The handler *)

Lemma del_absent {V : Type} (k : string) (d : list (string * V)) :
  Dict.has k d = false -> Dict.del k d = d.
Proof.
  unfold Dict.del, Dict.has. induction d as [|e r IH]; [done|].
  cbn [existsb]. rewrite filter_cons. intros [E1 E2]%orb_false_elim.
  apply String.eqb_neq in E1. rewrite decide_True by done. by rewrite IH.
Qed.

Lemma not_in_keys_del {V : Type} (k : string) (d : list (string * V)) :
  k ∉ (Dict.del k d).*1.
Proof. rewrite keys_del, list_elem_of_filter. tauto. Qed.

Lemma keys_filter_NoDup {V : Type} (P : string * V -> Prop)
    `{!forall e, Decision (P e)} (d : list (string * V)) :
  NoDup d.*1 -> NoDup (filter P d).*1.
Proof.
  induction d as [|e r IH]; [done|].
  cbn [fmap list_fmap]. rewrite NoDup_cons. intros [E N].
  rewrite filter_cons. destruct (decide (P e)); [|by apply IH].
  cbn [fmap list_fmap]. apply NoDup_cons. split; [|by apply IH].
  intros X. apply E. apply list_elem_of_fmap in X as (e' & -> & X).
  apply list_elem_of_filter in X as [_ X].
  apply list_elem_of_fmap. by exists e'.
Qed.

Lemma Forall_filter_keep {A : Type} (P Q : A -> Prop)
    `{!forall x, Decision (Q x)} (l : list A) :
  Forall P l -> Forall P (filter Q l).
Proof.
  intros F. apply Forall_forall. intros x [_ X]%list_elem_of_filter.
  by eapply Forall_forall in F.
Qed.

Lemma get_absent {V : Type} (k : string) (d : list (string * V)) :
  k ∉ d.*1 -> Dict.get k d = None.
Proof.
  induction d as [|e r IH]; [done|].
  cbn. rewrite not_elem_of_cons. intros [E1 E2].
  rewrite (proj2 (String.eqb_neq _ _)) by congruence. by apply IH.
Qed.

Lemma get_None_absent {V : Type} (k : string) (d : list (string * V)) :
  Dict.get k d = None -> k ∉ d.*1.
Proof.
  induction d as [|e r IH]; [intros _; apply not_elem_of_nil|].
  cbn. destruct (String.eqb_spec e.1 k) as [E|E]; [done|].
  intros H. apply not_elem_of_cons. split; [congruence|by apply IH].
Qed.

(** Where no key occurs twice, an entry is what [get] finds. *)
Lemma get_of_entry {V : Type} (k : string) (v : V) (d : list (string * V)) :
  NoDup d.*1 -> (k, v) ∈ d -> Dict.get k d = Some v.
Proof.
  induction d as [|e r IH]; [by intros _ ?%elem_of_nil|].
  cbn [fmap list_fmap Dict.get]. rewrite NoDup_cons. intros [E N] Hin.
  apply elem_of_cons in Hin as [<-|Hin]; cbn.
  - by rewrite String.eqb_refl.
  - destruct (String.eqb_spec e.1 k) as [<-|_]; [|by apply IH].
    exfalso. apply E. apply list_elem_of_fmap. by exists (e.1, v).
Qed.

Lemma entry_of_get {V : Type} (k : string) (v : V) (d : list (string * V)) :
  Dict.get k d = Some v -> (k, v) ∈ d.
Proof.
  induction d as [|[k0 v0] r IH]; [done|]. cbn.
  destruct (String.eqb_spec k0 k) as [->|_].
  - intros [= ->]. apply list_elem_of_here.
  - intros H. by apply list_elem_of_further, IH.
Qed.

Lemma filter_swap {A : Type} (P Q : A -> Prop)
    `{!forall x, Decision (P x)} `{!forall x, Decision (Q x)} (l : list A) :
  filter P (filter Q l) = filter Q (filter P l).
Proof.
  induction l as [|x l IH]; [done|].
  rewrite !filter_cons.
  destruct (decide (Q x)), (decide (P x)); rewrite ?filter_cons;
    rewrite ?decide_True, ?decide_False by done; by rewrite IH.
Qed.

Lemma fire_callback_del (path : string) (ty : FileEventType) (h : Debounce.t) :
  Debounce.fire_callback path ty h
  = Debounce.mk (Debounce._debounce_delay h) (Debounce.threads h)
      (Dict.del path (Debounce._pending_timers h))
      (Debounce.delivered h ++ [mkFileEvent ty path]).
Proof.
  unfold Debounce.fire_callback.
  destruct (Dict.has path _) eqn:E; [done|]. by rewrite del_absent.
Qed.

(** *** The flags of the threads *)

Lemma finish_other (i j : nat) (ths : list (Debounce.Timer * bool)) :
  i <> j -> Debounce.finish i ths !! j = ths !! j.
Proof. intros H. unfold Debounce.finish. by rewrite list_lookup_alter_ne. Qed.

Lemma finish_self (i : nat) (ths : list (Debounce.Timer * bool)) :
  Debounce.finish i ths !! i = (fun th => (th.1, true)) <$> ths !! i.
Proof. unfold Debounce.finish. by rewrite list_lookup_alter_eq. Qed.

Lemma finish_waiting (i j : nat) (tm : Debounce.Timer)
    (ths : list (Debounce.Timer * bool)) :
  Debounce.finish i ths !! j = Some (tm, false)
  <-> ths !! j = Some (tm, false) /\ j <> i.
Proof.
  destruct (decide (i = j)) as [->|H].
  - rewrite finish_self. split; [|by intros [_ ?]].
    by destruct (ths !! j) as [[]|].
  - rewrite finish_other by done. split; [by intros ?|by intros [? _]].
Qed.

Lemma finish_timers (i : nat) (ths : list (Debounce.Timer * bool)) :
  (Debounce.finish i ths).*1 = ths.*1.
Proof.
  apply list_eq. intros j. rewrite !list_lookup_fmap.
  destruct (decide (i = j)) as [->|H].
  - rewrite finish_self. by destruct (ths !! j).
  - by rewrite finish_other.
Qed.

(** *** A timer leaves: it fires, or it is cancelled *)

(** In either case the timer is finished and its path has no entry
    left; the other paths keep their timers. *)
Lemma retire (h : Debounce.t) (i : nat) (tm : Debounce.Timer)
    (log : list FileEvent) :
  well_formed h ->
  Debounce.threads h !! i = Some (tm, false) ->
  let h' := Debounce.mk (Debounce._debounce_delay h)
              (Debounce.finish i (Debounce.threads h))
              (Dict.del (Debounce.fn_path tm) (Debounce._pending_timers h)) log in
  well_formed h'
  /\ forall q, pending_timer q h'
               = if decide (q = Debounce.fn_path tm) then None else pending_timer q h.
Proof.
  intros (N & W2 & W3) Hi h'.
  assert (forall q j, q <> Debounce.fn_path tm ->
            Dict.get q (Debounce._pending_timers h) = Some j -> j <> i) as Hne.
  { intros q j Hq Hj ->. destruct (W2 _ _ Hj) as (tm' & Hi' & Hp).
    rewrite Hi in Hi'. by injection Hi' as <-. }
  split; [split; [|split]|]; subst h'; cbn [Debounce._pending_timers Debounce.threads].
  - by apply keys_filter_NoDup.
  - intros q j. rewrite get_del. destruct (decide (q = _)) as [->|Hq]; [done|].
    intros Hj. destruct (W2 _ _ Hj) as (tm' & Hj' & Hp). exists tm'.
    split; [|done]. apply finish_waiting. split; [done|]. by eapply Hne.
  - intros j tm' [Hj Hji]%finish_waiting. rewrite get_del.
    pose proof (W3 _ _ Hj) as Gj. pose proof (W3 _ _ Hi) as Gi.
    destruct (decide (Debounce.fn_path tm' = _)) as [E|_]; [|done].
    rewrite E, Gi in Gj. by injection Gj as ->.
  - intros q. unfold pending_timer.
    cbn [Debounce._pending_timers Debounce.threads]. rewrite get_del.
    destruct (decide (q = _)) as [->|Hq]; [done|].
    destruct (Dict.get q (Debounce._pending_timers h)) as [j|] eqn:Hj; [|done].
    cbn. rewrite finish_other; [done|]. intros ->. by eapply Hne.
Qed.

Lemma run_timer_closed (i : nat) (tm : Debounce.Timer) (h : Debounce.t) :
  Debounce.threads h !! i = Some (tm, false) ->
  Debounce.run_timer i h
  = Debounce.mk (Debounce._debounce_delay h)
      (Debounce.finish i (Debounce.threads h))
      (Dict.del (Debounce.fn_path tm) (Debounce._pending_timers h))
      (Debounce.delivered h ++ [event_of tm]).
Proof. intros Hi. unfold Debounce.run_timer. by rewrite Hi, fire_callback_del. Qed.

Lemma delivered_for_snoc (q : string) (log : list FileEvent) (tm : Debounce.Timer) :
  filter (fun e => file_path e = q) (log ++ [event_of tm])
  = filter (fun e => file_path e = q) log
    ++ (if decide (q = Debounce.fn_path tm) then [event_of tm] else []).
Proof.
  rewrite filter_app, filter_cons, filter_nil. cbn [event_of file_path].
  destruct (decide (Debounce.fn_path tm = q)) as [<-|H].
  - by rewrite decide_True.
  - by rewrite decide_False by congruence.
Qed.

Lemma view_of_run_timer (q : string) (i : nat) (tm : Debounce.Timer)
    (h : Debounce.t) :
  well_formed h ->
  Debounce.threads h !! i = Some (tm, false) ->
  well_formed (Debounce.run_timer i h)
  /\ view q (Debounce.run_timer i h)
     = if decide (q = Debounce.fn_path tm) then view_fire (view q h) else view q h.
Proof.
  intros WF Hi. rewrite (run_timer_closed i tm h Hi).
  destruct (retire h i tm (Debounce.delivered h ++ [event_of tm]) WF Hi) as [WF' P].
  split; [exact WF'|]. unfold view. rewrite P.
  unfold Debounce.delivered_for. cbn [Debounce.delivered].
  rewrite delivered_for_snoc.
  destruct (decide (q = _)) as [->|Hq]; [|by rewrite app_nil_r].
  unfold view_fire. cbn [fst snd].
  destruct WF as (_ & _ & W3). unfold pending_timer at 1.
  rewrite (W3 _ _ Hi). cbn. by rewrite Hi.
Qed.

(** *** The clock advances *)

Lemma run_timers (q : string) (timers : list nat) :
  forall h : Debounce.t,
    well_formed h ->
    NoDup timers ->
    (forall i, i ∈ timers -> exists tm, Debounce.threads h !! i = Some (tm, false)) ->
    let h' := foldl (fun h i => Debounce.run_timer i h) h timers in
    well_formed h'
    /\ (forall j tm, Debounce.threads h' !! j = Some (tm, false)
                     <-> Debounce.threads h !! j = Some (tm, false) /\ j ∉ timers)
    /\ view q h' = if hit q timers h then view_fire (view q h) else view q h.
Proof.
  induction timers as [|i timers IH]; intros h WF ND Hall; cbn zeta.
  - cbn [foldl]. split; [done|]. split.
    + intros j tm. split; [intros ?; split; [done|apply not_elem_of_nil]|by intros [? _]].
    + unfold hit. destruct (Dict.get q _); [|done].
      by rewrite bool_decide_eq_false_2 by apply not_elem_of_nil.
  - cbn [foldl]. apply NoDup_cons in ND as [Hi ND].
    destruct (Hall i) as [tm Hth]; [apply list_elem_of_here|].
    destruct (view_of_run_timer q i tm h WF Hth) as [WF1 V1].
    pose proof (run_timer_closed i tm h Hth) as C.
    assert (forall j tm', Debounce.threads (Debounce.run_timer i h) !! j = Some (tm', false)
                          <-> Debounce.threads h !! j = Some (tm', false) /\ j <> i) as T1.
    { intros j tm'. rewrite C. cbn [Debounce.threads]. apply finish_waiting. }
    destruct (IH (Debounce.run_timer i h) WF1 ND) as (WF' & T' & V').
    { intros j Hj. destruct (Hall j) as [tm' Hj']; [by apply list_elem_of_further|].
      exists tm'. apply T1. split; [done|]. by intros ->. }
    cbn zeta in *. split; [exact WF'|]. split.
    + intros j tm'. rewrite T', T1, not_elem_of_cons. tauto.
    + rewrite V', V1. clear V' V1 T' WF'.
      destruct WF as (N & W2 & W3).
      unfold hit. rewrite C. cbn [Debounce._pending_timers]. rewrite get_del.
      destruct (decide (q = Debounce.fn_path tm)) as [->|Hq].
      * rewrite (W3 _ _ Hth).
        by rewrite bool_decide_eq_true_2 by apply list_elem_of_here.
      * destruct (Dict.get q (Debounce._pending_timers h)) as [j|] eqn:Hj; [|done].
        assert (j <> i) as Hji.
        { intros ->. destruct (W2 _ _ Hj) as (tm' & Hi' & Hp).
          rewrite Hth in Hi'. by injection Hi' as <-. }
        destruct (bool_decide_reflect (j ∈ timers)) as [Hin|Hin].
        -- by rewrite bool_decide_eq_true_2 by by apply list_elem_of_further.
        -- rewrite bool_decide_eq_false_2; [done|].
           by intros [?|?]%elem_of_cons.
Qed.

Lemma due_spec (now : nat) (h : Debounce.t) (i : nat) :
  i ∈ Debounce.due now h
  <-> exists tm, Debounce.threads h !! i = Some (tm, false)
                 /\ (Debounce.deadline tm <= now)%nat.
Proof.
  unfold Debounce.due. rewrite list_elem_of_filter, elem_of_seq. split.
  - intros [H _]. destruct (Debounce.threads h !! i) as [[tm []]|]; try done.
    cbn in H. unfold Debounce.waiting_until in H. cbn in H.
    exists tm. split; [done|]. by apply Nat.leb_le.
  - intros (tm & Hi & Hd). rewrite Hi. cbn. unfold Debounce.waiting_until. cbn.
    split; [by apply Nat.leb_le|]. apply lookup_lt_Some in Hi. lia.
Qed.

Lemma due_NoDup (now : nat) (h : Debounce.t) : NoDup (Debounce.due now h).
Proof. apply NoDup_filter, NoDup_seq. Qed.

(** The clock advances, for a handler in order: the timers that are due
    fire, each for its own path. *)
Lemma elapse_spec (q : string) (now : nat) (h : Debounce.t) :
  well_formed h ->
  well_formed (Debounce.elapse now h)
  /\ (forall j tm, Debounce.threads (Debounce.elapse now h) !! j = Some (tm, false)
                   <-> Debounce.threads h !! j = Some (tm, false)
                       /\ (now < Debounce.deadline tm)%nat)
  /\ view q (Debounce.elapse now h) = view_elapse now (view q h).
Proof.
  intros WF.
  destruct (run_timers q (Debounce.due now h) h WF (due_NoDup now h)) as (WF' & T & V).
  { intros i (tm & Hi & _)%due_spec. by exists tm. }
  cbn zeta in *. fold (Debounce.elapse now h) in WF', T, V.
  split; [exact WF'|]. split.
  - intros j tm. rewrite T. split.
    + intros [Hj Hn]. split; [done|].
      destruct (decide (Debounce.deadline tm <= now)%nat) as [Hd|Hd]; [|lia].
      exfalso. apply Hn, due_spec. by exists tm.
    + intros [Hj Hd]. split; [done|]. intros (tm' & Hj' & Hd')%due_spec.
      rewrite Hj in Hj'. injection Hj' as <-. lia.
  - rewrite V. destruct WF as (N & W2 & W3).
    unfold hit, view_elapse, view_fire, view, pending_timer. cbn [fst snd].
    destruct (Dict.get q (Debounce._pending_timers h)) as [j|] eqn:Hj; [|done].
    destruct (W2 _ _ Hj) as (tm & Hth & Hp). cbn. rewrite Hth. cbn.
    destruct (decide (Debounce.deadline tm <= now)%nat) as [Hd|Hd].
    + rewrite bool_decide_eq_true_2; [done|]. apply due_spec. by exists tm.
    + rewrite bool_decide_eq_false_2; [done|].
      intros (tm' & Hj' & Hd')%due_spec. rewrite Hth in Hj'. by injection Hj' as <-.
Qed.

Lemma well_formed_init (delay : nat) : well_formed (Debounce.init delay).
Proof. split; [apply NoDup_nil_2|]. by split. Qed.

Lemma well_formed_elapse (now : nat) (h : Debounce.t) :
  well_formed h -> well_formed (Debounce.elapse now h).
Proof. intros WF. by destruct (elapse_spec "" now h WF). Qed.

Lemma view_of_elapse (path : string) (now : nat) (h : Debounce.t) :
  well_formed h ->
  view path (Debounce.elapse now h) = view_elapse now (view path h).
Proof. intros WF. by destruct (elapse_spec path now h WF) as (_ & _ & ?). Qed.

Lemma delay_run_timer (i : nat) (h : Debounce.t) :
  Debounce._debounce_delay (Debounce.run_timer i h) = Debounce._debounce_delay h.
Proof.
  unfold Debounce.run_timer. by destruct (Debounce.threads h !! i) as [[tm []]|].
Qed.

Lemma delay_elapse (now : nat) (h : Debounce.t) :
  Debounce._debounce_delay (Debounce.elapse now h) = Debounce._debounce_delay h.
Proof.
  unfold Debounce.elapse. generalize (Debounce.due now h) as timers. intros timers.
  revert h. induction timers as [|i timers IH]; intros h; [done|].
  cbn [foldl]. by rewrite IH, delay_run_timer.
Qed.

(** *** A notification is scheduled *)

(** The timer of the path, if there is one, is cancelled and leaves. *)
Lemma cancel_spec (path : string) (h : Debounce.t) :
  well_formed h ->
  let h1 := Debounce._cancel_pending_timer path h in
  well_formed h1
  /\ Dict.get path (Debounce._pending_timers h1) = None
  /\ (forall q, q <> path -> pending_timer q h1 = pending_timer q h)
  /\ Debounce.delivered h1 = Debounce.delivered h
  /\ Debounce._debounce_delay h1 = Debounce._debounce_delay h
  /\ (Debounce.threads h1).*1 = (Debounce.threads h).*1.
Proof.
  intros WF. cbn zeta. unfold Debounce._cancel_pending_timer.
  destruct (Dict.get path (Debounce._pending_timers h)) as [i|] eqn:Hi; [|done].
  pose proof WF as (_ & W2 & _). destruct (W2 _ _ Hi) as (tm & Hth & <-).
  destruct (retire h i tm (Debounce.delivered h) WF Hth) as [WF' P]. cbn zeta in *.
  split; [exact WF'|]. split; [|split; [|split; [done|split; [done|]]]].
  - cbn. rewrite get_del. by rewrite decide_True.
  - intros q Hq. rewrite P. by rewrite decide_False.
  - cbn. apply finish_timers.
Qed.

(** A timer is started for a path that has none. *)
Lemma start_spec (path : string) (tm : Debounce.Timer) (h : Debounce.t) :
  well_formed h ->
  Dict.get path (Debounce._pending_timers h) = None ->
  Debounce.fn_path tm = path ->
  let h' := Debounce.mk (Debounce._debounce_delay h)
              (Debounce.threads h ++ [(tm, false)])
              (Dict.set path (length (Debounce.threads h)) (Debounce._pending_timers h))
              (Debounce.delivered h) in
  well_formed h'
  /\ forall q, pending_timer q h'
               = if decide (q = path) then Some tm else pending_timer q h.
Proof.
  intros (N & W2 & W3) Hnone Hp h'. subst h'.
  split; [split; [|split]|]; cbn [Debounce._pending_timers Debounce.threads].
  - rewrite set_absent by by apply get_None_absent.
    rewrite fmap_app. apply NoDup_app. split; [done|]. split.
    + intros x X. cbn. rewrite list_elem_of_singleton. intros ->.
      by apply (get_None_absent _ _ Hnone).
    + apply NoDup_singleton.
  - intros q j. rewrite get_set. destruct (decide (q = path)) as [->|Hq].
    + intros [= <-]. exists tm. split; [|done].
      rewrite lookup_app_r by done. by rewrite Nat.sub_diag.
    + intros Hj. destruct (W2 _ _ Hj) as (tm' & Hj' & Hp'). exists tm'.
      split; [|done]. by apply lookup_app_l_Some.
  - intros j tm' Hj. rewrite get_set.
    apply lookup_app_Some in Hj as [Hj|[Hlen Hj]].
    + pose proof (W3 _ _ Hj) as G.
      destruct (decide (Debounce.fn_path tm' = path)) as [E|_]; [|done].
      rewrite E, Hnone in G. done.
    + apply list_lookup_singleton_Some in Hj as [Hz [= <-]].
      rewrite decide_True by done. f_equal. lia.
  - intros q. unfold pending_timer.
    cbn [Debounce._pending_timers Debounce.threads]. rewrite get_set.
    destruct (decide (q = path)) as [->|Hq].
    + cbn. rewrite lookup_app_r by done. by rewrite Nat.sub_diag.
    + destruct (Dict.get q (Debounce._pending_timers h)) as [j|] eqn:Hj; [|done].
      cbn. destruct (W2 _ _ Hj) as (tm' & Hj' & _).
      by rewrite (lookup_app_l_Some _ _ _ _ Hj'), Hj'.
Qed.

Lemma schedule_spec (q : string) (now : nat) (path : string) (ty : FileEventType)
    (h : Debounce.t) :
  well_formed h ->
  let h' := Debounce._schedule_callback now path ty h in
  well_formed h'
  /\ Debounce._debounce_delay h' = Debounce._debounce_delay h
  /\ Debounce.delivered h' = Debounce.delivered h
  /\ (Debounce.threads h').*1
     = (Debounce.threads h).*1
       ++ [Debounce.mkTimer (now + Debounce._debounce_delay h) path ty]
  /\ view q h'
     = if decide (q = path)
       then (Some (Debounce.mkTimer (now + Debounce._debounce_delay h) path ty),
             (view q h).2)
       else view q h.
Proof.
  intros WF. cbn zeta. unfold Debounce._schedule_callback.
  destruct (cancel_spec path h WF) as (WF1 & Hnone & P1 & D1 & L1 & T1).
  cbn zeta in *.
  set (h1 := Debounce._cancel_pending_timer path h) in *.
  destruct (start_spec path
              (Debounce.mkTimer (now + Debounce._debounce_delay h1) path ty) h1
              WF1 Hnone eq_refl) as [WF' P'].
  cbn zeta in *. split; [exact WF'|]. split; [exact L1|]. split; [exact D1|].
  split; [cbn; by rewrite fmap_app, T1, L1|].
  unfold view. rewrite P'. unfold Debounce.delivered_for.
  cbn [Debounce.delivered]. rewrite D1, L1.
  destruct (decide (q = path)) as [->|Hq]; [done|]. by rewrite P1.
Qed.

Lemma well_formed_schedule (now : nat) (path : string) (ty : FileEventType)
    (h : Debounce.t) :
  well_formed h -> well_formed (Debounce._schedule_callback now path ty h).
Proof. intros WF. by destruct (schedule_spec "" now path ty h WF). Qed.

Lemma view_of_schedule (path q : string) (now : nat) (ty : FileEventType)
    (h : Debounce.t) :
  well_formed h ->
  view q (Debounce._schedule_callback now path ty h)
  = if decide (q = path)
    then (Some (Debounce.mkTimer (now + Debounce._debounce_delay h) path ty),
          (view q h).2)
    else view q h.
Proof. intros WF. by destruct (schedule_spec q now path ty h WF) as (_ & _ & _ & _ & ?). Qed.

Lemma well_formed_notify (n : Debounce.notification) (h : Debounce.t) :
  well_formed h -> well_formed (Debounce.notify n h).
Proof. intros. by apply well_formed_schedule, well_formed_elapse. Qed.

Lemma delay_notify (n : Debounce.notification) (h : Debounce.t) :
  well_formed h ->
  Debounce._debounce_delay (Debounce.notify n h) = Debounce._debounce_delay h.
Proof.
  intros WF. unfold Debounce.notify.
  destruct (schedule_spec "" (Debounce.at_time n) (Debounce.src_path n)
              (Debounce.kind n) _ (well_formed_elapse (Debounce.at_time n) h WF))
    as (_ & -> & _).
  apply delay_elapse.
Qed.

(** *** One path at a time *)

Lemma view_of_notify (path : string) (n : Debounce.notification) (h : Debounce.t) :
  well_formed h ->
  view path (Debounce.notify n h)
  = view_notify (Debounce._debounce_delay h) path n (view path h).
Proof.
  intros WF. unfold Debounce.notify, view_notify.
  rewrite view_of_schedule by by apply well_formed_elapse.
  rewrite delay_elapse, view_of_elapse by done.
  by destruct (decide (path = Debounce.src_path n)).
Qed.

Lemma view_of_run (path : string) (ns : list Debounce.notification) (h : Debounce.t) :
  well_formed h ->
  well_formed (Debounce.run ns h)
  /\ view path (Debounce.run ns h)
     = foldl (fun v n => view_notify (Debounce._debounce_delay h) path n v)
             (view path h) ns.
Proof.
  revert h. induction ns as [|n ns IH]; intros h WF; [done|].
  cbn [Debounce.run foldl]. fold (Debounce.run ns (Debounce.notify n h)).
  destruct (IH (Debounce.notify n h) (well_formed_notify n h WF)) as [W E].
  split; [done|]. by rewrite E, delay_notify, view_of_notify.
Qed.

Lemma view_elapse_twice (t t' : nat) (v : option Debounce.Timer * list FileEvent) :
  (t <= t')%nat -> view_elapse t' (view_elapse t v) = view_elapse t' v.
Proof.
  intros L. destruct v as [[tm|] log]; [|done].
  unfold view_elapse at 2. cbn [fst snd].
  destruct (decide (Debounce.deadline tm <= t)%nat); [|done].
  unfold view_elapse. cbn [fst snd]. rewrite decide_True by lia. done.
Qed.

(** What is delivered for a path does not depend on the notifications
    for other paths. *)
Lemma view_independent (delay : nat) (path : string)
    (ns : list Debounce.notification) (T : nat) :
  forall (t : nat) (x y : option Debounce.Timer * list FileEvent),
    chronological t ns ->
    view_elapse t x = view_elapse t y ->
    (t <= T)%nat ->
    Forall (fun n => (Debounce.at_time n <= T)%nat) ns ->
    view_elapse T (foldl (fun v n => view_notify delay path n v) x ns)
    = view_elapse T (foldl (fun v n => view_notify delay path n v) y
                       (filter (fun n => Debounce.src_path n = path) ns)).
Proof.
  induction ns as [|n ns IH]; intros t x y C E L B.
  - cbn. by rewrite <- (view_elapse_twice t T x), E, view_elapse_twice.
  - destruct C as [C1 C2]. apply Forall_cons in B as [B1 B2].
    assert (view_elapse (Debounce.at_time n) x = view_elapse (Debounce.at_time n) y)
      as E1.
    { by rewrite <- (view_elapse_twice t _ x), E, view_elapse_twice. }
    rewrite filter_cons. cbn [foldl].
    destruct (decide (Debounce.src_path n = path)) as [P|P].
    + cbn [foldl]. apply (IH (Debounce.at_time n)); try done.
      unfold view_notify. by rewrite E1.
    + apply (IH (Debounce.at_time n)); try done.
      unfold view_notify. rewrite decide_False by congruence.
      by rewrite view_elapse_twice.
Qed.

Lemma last_cons_cons {A : Type} (a d : A) (l : list A) :
  List.last (a :: l) d = List.last l a.
Proof.
  revert a d. induction l as [|b l IH]; intros a d; [done|].
  change (List.last (a :: b :: l) d) with (List.last (b :: l) d).
  by rewrite (IH b d), (IH b a).
Qed.

(** During a burst on one path the timer is replaced, never fired. *)
Lemma view_burst (delay : nat) (path : string) (rest : list Debounce.notification) :
  forall (n0 : Debounce.notification) (log : list FileEvent),
    Forall (fun n => Debounce.src_path n = path) rest ->
    burst_after delay (Debounce.at_time n0) rest ->
    foldl (fun v n => view_notify delay path n v) (Some (timer_for delay n0), log) rest
    = (Some (timer_for delay (List.last rest n0)), log).
Proof.
  induction rest as [|n1 rest IH]; intros n0 log F B; [done|].
  apply Forall_cons in F as [F1 F2]. destruct B as [B1 B2].
  cbn [foldl]. rewrite last_cons_cons.
  assert (view_notify delay path n1 (Some (timer_for delay n0), log)
          = (Some (timer_for delay n1), log)) as ->.
  { unfold view_notify, view_elapse. cbn [fst snd timer_for Debounce.deadline].
    rewrite (decide_False (P := (_ <= _)%nat)) by lia.
    by rewrite decide_True. }
  by apply IH.
Qed.

Lemma delivered_as_view (delay : nat) (path : string)
    (ns : list Debounce.notification) (T : nat) :
  Debounce.delivered_for path (Debounce.elapse T (Debounce.run ns (Debounce.init delay)))
  = (view_elapse T (foldl (fun v n => view_notify delay path n v) (None, []) ns)).2.
Proof.
  destruct (view_of_run path ns (Debounce.init delay) (well_formed_init delay))
    as [W E].
  change (Debounce.delivered_for path (Debounce.elapse T (Debounce.run ns (Debounce.init delay))))
    with (view path (Debounce.elapse T (Debounce.run ns (Debounce.init delay)))).2.
  by rewrite view_of_elapse, E.
Qed.

(** Each path debounces on its own: what is delivered for a path is what
    would be delivered had only its notifications arrived. *)
Lemma debounce_independent (delay : nat) (path : string)
    (ns : list Debounce.notification) (T : nat) :
  chronological 0 ns ->
  Forall (fun n => (Debounce.at_time n <= T)%nat) ns ->
  Debounce.delivered_for path (Debounce.elapse T (Debounce.run ns (Debounce.init delay)))
  = Debounce.delivered_for path
      (Debounce.elapse T
         (Debounce.run (filter (fun n => Debounce.src_path n = path) ns)
            (Debounce.init delay))).
Proof.
  intros C B. rewrite !delivered_as_view.
  f_equal. apply (view_independent delay path ns T 0%nat); try done. lia.
Qed.

(** Only [cancel] stops a timer: when its delay runs out, a timer whose
    thread has not finished hands on its event, whether [_pending_timers]
    still holds it or not; a cancelled timer does nothing. *)
Lemma timer_fires_unless_cancelled (timer : nat) (tm : Debounce.Timer)
    (h : Debounce.t) :
  Debounce.threads h !! timer = Some (tm, false) ->
  let cancelled :=
    Debounce.mk (Debounce._debounce_delay h)
      (Debounce.cancel timer (Debounce.threads h))
      (Debounce._pending_timers h) (Debounce.delivered h) in
  Debounce.delivered (Debounce.run_timer timer h)
  = Debounce.delivered h
    ++ [mkFileEvent (Debounce.fn_event_type tm) (Debounce.fn_path tm)]
  /\ Debounce.run_timer timer cancelled = cancelled.
Proof.
  intros H cancelled. split.
  - unfold Debounce.run_timer. by rewrite H.
  - unfold Debounce.run_timer, cancelled, Debounce.cancel, Debounce.finish.
    cbn [Debounce.threads]. by rewrite list_lookup_alter_eq, H.
Qed.

(** C4: let notifications for any paths arrive in the order of their
    times, those for [path] each less than the quiet period after the one
    before; once the quiet period after the last of them has passed, one
    event has been delivered for [path], of the kind of that last
    notification; and what is delivered for [path] is what would be
    delivered had the notifications for the other paths not arrived. *)
Theorem C4_one_callback_per_burst (delay : nat) (path : string)
    (ns : list Debounce.notification) (n0 : Debounce.notification)
    (rest : list Debounce.notification) (T : nat) :
  chronological 0 ns ->
  filter (fun n => Debounce.src_path n = path) ns = n0 :: rest ->
  burst_after delay (Debounce.at_time n0) rest ->
  Forall (fun n => (Debounce.at_time n <= T)%nat) ns ->
  (Debounce.at_time (List.last rest n0) + delay <= T)%nat ->
  Debounce.delivered_for path (Debounce.elapse T (Debounce.run ns (Debounce.init delay)))
  = [mkFileEvent (Debounce.kind (List.last rest n0)) path]
  /\ Debounce.delivered_for path
       (Debounce.elapse T (Debounce.run ns (Debounce.init delay)))
     = Debounce.delivered_for path
         (Debounce.elapse T (Debounce.run (n0 :: rest) (Debounce.init delay))).
Proof.
  intros C Hmine Hburst B HT.
  assert (Forall (fun n => Debounce.src_path n = path) (n0 :: rest)) as F.
  { rewrite <- Hmine. apply Forall_forall. by intros n [? _]%list_elem_of_filter. }
  rewrite debounce_independent, Hmine by done.
  split; [|done].
  rewrite delivered_as_view. cbn [foldl].
  apply Forall_cons in F as [F0 F].
  assert (view_notify delay path n0 (None, []) = (Some (timer_for delay n0), []))
    as ->.
  { unfold view_notify. by rewrite decide_True. }
  rewrite (view_burst delay path rest n0 [] F Hburst).
  unfold view_elapse. cbn [fst snd timer_for Debounce.deadline].
  rewrite decide_True by done. cbn. unfold event_of. cbn. f_equal. f_equal.
  destruct rest as [|n1 rest]; [done|].
  rewrite last_cons_cons.
  assert (List.last rest n1 ∈ n1 :: rest) as X.
  { clear. revert n1. induction rest as [|n2 rest IH]; intros n1.
    - apply list_elem_of_here.
    - rewrite last_cons_cons. apply list_elem_of_further, IH. }
  by eapply Forall_forall in F.
Qed.

(** ** C1: what a client is sent *)

Lemma transitions_app (a b : list event) :
  transitions (a ++ b) = transitions a ++ transitions b.
Proof. unfold transitions. by rewrite dumped_app, filter_app. Qed.

Lemma filter_list_remove (ws c : WebSocket) (l : list WebSocket) :
  c <> ws ->
  filter (fun x => x = ws) (ConnectionManager.list_remove c l)
  = filter (fun x => x = ws) l.
Proof.
  intros Hne. induction l as [|y l IH]; [done|].
  cbn [ConnectionManager.list_remove]. case_bool_decide as E.
  - subst y. by rewrite filter_cons, decide_False.
  - by rewrite !filter_cons, IH.
Qed.

Lemma registrations_disconnect (ws c : WebSocket) (m : ConnectionManager.t) :
  c <> ws ->
  filter (fun x => x = ws)
    (ConnectionManager._active_connections (ConnectionManager.disconnect c m))
  = filter (fun x => x = ws) (ConnectionManager._active_connections m).
Proof.
  intros Hne. unfold ConnectionManager.disconnect.
  case_bool_decide; [|done]. cbn. by apply filter_list_remove.
Qed.

Lemma filter_filter_keep {A : Type} (P Q : A -> Prop)
    `{!forall x, Decision (P x)} `{!forall x, Decision (Q x)} (l : list A) :
  (forall x, x ∈ l -> Q x -> P x) -> filter Q (filter P l) = filter Q l.
Proof.
  induction l as [|x l IH]; intros I; [done|].
  assert (forall y, y ∈ l -> Q y -> P y) as I'
    by (intros y Y; apply I; by apply list_elem_of_further).
  rewrite !filter_cons. destruct (decide (P x)) as [p|p].
  - rewrite filter_cons. destruct (decide (Q x)); by rewrite IH.
  - rewrite decide_False; [by apply IH|].
    intros q. apply p, I; [apply list_elem_of_here | done].
Qed.

(** A client that is not registered, or whose send succeeds, is
    registered after a broadcast as often as before, and is handed the
    text once for each registration. *)
Lemma broadcast_for_client `{!JsonCodec} (down : network) (message : pyval)
    (m : ConnectionManager.t) (ws : WebSocket) :
  down ws = None \/ ws ∉ ConnectionManager._active_connections m ->
  let r := ConnectionManager.broadcast down message m in
  filter (fun x => x = ws) (ConnectionManager._active_connections r.1)
    = filter (fun x => x = ws) (ConnectionManager._active_connections m)
  /\ sends_to ws r.2
     = replicate (length (filter (fun x => x = ws)
                            (ConnectionManager._active_connections m)))
                 (json_dumps message)
  /\ dumped r.2 = [message].
Proof.
  intros Hws r. subst r. rewrite broadcast_pass. cbn [fst snd].
  split; [|split].
  - apply filter_filter_keep. intros x X ->. destruct Hws as [U|U]; [exact U | done].
  - pose proof (sends_to_app ws [Dumps message]
                  (map (attempt down (json_dumps message))
                       (ConnectionManager._active_connections m))) as E.
    cbn [app] in E. rewrite E, sends_to_attempts. done.
  - pose proof (dumped_app [Dumps message]
                  (map (attempt down (json_dumps message))
                       (ConnectionManager._active_connections m))) as E.
    cbn [app] in E. rewrite E, dumped_attempts. done.
Qed.

Section Clients.
Context `{!JsonCodec}.

Lemma endpoint_quiet (down : network) (repo : JsonFileRepository.t)
    (ws ws' : WebSocket) (g : Main.t) :
  ws' <> ws -> quiet_for ws g (Main.websocket_endpoint down repo ws' g).
Proof.
  intros Hne. unfold quiet_for, registrations, Main.websocket_endpoint.
  cbn [ConnectionManager.connect].
  assert (filter (fun c => c = ws)
            (ConnectionManager._active_connections (Main.connection_manager g) ++ [ws'])
          = filter (fun c => c = ws)
              (ConnectionManager._active_connections (Main.connection_manager g)))
    as Hreg.
  { rewrite filter_app, filter_cons, decide_False by done. by rewrite app_nil_r. }
  destruct (Main.step_service g) as [svc|]; cbn.
  - destruct (StepService.get_all_steps repo svc) as [[steps|e] svc1]; cbn.
    + unfold ConnectionManager.send_personal, ConnectionManager.send_text.
      destruct (down ws'); cbn.
      * rewrite bool_decide_eq_false_2 by done. unfold transitions. cbn.
        rewrite registrations_disconnect by done. by cbn.
      * rewrite bool_decide_eq_false_2 by done. unfold transitions. by cbn.
    + unfold transitions. cbn. rewrite registrations_disconnect by done. by cbn.
  - unfold transitions. by cbn.
Qed.

Lemma closed_quiet (ws ws' : WebSocket) (g : Main.t) :
  ws' <> ws -> quiet_for ws g (Main.websocket_closed ws' g, []).
Proof.
  intros Hne. unfold quiet_for, registrations, Main.websocket_closed. cbn.
  by rewrite registrations_disconnect.
Qed.

Lemma file_changed_shape (down : network) (repo : JsonFileRepository.t)
    (fe : FileEvent) (ws : WebSocket) (g : Main.t) :
  let r := Main.file_changed down repo fe g in
  quiet_for ws g (r.1.2, r.2) \/ broadcasts down g (r.1.2, r.2).
Proof.
  unfold Main.file_changed.
  destruct (Main.step_service g) as [svc|]; [|by left].
  destruct (StepService._handle_file_event repo fe svc) as [[[[[] ty step]|]|e] svc1];
    try by left.
  unfold Main.on_file_change_. cbn [Main.main_event_loop Main.connection_manager].
  destruct (Main.main_event_loop g) as [[]|]; try by left.
  unfold Main.handle_step_update.
  destruct step as [st|]; [|by left].
  right. destruct (String.eqb ty "deleted").
  - exists (Main.remove_message st). split; [done|].
    by destruct (ConnectionManager.broadcast _ _ _).
  - exists (Main.update_message st). split; [done|].
    by destruct (ConnectionManager.broadcast _ _ _).
Qed.

Lemma step_shape (down : network) (h : Main.happening) (ws : WebSocket) (g : Main.t) :
  of_others ws h ->
  quiet_for ws g (Main.step down h g) \/ broadcasts down g (Main.step down h g).
Proof.
  destruct h as [repo ws'|ws'|repo fe]; cbn [of_others Main.step]; intros O.
  - left. by apply endpoint_quiet.
  - left. by apply closed_quiet.
  - pose proof (file_changed_shape down repo fe ws g) as S. cbn zeta in S.
    by destruct (Main.file_changed down repo fe g) as [[r g1] out].
Qed.

(** One happening, for a client that stays registered as it is: it is
    sent each transition of the happening once for each registration. *)
Lemma step_for_client (down : network) (h : Main.happening) (ws : WebSocket)
    (g : Main.t) :
  of_others ws h ->
  down ws = None \/ registrations ws g = [] ->
  registrations ws (Main.step down h g).1 = registrations ws g
  /\ sends_to ws (Main.step down h g).2
     = transitions (Main.step down h g).2
         ≫= (fun m => replicate (length (registrations ws g)) (json_dumps m)).
Proof.
  intros O U. destruct (step_shape down h ws g O) as [(S & T & R)|(msg & T & B)].
  - by rewrite S, T, R.
  - destruct (Main.step down h g) as [g1 out]. cbn [fst snd] in *.
    assert (down ws = None
            \/ ws ∉ ConnectionManager._active_connections (Main.connection_manager g))
      as U'.
    { destruct U as [U|U]; [by left | right].
      eapply filter_nil_not_elem_of; [exact U | done]. }
    destruct (broadcast_for_client down msg (Main.connection_manager g) ws U')
      as (R & S & D).
    rewrite <- B in R, S, D. cbn [fst snd] in R, S, D.
    split; [exact R|].
    unfold transitions. rewrite D, filter_cons, decide_True, filter_nil by done.
    cbn. by rewrite app_nil_r.
Qed.

End Clients.

Section Runs.
Context `{!JsonCodec}.

Lemma run_cons (down : network) (h : Main.happening)
    (rest : list (network * Main.happening)) (g : Main.t) :
  Main.run ((down, h) :: rest) g
  = ((Main.run rest (Main.step down h g).1).1,
     (Main.step down h g).2 ++ (Main.run rest (Main.step down h g).1).2).
Proof.
  cbn [Main.run]. destruct (Main.step down h g) as [g1 out1]. cbn [fst snd].
  by destruct (Main.run rest g1).
Qed.

Lemma run_app (a b : list (network * Main.happening)) (g : Main.t) :
  Main.run (a ++ b) g
  = ((Main.run b (Main.run a g).1).1,
     (Main.run a g).2 ++ (Main.run b (Main.run a g).1).2).
Proof.
  revert g. induction a as [|[down h] a IH]; intros g.
  - cbn. by destruct (Main.run b g).
  - cbn [app]. rewrite !run_cons, IH. cbn [fst snd]. by rewrite app_assoc.
Qed.

(** A run in which a client neither connects nor closes: it stays
    registered as it is, and is sent each transition once for each
    registration. *)
Lemma run_for_client (ws : WebSocket) (hs : list (network * Main.happening)) :
  forall g : Main.t,
    Forall (fun dh => of_others ws dh.2) hs ->
    registrations ws g = [] \/ Forall (fun dh => dh.1 ws = None) hs ->
    registrations ws (Main.run hs g).1 = registrations ws g
    /\ sends_to ws (Main.run hs g).2
       = transitions (Main.run hs g).2
           ≫= (fun m => replicate (length (registrations ws g)) (json_dumps m)).
Proof.
  induction hs as [|[down h] hs IH]; intros g O U; [done|].
  apply Forall_cons in O as [O1 O2]. cbn [snd] in O1.
  assert (down ws = None \/ registrations ws g = []) as U1.
  { destruct U as [U|U]; [by right | left]. by apply Forall_cons in U as [U _]. }
  destruct (step_for_client down h ws g O1 U1) as [R1 S1].
  assert (registrations ws (Main.step down h g).1 = []
          \/ Forall (fun dh => dh.1 ws = None) hs) as U2.
  { destruct U as [U|U]; [left; by rewrite R1 | right].
    by apply Forall_cons in U as [_ U]. }
  destruct (IH (Main.step down h g).1 O2 U2) as [R2 S2].
  rewrite run_cons. cbn [fst snd].
  rewrite sends_to_app, transitions_app, bind_app, S1, S2, R2, R1. done.
Qed.

Lemma bind_replicate_one {A B : Type} (f : A -> B) (l : list A) :
  l ≫= (fun m => replicate 1 (f m)) = map f l.
Proof. induction l as [|x l IH]; [done|]. cbn. by rewrite <- IH. Qed.

Lemma bind_replicate_none {A B : Type} (f : A -> B) (l : list A) :
  l ≫= (fun m => replicate 0 (f m)) = [].
Proof. induction l as [|x l IH]; [done | exact IH]. Qed.

(** The endpoint, for a client whose snapshot is read and whose send
    succeeds: the client is registered and sent the init message. *)
Lemma endpoint_init (down : network) (repo : JsonFileRepository.t)
    (ws : WebSocket) (g : Main.t) (svc svc1 : Main.service) (steps : list Step) :
  Main.step_service g = Some svc ->
  StepService.get_all_steps repo svc = (Ok steps, svc1) ->
  down ws = None ->
  Main.websocket_endpoint down repo ws g
  = (Main.mk
       (ConnectionManager.mk
          (ConnectionManager._active_connections (Main.connection_manager g) ++ [ws]))
       (Some svc1) (Main.main_event_loop g),
     [Accept ws; Dumps (Main.init_message steps);
      SendText ws (json_dumps (Main.init_message steps)) true]).
Proof.
  intros Hs Hg Hd. unfold Main.websocket_endpoint. cbn [ConnectionManager.connect].
  rewrite Hs, Hg.
  unfold ConnectionManager.send_personal, ConnectionManager.send_text.
  by rewrite Hd.
Qed.

Lemma get_all_steps_snapshot {R W CB : Type} `{!StepRepository R} `{!FileWatcher W}
    (repo : R) (s s1 : StepService.t W CB) (steps : list Step) :
  StepService.get_all_steps repo s = (Ok steps, s1) ->
  steps = StepService.cached_steps s1.
Proof.
  unfold StepService.get_all_steps.
  destruct (StepService.cache_empty s).
  - destruct (StepService._load_steps_into_cache repo s) as [[] s2]; [|done].
    by intros [= <- <-].
  - by intros [= <- <-].
Qed.

End Runs.

(** When the read of the snapshot returns: let a client connect that was
    not registered, while the step service is set, and let
    [get_all_steps] return. For as long as the client neither closes nor
    fails to receive, in any run of the server around that connection the
    texts it is sent are the init message with the full snapshot of that
    moment, followed by one message for each transition broadcast after
    the connection, in order; nothing broadcast before the connection
    reaches it; and it stays registered once. *)
Lemma init_then_transitions `{!JsonCodec} (g0 : Main.t)
    (before after : list (network * Main.happening)) (down : network)
    (repo : JsonFileRepository.t) (ws : WebSocket) (svc svc1 : Main.service)
    (steps : list Step) :
  registrations ws g0 = [] ->
  Forall (fun dh => of_others ws dh.2) (before ++ after) ->
  Forall (fun dh => dh.1 ws = None) after ->
  down ws = None ->
  Main.step_service (Main.run before g0).1 = Some svc ->
  StepService.get_all_steps repo svc = (Ok steps, svc1) ->
  let connected :=
    (Main.step down (Main.ClientConnects repo ws) (Main.run before g0).1).1 in
  let whole := Main.run (before ++ (down, Main.ClientConnects repo ws) :: after) g0 in
  steps = StepService.cached_steps svc1
  /\ sends_to ws whole.2
     = json_dumps (Main.init_message steps)
       :: map json_dumps (transitions (Main.run after connected).2)
  /\ registrations ws whole.1 = [ws].
Proof.
  intros Hreg Hoth Hup Hdown Hsvc Hsnap connected whole.
  apply Forall_app in Hoth as [Ob Oa].
  destruct (run_for_client ws before g0 Ob (or_introl Hreg)) as [Rb Sb].
  rewrite Hreg in Rb, Sb. cbn [length] in Sb. rewrite bind_replicate_none in Sb.
  pose proof (endpoint_init down repo ws _ svc svc1 steps Hsvc Hsnap Hdown) as E.
  assert (registrations ws connected = [ws]) as Rc.
  { subst connected. cbn [Main.step]. rewrite E. unfold registrations in Rb |- *.
    cbn. rewrite filter_app, Rb, filter_cons, decide_True by done. done. }
  destruct (run_for_client ws after connected Oa (or_intror Hup)) as [Ra Sa].
  rewrite Rc in Ra, Sa. cbn [length] in Sa. rewrite bind_replicate_one in Sa.
  split; [by eapply get_all_steps_snapshot|].
  subst whole. rewrite run_app, run_cons. cbn [fst snd]. fold connected.
  split; [|exact Ra].
  rewrite !sends_to_app, Sb, Sa. cbn [Main.step]. rewrite E. cbn [snd].
  unfold sends_to at 1. cbn. by rewrite bool_decide_eq_true_2.
Qed.

(** ** From a path to a task id, and from a task id to a [Step] *)

Lemma append_cons (c : ascii) (a b : string) :
  (String c a ++ b)%string = String c (a ++ b)%string.
Proof. reflexivity. Qed.

Lemma append_nil (b : string) : ("" ++ b)%string = b.
Proof. reflexivity. Qed.

Lemma split_app (sep : ascii) (a b : string) :
  split sep (a ++ String sep b)%string = split sep a ++ split sep b.
Proof.
  induction a as [|c a IH]; rewrite ?append_nil, ?append_cons; cbn [split].
  - by rewrite Ascii.eqb_refl.
  - destruct (Ascii.eqb c sep); rewrite IH; [done|].
    destruct (split sep a) as [|p ps] eqn:E; [by apply split_nonempty in E|done].
Qed.

Lemma basename_join (dir name : string) :
  contains "/"%char name = false ->
  StepService.basename (dir ++ String "/"%char name)%string = name.
Proof.
  intros H. unfold StepService.basename.
  rewrite split_app, (split_no_sep _ _ H). apply List.last_last.
Qed.

Lemma basename_plain (name : string) :
  contains "/"%char name = false -> StepService.basename name = name.
Proof. intros H. unfold StepService.basename. by rewrite (split_no_sep _ _ H). Qed.

Lemma digit_range (c : ascii) :
  is_digit c = true ->
  Ascii.eqb c "/"%char = false /\ Ascii.eqb c "."%char = false
  /\ 0 <= digit_value c <= 9.
Proof.
  destruct c as [[] [] [] [] [] [] [] []]; vm_compute; intros; try discriminate;
    repeat split; discriminate.
Qed.

Lemma substring_all (s : string) : String.substring 0 (String.length s) s = s.
Proof. induction s as [|c s IH]; cbn; [done|by rewrite IH]. Qed.

Lemma substring_split (s : string) (i : nat) :
  (i <= String.length s)%nat ->
  (String.substring 0 i s ++ String.substring i (String.length s - i) s)%string = s.
Proof.
  revert i. induction s as [|c s IH]; intros [|i] Hi; cbn in *; try done; try lia.
  - by rewrite substring_all.
  - rewrite append_cons, IH; [done|lia].
Qed.

Lemma ends_with_stem (suffix s : string) :
  JsonFileRepository.ends_with suffix s = true ->
  s = (String.substring 0 (String.length s - String.length suffix) s ++ suffix)%string.
Proof.
  unfold JsonFileRepository.ends_with.
  intros [Hk E%String.eqb_eq]%andb_true_iff. apply Nat.leb_le in Hk.
  pose proof (substring_split s (String.length s - String.length suffix)) as S.
  replace (String.length s - (String.length s - String.length suffix))%nat
    with (String.length suffix) in S by lia.
  rewrite E in S. symmetry. apply S. lia.
Qed.

Lemma int_two_digits_newline (a b : ascii) :
  is_digit a = true -> is_digit b = true ->
  int (String a (String b (String "010"%char "")))
  = Ok (10 * digit_value a + digit_value b).
Proof.
  intros Ha Hb.
  destruct (digit_is_plain a Ha) as (Ha1 & Ha2 & Ha3 & Ha4).
  unfold int. cbn [lstrip]. rewrite Ha4, Ha3, Ha1.
  unfold int_unsigned. rewrite Ha2.
  cbn [scan_digits]. rewrite Ha, Hb.
  replace (10 * 0 + digit_value a) with (digit_value a) by lia.
  reflexivity.
Qed.

(** The two shapes the pattern of the service accepts. *)
Lemma matches_task_id_shape (s : string) :
  StepService.matches_task_id s = true <->
  is_NN_NN s = true
  \/ exists nn, is_NN_NN nn = true /\ s = (nn ++ String "010"%char "")%string.
Proof.
  unfold StepService.matches_task_id, is_NN_NN. split.
  - destruct s as [|a [|b [|h [|c [|d [|e [|f r]]]]]]];
      cbn [list_ascii_of_string]; try done; [by left|].
    rewrite andb_true_iff. intros [H ->%Ascii.eqb_eq]. right.
    by exists (String a (String b (String h (String c (String d ""))))).
  - intros [H|(nn & H & ->)]; [by destruct s as [|a [|b [|h [|c [|d [|e r]]]]]]|].
    destruct nn as [|a [|b [|h [|c [|d [|e r]]]]]]; cbn [list_ascii_of_string] in *; try done.
    rewrite !append_cons, append_nil. cbn [list_ascii_of_string]. by rewrite H.
Qed.

(** What [Step_init] makes of an id the service accepts. *)
Lemma accepted_id_versions (tid : string) :
  StepService.matches_task_id tid = true ->
  exists a b c d tail,
    tid = String a (String b (String hyphen (String c (String d tail))))
    /\ is_digit a = true /\ is_digit b = true
    /\ is_digit c = true /\ is_digit d = true
    /\ (tail = "" \/ tail = String "010"%char "")
    /\ 0 <= 10 * digit_value a + digit_value b <= 99
    /\ 0 <= 10 * digit_value c + digit_value d <= 99
    /\ forall pid ph descr st,
         Step_init (PStr tid) pid ph descr st
         = Ok (mkStep tid pid ph descr st
                 (10 * digit_value a + digit_value b)
                 (10 * digit_value c + digit_value d)).
Proof.
  intros H.
  assert (exists a b c d tail,
            tid = String a (String b (String hyphen (String c (String d tail))))
            /\ is_digit a = true /\ is_digit b = true
            /\ is_digit c = true /\ is_digit d = true
            /\ (tail = "" \/ tail = String "010"%char "")) as
    (a & b & c & d & tail & E & Da & Db & Dc & Dd & Ht).
  { unfold StepService.matches_task_id in H.
    destruct tid as [|a [|b [|h [|c [|d [|e [|f r]]]]]]];
      cbn [list_ascii_of_string] in H; try done.
    - revert H. rewrite !andb_true_iff.
      intros ((((Da & Db) & ->%Ascii.eqb_eq) & Dc) & Dd).
      exists a, b, c, d, "". auto 10.
    - revert H. rewrite !andb_true_iff.
      intros (((((Da & Db) & ->%Ascii.eqb_eq) & Dc) & Dd) & ->%Ascii.eqb_eq).
      exists a, b, c, d, (String "010"%char ""). auto 10. }
  exists a, b, c, d, tail.
  pose proof (digit_range _ Da). pose proof (digit_range _ Db).
  pose proof (digit_range _ Dc). pose proof (digit_range _ Dd).
  do 6 (split; [done|]). split; [lia|]. split; [lia|].
  subst tid. intros pid ph descr st.
  destruct (digit_is_plain _ Da) as (Ha & _).
  destruct (digit_is_plain _ Db) as (Hb & _).
  destruct (digit_is_plain _ Dc) as (Hc & _).
  destruct (digit_is_plain _ Dd) as (Hd & _).
  rewrite Step_init_string, parse_string.
  change (String a (String b (String hyphen (String c (String d tail)))))
    with (String a (String b "") ++ String hyphen (String c (String d tail)))%string.
  rewrite split_app_sep by (cbn; by rewrite Ha, Hb).
  rewrite split_no_sep by (destruct Ht as [-> | ->]; cbn; by rewrite Hc, Hd).
  rewrite (int_two_digits _ _ Da Db).
  destruct Ht as [-> | ->].
  - by rewrite (int_two_digits _ _ Dc Dd).
  - by rewrite (int_two_digits_newline _ _ Dc Dd).
Qed.

Lemma accepted_id_constructs (tid : string) :
  StepService.matches_task_id tid = true ->
  exists major minor,
    0 <= major <= 99 /\ 0 <= minor <= 99
    /\ forall pid ph descr st,
         Step_init (PStr tid) pid ph descr st = Ok (mkStep tid pid ph descr st major minor).
Proof.
  intros H.
  destruct (accepted_id_versions tid H)
    as (a & b & c & d & tail & _ & _ & _ & _ & _ & _ & Hx & Hy & Hs).
  by exists (10 * digit_value a + digit_value b), (10 * digit_value c + digit_value d).
Qed.

Lemma path_resolves (dir tid : string) :
  is_NN_NN tid = true ->
  StepService._extract_task_id_from_path (dir ++ "/" ++ tid ++ ".json") = Some tid
  /\ StepService._extract_task_id_from_path (dir ++ "/" ++ tid) = Some tid
  /\ StepService._extract_task_id_from_path (tid ++ ".json") = Some tid.
Proof.
  intros H.
  assert (StepService.matches_task_id tid = true) as M
    by (apply matches_task_id_shape; by left).
  unfold is_NN_NN in H.
  destruct tid as [|a [|b [|h [|c [|d [|e r]]]]]];
    cbn [list_ascii_of_string] in H; try done.
  revert H. rewrite !andb_true_iff.
  intros ((((Da & Db) & ->%Ascii.eqb_eq) & Dc) & Dd).
  destruct (digit_range _ Da) as (Ha & Ha' & _).
  destruct (digit_range _ Db) as (Hb & _).
  destruct (digit_range _ Dc) as (Hc & _).
  destruct (digit_range _ Dd) as (Hd & _).
  unfold StepService._extract_task_id_from_path.
  change (dir ++ "/" ++ ?x)%string with (dir ++ String "/"%char x)%string.
  rewrite !basename_join
    by (rewrite ?contains_app; cbn [contains]; by rewrite Ha, Hb, Hc, Hd).
  rewrite basename_plain
    by (rewrite ?contains_app; cbn [contains]; by rewrite Ha, Hb, Hc, Hd).
  assert (JsonFileRepository.ends_with ".json"
            (String a (String b (String hyphen (String c (String d "")))))
          = false) as ->.
  { unfold JsonFileRepository.ends_with.
    cbn [String.length Nat.leb Nat.sub String.substring andb String.eqb].
    by rewrite Ha'. }
  rewrite !append_cons, !append_nil.
  assert (JsonFileRepository.ends_with ".json"
            (String a (String b (String hyphen (String c (String d ".json")))))
          = true) as -> by reflexivity.
  cbn [String.length Nat.sub String.substring].
  by rewrite M.
Qed.

(** X1 (StepService._extract_task_id_from_path): a path whose last
    component is an id of the form NN-NN, with or without the extension
    [.json], resolves to that id, whatever the directory part is. *)
Theorem X1_path_resolves_to_its_id (dir tid : string) :
  is_NN_NN tid = true ->
  StepService._extract_task_id_from_path (dir ++ "/" ++ tid ++ ".json") = Some tid
  /\ StepService._extract_task_id_from_path (dir ++ "/" ++ tid) = Some tid
  /\ StepService._extract_task_id_from_path (tid ++ ".json") = Some tid.
Proof. apply path_resolves. Qed.

(** X2 (StepService._extract_task_id_from_path, Step.__post_init__):
    whatever a path resolves to is the last component of the path, less
    the extension [.json] if it has it; it is of the form NN-NN, possibly
    followed by one newline, which the pattern's [$] lets through; and a
    [Step] with that id is constructed, whose major version is the number
    that the two digits before the hyphen write in base ten and whose
    minor version is the number that the two digits after it write, each
    between 0 and 99. *)
Theorem X2_resolved_id_constructs (path tid : string) :
  StepService._extract_task_id_from_path path = Some tid ->
  (StepService.basename path = tid
   \/ StepService.basename path = (tid ++ ".json")%string)
  /\ (is_NN_NN tid = true
      \/ exists nn, is_NN_NN nn = true /\ tid = (nn ++ String "010"%char "")%string)
  /\ exists a b c d tail,
       tid = String a (String b (String hyphen (String c (String d tail))))
       /\ is_digit a = true /\ is_digit b = true
       /\ is_digit c = true /\ is_digit d = true
       /\ (tail = "" \/ tail = String "010"%char "")
       /\ 0 <= 10 * digit_value a + digit_value b <= 99
       /\ 0 <= 10 * digit_value c + digit_value d <= 99
       /\ forall pid ph descr st,
            Step_init (PStr tid) pid ph descr st
            = Ok (mkStep tid pid ph descr st
                    (10 * digit_value a + digit_value b)
                    (10 * digit_value c + digit_value d)).
Proof.
  unfold StepService._extract_task_id_from_path.
  destruct (JsonFileRepository.ends_with ".json" (StepService.basename path)) eqn:E.
  - destruct (StepService.matches_task_id _) eqn:M; [|done].
    intros [= <-]. split; [right; by apply ends_with_stem in E|].
    split; [by apply matches_task_id_shape|by apply accepted_id_versions].
  - destruct (StepService.matches_task_id _) eqn:M; [|done].
    intros [= <-]. split; [by left|].
    split; [by apply matches_task_id_shape|by apply accepted_id_versions].
Qed.

(** ** What [from_dict] accepts, and what it makes of it *)

Lemma StepStatus_of_value (v : pyval) (st : StepStatus) :
  StepStatus_of v = Ok st <-> v = PStr (status_value st).
Proof.
  split.
  - destruct v as [| | | |s| |]; cbn; try done.
    destruct (String.eqb_spec s "pending") as [->|_]; [by intros [= <-]|].
    destruct (String.eqb_spec s "in_progress") as [->|_]; [by intros [= <-]|].
    destruct (String.eqb_spec s "completed") as [->|_]; [by intros [= <-]|].
    destruct (String.eqb_spec s "failed") as [->|_]; [by intros [= <-]|].
    destruct (String.eqb_spec s "skipped") as [->|_]; [by intros [= <-]|].
    done.
  - intros ->. by destruct st.
Qed.

Lemma from_dict_Ok (data : pyval) (s : Step) :
  from_dict data = Ok s <->
  exists validation,
    get data "validation" (PDict []) = Ok validation
    /\ get validation "status" (PStr "pending") = Ok (PStr (status_value (status s)))
    /\ getitem data "task_id" = Ok (PStr (task_id s))
    /\ getitem data "project_id" = Ok (project_id s)
    /\ getitem data "phase" = Ok (phase s)
    /\ getitem data "description" = Ok (description s)
    /\ two_int_groups (task_id s) (major_version s) (minor_version s).
Proof.
  unfold from_dict. split.
  - destruct (get data "validation" (PDict [])) as [validation|] eqn:Ev; [|done].
    rsimpl. destruct (get validation "status" (PStr "pending")) as [v|] eqn:Es; [|done].
    rsimpl. destruct (StepStatus_of v) as [st|] eqn:Est; [|done].
    apply StepStatus_of_value in Est as ->.
    rsimpl. destruct (getitem data "task_id") as [tid|]; [|done].
    rsimpl. destruct (getitem data "project_id") as [pid|]; [|done].
    rsimpl. destruct (getitem data "phase") as [ph|]; [|done].
    rsimpl. destruct (getitem data "description") as [descr|]; [|done].
    rsimpl. intros E. exists validation.
    assert (exists t, tid = PStr t) as [t ->].
    { unfold Step_init in E. destruct (_parse_version_from_task_id tid); [|done].
      cbn in E. destruct tid; try done. by eexists. }
    apply Step_init_groups in E as [G ->]. by cbn.
  - intros (validation & Ev & Es & Et & Ep & Eph & Ed & G).
    assert (StepStatus_of (PStr (status_value (status s))) = Ok (status s)) as Est
      by by apply StepStatus_of_value.
    rewrite Ev. rsimpl. rewrite Es. rsimpl. rewrite Est. rsimpl.
    rewrite Et. rsimpl. rewrite Ep. rsimpl. rewrite Eph. rsimpl. rewrite Ed. rsimpl.
    apply Step_init_groups. split; [done|]. by destruct s.
Qed.

Lemma lstrip_no_hyphen (s : string) :
  contains hyphen s = false -> contains hyphen (lstrip s) = false.
Proof.
  induction s as [|c s IH]; [done|]. cbn [lstrip].
  destruct (is_space c); [|done].
  cbn [contains]. destruct (Ascii.eqb c hyphen); [done|]. apply IH.
Qed.

Lemma scan_digits_nonneg (s : string) :
  forall prev_us acc n v m rest,
    0 <= acc -> scan_digits prev_us acc n s = Some (v, m, rest) -> 0 <= v.
Proof.
  induction s as [|c s IH]; intros prev_us acc n v m rest Hacc; cbn [scan_digits].
  - destruct prev_us; [done|]. by intros [= <- _ _].
  - destruct (is_digit c) eqn:D.
    + apply IH. assert (0 <= digit_value c)
        by (unfold digit_value; unfold is_digit in D;
            apply andb_true_iff in D as [D%Nat.leb_le _]; lia).
      lia.
    + destruct (Ascii.eqb c underscore).
      * destruct prev_us; [done|]. by apply IH.
      * destruct prev_us; [done|]. by intros [= <- _ _].
Qed.

Lemma int_unsigned_nonneg (s : string) (v : Z) : int_unsigned s = Some v -> 0 <= v.
Proof.
  unfold int_unsigned. destruct s as [|c s]; [done|].
  destruct (Ascii.eqb c underscore); [done|].
  destruct (scan_digits false 0 0 (String c s)) as [[[x n] rest]|] eqn:E; [|done].
  destruct (_ && _); [|done]. intros [= <-].
  by eapply scan_digits_nonneg in E.
Qed.

(** A part of a task id has no hyphen, so [int] reads no negative number
    from it. *)
Lemma int_nonneg (s : string) (v : Z) :
  contains hyphen s = false -> int s = Ok v -> 0 <= v.
Proof.
  intros H%lstrip_no_hyphen. unfold int.
  destruct (lstrip s) as [|c r]; [done|].
  cbn [contains] in H.
  destruct (Ascii.eqb c "+"%char).
  - destruct (int_unsigned r) as [x|] eqn:E; [|done].
    intros [= <-]. by apply int_unsigned_nonneg in E.
  - destruct (Ascii.eqb c hyphen); [done|].
    destruct (int_unsigned (String c r)) as [x|] eqn:E; [|done].
    intros [= <-]. by apply int_unsigned_nonneg in E.
Qed.

(** X3 (Step.from_dict): [from_dict] returns a step exactly when the
    object holds the four required keys, its task id is a string that one
    hyphen cuts into two parts [int] reads, and the status, ["pending"]
    where ["validation"] or its ["status"] is missing, is the value of a
    member of [StepStatus]; the step then carries the four fields as the
    file has them. *)
Theorem X3_from_dict_characterised (data : pyval) (s : Step) :
  from_dict data = Ok s <->
  exists validation,
    get data "validation" (PDict []) = Ok validation
    /\ get validation "status" (PStr "pending") = Ok (PStr (status_value (status s)))
    /\ getitem data "task_id" = Ok (PStr (task_id s))
    /\ getitem data "project_id" = Ok (project_id s)
    /\ getitem data "phase" = Ok (phase s)
    /\ getitem data "description" = Ok (description s)
    /\ two_int_groups (task_id s) (major_version s) (minor_version s).
Proof. apply from_dict_Ok. Qed.

(** X4 (Step._parse_version_from_task_id): no step has a negative
    version. A sign may precede the digits of a part, but a minus sign is
    the separator and never reaches [int]. *)
Theorem X4_versions_not_negative (data : pyval) (s : Step) :
  from_dict data = Ok s -> 0 <= major_version s /\ 0 <= minor_version s.
Proof.
  intros (_ & _ & _ & _ & _ & _ & _ & a & b & _ & Ha & Hb & Ia & Ib)%from_dict_Ok.
  split; [by apply (int_nonneg a)|by apply (int_nonneg b)].
Qed.

(** ** The repository on files it copes with, and the cache of the service *)



Lemma first_with_id_Some (tid : string) (steps : list Step) (s : Step) :
  JsonFileRepository.first_with_id tid steps = Some s <->
  exists before after,
    steps = before ++ s :: after /\ task_id s = tid
    /\ Forall (fun x => task_id x <> tid) before.
Proof.
  induction steps as [|x steps IH]; cbn [JsonFileRepository.first_with_id].
  - split; [done|]. by intros ([|??] & ? & ? & _).
  - destruct (String.eqb_spec (task_id x) tid) as [E|E].
    + split.
      * intros [= <-]. by exists [], steps.
      * intros ([|y before] & after & L & Hs & Hb); simplify_eq/=; [done|].
        by apply Forall_cons in Hb as [? _].
    + rewrite IH. split.
      * intros (before & after & -> & Hs & Hb). exists (x :: before), after.
        split; [done|]. split; [done|]. by apply Forall_cons.
      * intros ([|y before] & after & L & Hs & Hb); simplify_eq/=.
        apply Forall_cons in Hb as [_ Hb]. by exists before, after.
Qed.

Lemma first_with_id_None (tid : string) (steps : list Step) :
  JsonFileRepository.first_with_id tid steps = None <->
  Forall (fun x => task_id x <> tid) steps.
Proof.
  induction steps as [|x steps IH]; cbn [JsonFileRepository.first_with_id].
  - split; [by constructor|done].
  - rewrite Forall_cons. destruct (String.eqb_spec (task_id x) tid) as [E|E].
    + split; [done|]. by intros [? _].
    + rewrite IH. split; [by intros ?|by intros [_ ?]].
Qed.

(** X6 (JsonFileRepository.get_by_id, JsonFileRepository.refresh): a
    lookup reads the whole folder. It returns the first step with the id
    in the order of [get_all], [None] exactly when no step has the id,
    and it raises whatever [get_all] raises, also where the file of the
    id itself is sound; [refresh] is the same lookup. *)
Theorem X6_lookup_is_first_match (r : JsonFileRepository.t) (tid : string) :
  JsonFileRepository.refresh r tid = JsonFileRepository.get_by_id r tid
  /\ match JsonFileRepository.get_all r with
     | Raise e => JsonFileRepository.get_by_id r tid = Raise e
     | Ok steps =>
         exists found,
           JsonFileRepository.get_by_id r tid = Ok found
           /\ match found with
              | None => Forall (fun x => task_id x <> tid) steps
              | Some s =>
                  exists before after,
                    steps = before ++ s :: after /\ task_id s = tid
                    /\ Forall (fun x => task_id x <> tid) before
              end
     end.
Proof.
  split; [done|]. unfold JsonFileRepository.get_by_id.
  destruct (JsonFileRepository.get_all r) as [steps|e]; [|done]. rsimpl.
  eexists. split; [done|].
  destruct (JsonFileRepository.first_with_id tid steps) as [s|] eqn:E.
  - by apply first_with_id_Some.
  - by apply first_with_id_None.
Qed.

Lemma by_task_id_snoc (steps : list Step) (st : Step) :
  StepService.by_task_id (steps ++ [st])
  = <[task_id st := st]> (StepService.by_task_id steps).
Proof. unfold StepService.by_task_id. by rewrite foldl_app. Qed.

Lemma by_task_id_lookup (steps : list Step) (tid : string) :
  StepService.by_task_id steps !! tid
  = JsonFileRepository.first_with_id tid (reverse steps).
Proof.
  induction steps as [|st steps IH] using rev_ind; [done|].
  rewrite by_task_id_snoc, reverse_snoc. cbn [JsonFileRepository.first_with_id].
  destruct (String.eqb_spec (task_id st) tid) as [<-|E].
  - by rewrite lookup_insert_eq.
  - by rewrite lookup_insert_ne.
Qed.

Lemma first_with_id_distinct (tid : string) (steps : list Step) (s : Step) :
  NoDup (task_id <$> steps) -> s ∈ steps -> task_id s = tid ->
  JsonFileRepository.first_with_id tid steps = Some s.
Proof.
  induction steps as [|x steps IH]; intros ND Hin Hs; [by apply elem_of_nil in Hin|].
  cbn [JsonFileRepository.first_with_id]. rewrite fmap_cons in ND.
  apply NoDup_cons in ND as [Hx ND].
  apply elem_of_cons in Hin as [->|Hin].
  - by rewrite (proj2 (String.eqb_eq _ _) Hs).
  - destruct (String.eqb_spec (task_id x) tid) as [E|E]; [|by apply IH].
    exfalso. apply Hx. apply list_elem_of_fmap. exists s. split; [congruence|done].
Qed.

(** X7 (StepService._load_steps_into_cache, JsonFileRepository.get_by_id):
    where two steps have one id, the cache built from [get_all] keeps the
    last of them, while a lookup in the repository returns the first; the
    two agree where the ids are distinct. *)
Theorem X7_cache_keeps_last_lookup_finds_first (steps : list Step) (tid : string) :
  StepService.by_task_id steps !! tid
  = JsonFileRepository.first_with_id tid (reverse steps)
  /\ (NoDup (task_id <$> steps) ->
      StepService.by_task_id steps !! tid
      = JsonFileRepository.first_with_id tid steps).
Proof.
  split; [apply by_task_id_lookup|]. intros ND. rewrite by_task_id_lookup.
  destruct (JsonFileRepository.first_with_id tid steps) as [s|] eqn:E.
  - apply first_with_id_Some in E as (before & after & -> & Hs & _).
    apply first_with_id_distinct; [|apply elem_of_reverse; set_solver|done].
    by rewrite fmap_reverse, reverse_Permutation.
  - apply first_with_id_None. apply first_with_id_None in E.
    apply Forall_forall. intros x Hx. rewrite elem_of_reverse in Hx.
    rewrite Forall_forall in E. by apply E.
Qed.

Lemma keyed_service_after {W CB : Type} `{!FileWatcher W} (file_watcher : W)
    (calls : list (call CB)) :
  keyed (StepService._steps_cache (service_after file_watcher calls)).
Proof.
  unfold service_after.
  induction calls as [|c calls IH] using rev_ind; [apply keyed_empty|].
  rewrite foldl_app. by apply keyed_after.
Qed.

Lemma keyed_values_ids (l : list (string * Step)) :
  Forall (fun e => task_id e.2 = e.1) l -> task_id <$> l.*2 = l.*1.
Proof.
  induction 1 as [|[k v] l E _ IH]; [done|]. cbn in *. by rewrite E, IH.
Qed.

Section CachedSteps.
Context {R W CB : Type} `{!StepRepository R} `{!FileWatcher W}.
Implicit Types s : StepService.t W CB.

Lemma cached_steps_distinct s :
  keyed (StepService._steps_cache s) ->
  NoDup (task_id <$> StepService.cached_steps s)
  /\ forall st, st ∈ StepService.cached_steps s
                <-> StepService._steps_cache s !! task_id st = Some st.
Proof.
  intros K. unfold StepService.cached_steps. split.
  - rewrite keyed_values_ids; [apply NoDup_fst_map_to_list|].
    apply Forall_forall. intros [k v] Hin%elem_of_map_to_list. by apply K.
  - intros st. rewrite list_elem_of_fmap. split.
    + intros ([k v] & -> & Hin%elem_of_map_to_list). cbn.
      by rewrite (K _ _ Hin).
    + intros Hin. exists (task_id st, st). split; [done|].
      by apply elem_of_map_to_list.
Qed.

Lemma get_all_steps_cached (repo : R) s steps s1 :
  StepService.get_all_steps repo s = (Ok steps, s1) ->
  steps = StepService.cached_steps s1.
Proof.
  unfold StepService.get_all_steps, StepService._load_steps_into_cache.
  destruct (StepService.cache_empty s); [|by intros [= <- <-]].
  destruct (get_all repo); [|done]. by intros [= <- <-].
Qed.

Lemma get_all_steps_again (repo : R) s :
  StepService.cached_steps s <> [] ->
  StepService.get_all_steps repo s = (Ok (StepService.cached_steps s), s).
Proof.
  intros H. unfold StepService.get_all_steps, StepService.cache_empty.
  rewrite bool_decide_eq_false_2; [done|].
  intros E. apply H. unfold StepService.cached_steps. by rewrite E, map_to_list_empty.
Qed.

End CachedSteps.

(** X8 (StepService.get_all_steps): whatever calls the service has
    received, the steps [get_all_steps] returns have distinct ids and are
    the values of the cache it leaves; once it has returned a step, it
    answers from the cache alone, with the same steps in the same order,
    whatever the repository holds by then. *)
Theorem X8_get_all_steps_serves_the_cache {W CB : Type} `{!FileWatcher W}
    (file_watcher : W) (calls : list (call CB)) (repo : JsonFileRepository.t)
    (steps : list Step) (s1 : StepService.t W CB) :
  StepService.get_all_steps repo (service_after file_watcher calls) = (Ok steps, s1) ->
  NoDup (task_id <$> steps)
  /\ (forall st, st ∈ steps <-> StepService._steps_cache s1 !! task_id st = Some st)
  /\ (steps <> [] ->
      forall repo' : JsonFileRepository.t,
        StepService.get_all_steps repo' s1 = (Ok steps, s1)).
Proof.
  intros E.
  assert (s1 = service_after file_watcher (calls ++ [GetAllSteps repo])) as Hs1.
  { unfold service_after. rewrite foldl_app. cbn [foldl after].
    fold (service_after file_watcher calls). by rewrite E. }
  pose proof (keyed_service_after file_watcher (calls ++ [GetAllSteps repo])) as K.
  rewrite <- Hs1 in K.
  apply get_all_steps_cached in E as ->.
  destruct (cached_steps_distinct s1 K) as [ND M].
  split; [done|]. split; [done|]. intros Hne repo'. by apply get_all_steps_again.
Qed.

(** ** Registration of clients *)

Lemma list_remove_absent (ws : WebSocket) (l : list WebSocket) :
  ws ∉ l -> ConnectionManager.list_remove ws l = l.
Proof.
  induction l as [|y l IH]; [done|]. intros [Hy Hl]%not_elem_of_cons. cbn.
  rewrite bool_decide_eq_false_2 by done. by rewrite IH.
Qed.

Lemma list_remove_last (ws : WebSocket) (l : list WebSocket) :
  ws ∉ l -> ConnectionManager.list_remove ws (l ++ [ws]) = l.
Proof.
  induction l as [|y l IH]; cbn.
  - by rewrite bool_decide_eq_true_2.
  - intros [Hy Hl]%not_elem_of_cons.
    rewrite bool_decide_eq_false_2 by done. by rewrite IH.
Qed.

Lemma list_remove_others (ws : WebSocket) (l : list WebSocket) :
  filter (fun c => c <> ws) (ConnectionManager.list_remove ws l)
  = filter (fun c => c <> ws) l.
Proof.
  induction l as [|y l IH]; [done|]. cbn [ConnectionManager.list_remove].
  rewrite (filter_cons _ y l).
  destruct (bool_decide_reflect (y = ws)) as [->|E].
  - by destruct (decide (ws <> ws)).
  - rewrite filter_cons. destruct (decide (y <> ws)); [|done]. by rewrite IH.
Qed.

Lemma list_remove_count (ws : WebSocket) (l : list WebSocket) :
  length (filter (fun c => c = ws) (ConnectionManager.list_remove ws l))
  = pred (length (filter (fun c => c = ws) l)).
Proof.
  induction l as [|y l IH]; [done|]. cbn [ConnectionManager.list_remove].
  rewrite (filter_cons _ y l).
  destruct (bool_decide_reflect (y = ws)) as [->|E].
  - by destruct (decide (ws = ws)).
  - rewrite filter_cons. by destruct (decide (y = ws)).
Qed.

Lemma disconnect_list (ws : WebSocket) (m : ConnectionManager.t) :
  ConnectionManager._active_connections (ConnectionManager.disconnect ws m)
  = ConnectionManager.list_remove ws (ConnectionManager._active_connections m).
Proof.
  unfold ConnectionManager.disconnect.
  destruct (bool_decide_reflect (ws ∈ ConnectionManager._active_connections m)) as [H|H];
    [done|]. by rewrite list_remove_absent.
Qed.

Lemma disconnect_after_connect (ws : WebSocket) (m : ConnectionManager.t) :
  ws ∉ ConnectionManager._active_connections m ->
  ConnectionManager.disconnect ws (ConnectionManager.connect ws m).1 = m.
Proof.
  intros H. unfold ConnectionManager.disconnect, ConnectionManager.connect. cbn.
  rewrite bool_decide_eq_true_2 by (apply elem_of_app; right; apply list_elem_of_here).
  rewrite list_remove_last by done. by destruct m.
Qed.

(** X9 (ConnectionManager.disconnect, ConnectionManager.connect):
    [disconnect] takes one registration of the client off the list and
    leaves the other clients as they are, in their order; for a client
    that is not registered it changes nothing, and it undoes the
    [connect] of such a client. *)
Theorem X9_disconnect_removes_one_registration (ws : WebSocket)
    (m : ConnectionManager.t) :
  let m' := ConnectionManager.disconnect ws m in
  filter (fun c => c <> ws) (ConnectionManager._active_connections m')
  = filter (fun c => c <> ws) (ConnectionManager._active_connections m)
  /\ length (filter (fun c => c = ws) (ConnectionManager._active_connections m'))
     = pred (length (filter (fun c => c = ws) (ConnectionManager._active_connections m)))
  /\ (ws ∉ ConnectionManager._active_connections m ->
      m' = m
      /\ ConnectionManager.disconnect ws (ConnectionManager.connect ws m).1 = m).
Proof.
  cbn zeta. rewrite disconnect_list.
  split; [apply list_remove_others|]. split; [apply list_remove_count|].
  intros H. split; [|by apply disconnect_after_connect].
  unfold ConnectionManager.disconnect. by rewrite bool_decide_eq_false_2.
Qed.

(** X10 (websocket_endpoint): a client that was not registered is
    registered when the endpoint reaches its receive loop exactly when the
    snapshot was read and the init message was sent; where
    [get_all_steps] raises or the send fails, the client is taken off the
    list again and the list is as before. No message but the init message
    is handed to the client. *)
Theorem X10_registered_iff_init_delivered `{!JsonCodec} (down : network)
    (repo : JsonFileRepository.t) (ws : WebSocket) (g : Main.t) (svc : Main.service) :
  Main.step_service g = Some svc ->
  ws ∉ ConnectionManager._active_connections (Main.connection_manager g) ->
  let r := Main.websocket_endpoint down repo ws g in
  let snapshot := (StepService.get_all_steps repo svc).1 in
  ConnectionManager._active_connections (Main.connection_manager r.1)
  = ConnectionManager._active_connections (Main.connection_manager g)
    ++ (if bool_decide (raises snapshot = false /\ down ws = None) then [ws] else [])
  /\ r.2 = Accept ws
           :: match snapshot with
              | Ok steps =>
                  [Dumps (Main.init_message steps);
                   attempt down (json_dumps (Main.init_message steps)) ws]
              | Raise _ => []
              end.
Proof.
  intros Hsvc Hws. cbn zeta. unfold Main.websocket_endpoint.
  rewrite Hsvc.
  destruct (ConnectionManager.connect ws (Main.connection_manager g)) as [m out] eqn:Ec.
  assert (ConnectionManager.disconnect ws m = Main.connection_manager g) as Hd
    by (by rewrite <- (disconnect_after_connect ws _ Hws), Ec).
  unfold ConnectionManager.connect in Ec. injection Ec as <- <-.
  destruct (StepService.get_all_steps repo svc) as [[steps|e] svc1]; cbn [fst snd raises].
  - unfold ConnectionManager.send_personal, ConnectionManager.send_text, attempt, up.
    destruct (down ws) as [e|] eqn:Edown; cbn [fst snd Main.connection_manager].
    + rewrite Hd, bool_decide_eq_false_2 by (by intros [_ ?]).
      rewrite bool_decide_eq_false_2 by done. by rewrite app_nil_r.
    + rewrite bool_decide_eq_true_2 by done.
      by rewrite bool_decide_eq_true_2 by done.
  - cbn [fst snd Main.connection_manager].
    rewrite Hd, bool_decide_eq_false_2 by (by intros [? _]). by rewrite app_nil_r.
Qed.

(** ** A file event in the running server *)

Lemma delete_known {R W CB : Type} `{!StepRepository R} `{!FileWatcher W}
    (repo : R) (fe : FileEvent) (s : StepService.t W CB) (tid : string) (st : Step) :
  event_type fe = DELETED ->
  StepService._extract_task_id_from_path (file_path fe) = Some tid ->
  StepService._steps_cache s !! tid = Some st ->
  StepService._handle_file_event repo fe s
  = (Ok ((fun cb => StepService.mkInvocation cb (event_value DELETED) (Some st))
           <$> StepService._callback s),
     StepService.set_cache (delete tid (StepService._steps_cache s)) s).
Proof.
  intros Hty Hid Hc. unfold StepService._handle_file_event.
  rewrite Hid, Hty, Hc. rewrite bool_decide_eq_true_2 by done.
  cbn. by destruct (StepService._callback s).
Qed.

(** X11 (StepService._handle_file_event, on_file_change,
    handle_step_update): in the started server, the deletion of the file
    of a cached step takes the step out of the cache and broadcasts one
    remove message with its id: the message is serialized once and sent
    to every registered client, and the clients whose send fails are
    dropped. *)
Theorem X11_delete_of_known_id `{!JsonCodec} (down : network)
    (repo : JsonFileRepository.t) (fe : FileEvent) (g : Main.t)
    (svc : Main.service) (tid : string) (st : Step) :
  Main.step_service g = Some svc ->
  StepService._callback svc = Some Main.on_file_change ->
  Main.main_event_loop g = Some true ->
  event_type fe = DELETED ->
  StepService._extract_task_id_from_path (file_path fe) = Some tid ->
  StepService._steps_cache svc !! tid = Some st ->
  let conns := ConnectionManager._active_connections (Main.connection_manager g) in
  Main.file_changed down repo fe g
  = (Ok tt,
     Main.mk (ConnectionManager.mk (filter (up down) conns))
       (Some (StepService.set_cache (delete tid (StepService._steps_cache svc)) svc))
       (Some true),
     Dumps (Main.remove_message st)
       :: map (attempt down (json_dumps (Main.remove_message st))) conns).
Proof.
  intros Hsvc Hcb Hloop Hty Hid Hc. cbn zeta. unfold Main.file_changed.
  rewrite Hsvc, (delete_known repo fe svc tid st Hty Hid Hc), Hcb.
  cbn [fmap option_fmap option_map]. unfold Main.on_file_change_.
  cbn [Main.main_event_loop Main.connection_manager Main.step_service].
  rewrite Hloop. unfold Main.handle_step_update. cbn [event_value].
  change (String.eqb "deleted" "deleted") with true. cbn match.
  by rewrite broadcast_pass.
Qed.

(** X12 (StepService._handle_file_event, on_file_change,
    handle_step_update): in the started server, a creation or a
    modification whose file the repository reads stores the step in the
    cache under the id of the path and broadcasts one update message with
    the step, in the same way. *)
Theorem X12_update_of_readable_step `{!JsonCodec} (down : network)
    (repo : JsonFileRepository.t) (fe : FileEvent) (g : Main.t)
    (svc : Main.service) (tid : string) (st : Step) :
  Main.step_service g = Some svc ->
  StepService._callback svc = Some Main.on_file_change ->
  Main.main_event_loop g = Some true ->
  event_type fe <> DELETED ->
  StepService._extract_task_id_from_path (file_path fe) = Some tid ->
  refresh repo tid = Ok (Some st) ->
  let conns := ConnectionManager._active_connections (Main.connection_manager g) in
  Main.file_changed down repo fe g
  = (Ok tt,
     Main.mk (ConnectionManager.mk (filter (up down) conns))
       (Some (StepService.set_cache (<[tid := st]> (StepService._steps_cache svc)) svc))
       (Some true),
     Dumps (Main.update_message st)
       :: map (attempt down (json_dumps (Main.update_message st))) conns).
Proof.
  intros Hsvc Hcb Hloop Hty Hid Hr. cbn zeta. unfold Main.file_changed.
  rewrite Hsvc, (refresh_some repo fe svc tid st Hty Hid Hr), Hcb.
  cbn [fmap option_fmap option_map]. unfold Main.on_file_change_.
  cbn [Main.main_event_loop Main.connection_manager Main.step_service].
  rewrite Hloop. unfold Main.handle_step_update.
  assert (String.eqb (event_value (event_type fe)) "deleted" = false) as ->
    by by destruct (event_type fe).
  by rewrite broadcast_pass.
Qed.

(** X13 (on_file_change): while no event loop is running, a file event
    still changes the cache of the service as [_handle_file_event] does,
    but nothing is serialized or sent and the list of clients stays as it
    is: the clients do not hear of the change. *)
Theorem X13_no_running_loop_no_broadcast `{!JsonCodec} (down : network)
    (repo : JsonFileRepository.t) (fe : FileEvent) (g : Main.t) :
  Main.main_event_loop g <> Some true ->
  let r := Main.file_changed down repo fe g in
  r.2 = []
  /\ Main.connection_manager r.1.2 = Main.connection_manager g
  /\ Main.step_service r.1.2
     = (fun svc => (StepService._handle_file_event repo fe svc).2)
         <$> Main.step_service g.
Proof.
  intros Hloop. cbn zeta. unfold Main.file_changed.
  destruct (Main.step_service g) as [svc|] eqn:Hsvc; [|by cbn; rewrite Hsvc].
  cbn [fmap option_fmap option_map].
  destruct (StepService._handle_file_event repo fe svc) as [[[[[] ty step]|]|e] svc1];
    try done.
  unfold Main.on_file_change_. cbn [Main.main_event_loop].
  by destruct (Main.main_event_loop g) as [[]|].
Qed.

(** ** Start-up and shutdown *)

(** X14 (lifespan, StepService.start_watching, WatchdogFileWatcher.start):
    the start-up of the server succeeds exactly when the folder exists
    and is a directory, the watcher is not running and [get_all] returns;
    the service is then watching with [on_file_change] as its callback,
    its cache is built from the steps read, and the event loop is stored.
    A missing folder ends the process before a service is made, and an
    exception of [get_all], such as the one a single file without fields
    causes, ends the start-up. *)
Theorem X14_startup (repo : JsonFileRepository.t) (w : WatchdogFileWatcher.t)
    (g : Main.t) :
  (forall g',
     Main.lifespan_startup repo w g = (Ok tt, g') <->
     WatchdogFileWatcher.folder_exists w = true
     /\ WatchdogFileWatcher.folder_is_dir w = true
     /\ WatchdogFileWatcher.is_running w = false
     /\ exists steps,
          JsonFileRepository.get_all repo = Ok steps
          /\ g' = Main.mk (Main.connection_manager g)
                    (Some (StepService.mk
                             (WatchdogFileWatcher.mk true true
                                (WatchdogFileWatcher._debounce_delay w) (Some true)
                                (Some (Debounce.init
                                         (WatchdogFileWatcher._debounce_delay w))))
                             (StepService.by_task_id steps)
                             (Some Main.on_file_change) true))
                    (Some true))
  /\ (WatchdogFileWatcher.folder_exists w = false ->
      Main.lifespan_startup repo w g
      = (Raise SystemExit,
         Main.mk (Main.connection_manager g) (Main.step_service g) (Some true)))
  /\ (forall e,
        WatchdogFileWatcher.folder_exists w = true ->
        JsonFileRepository.get_all repo = Raise e ->
        (Main.lifespan_startup repo w g).1 = Raise e).
Proof.
  unfold Main.lifespan_startup, StepService.start_watching,
    StepService._load_steps_into_cache, StepService.init, StepService.cache_empty.
  cbn [StepService._watching StepService._steps_cache StepService._file_watcher
       StepService._callback StepService.set_cache Main.connection_manager
       Main.main_event_loop Main.step_service get_all JsonFileRepository.repository
       start WatchdogFileWatcher.watcher].
  rewrite bool_decide_eq_true_2 by done.
  unfold WatchdogFileWatcher.start.
  split; [|split].
  - intros g'. destruct w as [ex dir delay obs hd]. cbn.
    destruct ex; cbn; [|split; [done|by intros (? & _)]].
    destruct (JsonFileRepository.get_all repo) as [steps|e]; cbn;
      [|split; [done|by intros (_ & _ & _ & steps & ? & _)]].
    destruct (WatchdogFileWatcher.is_running _) eqn:Er; cbn in *;
      [split; [done|by intros (_ & _ & ? & _)]|].
    destruct dir; cbn; [|split; [done|by intros (_ & ? & _)]].
    split.
    + intros [= <-]. repeat split. by exists steps.
    + by intros (_ & _ & _ & steps' & [= <-] & ->).
  - by intros ->.
  - intros e -> ->. done.
Qed.

(** X15 (WatchdogFileWatcher.start, WatchdogFileWatcher.stop,
    WatchdogFileWatcher.is_running): a watcher that is not running starts
    exactly when its folder exists and is a directory, and raises
    [FileNotFoundError] or [NotADirectoryError] otherwise. Started, it
    runs with a handler that has nothing pending, a second [start] raises
    [RuntimeError], and [stop] leaves it without observer and handler,
    where a further [stop] does nothing and [start] works again. *)
Theorem X15_watcher_start_stop (w : WatchdogFileWatcher.t) :
  WatchdogFileWatcher.is_running w = false ->
  match WatchdogFileWatcher.start w with
  | Ok w' =>
      WatchdogFileWatcher.folder_exists w = true
      /\ WatchdogFileWatcher.folder_is_dir w = true
      /\ WatchdogFileWatcher.is_running w' = true
      /\ WatchdogFileWatcher._handler w'
         = Some (Debounce.init (WatchdogFileWatcher._debounce_delay w))
      /\ WatchdogFileWatcher.start w' = Raise RuntimeError
      /\ exists w'',
           WatchdogFileWatcher.stop w' = Ok w''
           /\ WatchdogFileWatcher.is_running w'' = false
           /\ WatchdogFileWatcher._handler w'' = None
           /\ WatchdogFileWatcher.stop w'' = Ok w''
           /\ WatchdogFileWatcher.start w'' = Ok w'
  | Raise e =>
      (WatchdogFileWatcher.folder_exists w = false /\ e = FileNotFoundError)
      \/ (WatchdogFileWatcher.folder_exists w = true
          /\ WatchdogFileWatcher.folder_is_dir w = false /\ e = NotADirectoryError)
  end.
Proof.
  intros Hr. unfold WatchdogFileWatcher.start. rewrite Hr.
  destruct w as [[] [] delay obs hd]; cbn; try by auto.
  repeat split. eexists. repeat split.
Qed.

Section Lifecycle.
Context {R W CB : Type} `{!StepRepository R} `{!FileWatcher W}.
Implicit Types s : StepService.t W CB.

Lemma start_watching_Ok (repo : R) (cb : CB) s s1 :
  StepService.start_watching repo cb s = (Ok tt, s1) ->
  StepService._watching s = false
  /\ StepService._watching s1 = true
  /\ StepService._callback s1 = Some cb
  /\ start (StepService._file_watcher s) = Ok (StepService._file_watcher s1).
Proof.
  unfold StepService.start_watching, StepService._load_steps_into_cache.
  destruct (StepService._watching s); [done|].
  destruct (StepService.cache_empty s).
  - destruct (get_all repo) as [steps|e]; [|done]. cbn.
    destruct (start (StepService._file_watcher s)); [|done]. by intros [= <-].
  - cbn. destruct (start (StepService._file_watcher s)); [|done]. by intros [= <-].
Qed.

Lemma stop_watching_Ok s s2 :
  StepService._watching s = true ->
  StepService.stop_watching s = (Ok tt, s2) ->
  s2 = StepService.mk (StepService._file_watcher s2) (StepService._steps_cache s)
         None false
  /\ stop (StepService._file_watcher s) = Ok (StepService._file_watcher s2).
Proof.
  unfold StepService.stop_watching. intros ->. cbn.
  destruct (stop (StepService._file_watcher s)); [|done]. by intros [= <-].
Qed.

Lemma no_callback_no_invocation (repo : R) (fe : FileEvent) s (i : StepService.invocation CB) :
  StepService._callback s = None ->
  (StepService._handle_file_event repo fe s).1 <> Ok (Some i).
Proof.
  intros Hcb. unfold StepService._handle_file_event.
  destruct (StepService._extract_task_id_from_path _); [|done].
  destruct (bool_decide _); cbn; [by rewrite Hcb|].
  destruct (refresh repo s0) as [[st|]|e]; cbn; by rewrite ?Hcb.
Qed.

End Lifecycle.

(** X16 (StepService.start_watching, StepService.stop_watching,
    StepService._handle_file_event): a service that was started and then
    stopped is not watching, holds no callback and has kept its cache; a
    file event handed to it afterwards invokes no callback, and a further
    stop does nothing. *)
Theorem X16_stopped_service_is_silent {R W CB : Type}
    `{!StepRepository R} `{!FileWatcher W}
    (repo : R) (cb : CB) (s s1 s2 : StepService.t W CB) :
  StepService.start_watching repo cb s = (Ok tt, s1) ->
  StepService.stop_watching s1 = (Ok tt, s2) ->
  StepService._watching s2 = false
  /\ StepService._callback s2 = None
  /\ StepService._steps_cache s2 = StepService._steps_cache s1
  /\ (forall (repo' : R) fe i,
        (StepService._handle_file_event repo' fe s2).1 <> Ok (Some i))
  /\ StepService.stop_watching s2 = (Ok tt, s2).
Proof.
  intros (_ & Hw & _ & _)%start_watching_Ok Hstop.
  destruct (stop_watching_Ok _ _ Hw Hstop) as [E _].
  assert (StepService._watching s2 = false) as Hw2 by (by rewrite E).
  assert (StepService._callback s2 = None) as Hc2 by (by rewrite E).
  split; [done|]. split; [done|]. split; [by rewrite E|].
  split; [intros repo' fe i; by apply no_callback_no_invocation|].
  unfold StepService.stop_watching. by rewrite Hw2.
Qed.

(** ** The debouncer on any sequence of notifications *)

Lemma view_settled (delay T : nat) (path : string) (rest : list Debounce.notification) :
  forall (n0 : Debounce.notification) (log : list FileEvent),
    Forall (fun n => Debounce.src_path n = path) rest ->
    (view_elapse T
       (foldl (fun v n => view_notify delay path n v)
              (Some (timer_for delay n0), log) rest)).2
    = log ++ map event_for (settled delay T (n0 :: rest)).
Proof.
  induction rest as [|n1 rest IH]; intros n0 log F.
  - cbn [foldl settled].
    unfold view_elapse. cbn [fst snd timer_for Debounce.deadline].
    destruct (decide _); [reflexivity|]. cbn. by rewrite app_nil_r.
  - apply Forall_cons in F as [F1 F].
    cbn [foldl]. unfold view_notify at 2.
    unfold view_elapse at 2. cbn [fst snd timer_for Debounce.deadline].
    rewrite decide_True by done. cbn [settled].
    destruct (decide (Debounce.at_time n0 + delay <= Debounce.at_time n1)%nat).
    + cbn [snd]. rewrite IH by done. cbn [map]. by rewrite <- app_assoc.
    + cbn [snd]. by rewrite IH.
Qed.

Lemma settled_of_path (delay T : nat) (path : string) (l : list Debounce.notification) :
  Forall (fun n => Debounce.src_path n = path) l ->
  Forall (fun n => Debounce.src_path n = path) (settled delay T l).
Proof.
  induction l as [|n [|n' l] IH]; intros F; cbn [settled].
  - constructor.
  - destruct (decide _); [done|constructor].
  - apply Forall_cons in F as [F0 F].
    destruct (decide _); [apply Forall_cons|]; auto.
Qed.

Lemma settled_sublist (delay T : nat) (l : list Debounce.notification) :
  sublist (settled delay T l) l.
Proof.
  induction l as [|n [|n' l] IH]; cbn [settled].
  - constructor.
  - destruct (decide _); [done|by constructor].
  - destruct (decide _); by constructor.
Qed.

(** X17 (_DebouncedEventHandler._schedule_callback, fire_callback): what
    the debouncer hands on for a path is decided by the notifications for
    that path alone. A notification becomes an event exactly when the
    next one for the path comes no sooner than the delay after it, or,
    for the last one, when the delay has passed; the events keep the
    order and the kinds of these notifications, and there is none
    besides. *)
Theorem X17_debouncer_delivers_the_settled (delay : nat) (path : string)
    (ns : list Debounce.notification) (T : nat) :
  chronological 0 ns ->
  Forall (fun n => (Debounce.at_time n <= T)%nat) ns ->
  let mine := filter (fun n => Debounce.src_path n = path) ns in
  Debounce.delivered_for path (Debounce.elapse T (Debounce.run ns (Debounce.init delay)))
  = map event_for (settled delay T mine)
  /\ sublist (settled delay T mine) ns
  /\ Forall (fun e => file_path e = path) (map event_for (settled delay T mine)).
Proof.
  intros C B mine.
  assert (Forall (fun n => Debounce.src_path n = path) mine) as F.
  { apply Forall_forall. by intros n [? _]%list_elem_of_filter. }
  split; [|split].
  - rewrite debounce_independent by done. fold mine.
    rewrite delivered_as_view.
    destruct mine as [|n0 rest]; [done|].
    apply Forall_cons in F as [F0 F]. cbn [foldl].
    assert (view_notify delay path n0 (None, []) = (Some (timer_for delay n0), []))
      as -> by (unfold view_notify; by rewrite decide_True).
    by rewrite view_settled.
  - etrans; [apply settled_sublist|apply sublist_filter].
  - apply Forall_fmap. eapply Forall_impl; [by apply settled_of_path|]. done.
Qed.

Lemma run_timer_timers (i : nat) (h : Debounce.t) :
  (Debounce.threads (Debounce.run_timer i h)).*1 = (Debounce.threads h).*1.
Proof.
  unfold Debounce.run_timer.
  destruct (Debounce.threads h !! i) as [[tm []]|]; try done.
  rewrite fire_callback_del. cbn. apply finish_timers.
Qed.

Lemma elapse_timers (now : nat) (h : Debounce.t) :
  (Debounce.threads (Debounce.elapse now h)).*1 = (Debounce.threads h).*1.
Proof.
  unfold Debounce.elapse. generalize (Debounce.due now h) as timers. intros timers.
  revert h. induction timers as [|i timers IH]; intros h; [done|].
  cbn [foldl]. by rewrite IH, run_timer_timers.
Qed.

Lemma timers_from_notifications (delay : nat) (ns : list Debounce.notification) :
  well_formed (Debounce.run ns (Debounce.init delay))
  /\ Debounce._debounce_delay (Debounce.run ns (Debounce.init delay)) = delay
  /\ Forall (fun tm => exists n, n ∈ ns /\ tm = timer_for delay n)
       (Debounce.threads (Debounce.run ns (Debounce.init delay))).*1.
Proof.
  induction ns as [|n ns (WF & D & IH)] using rev_ind.
  { split; [apply well_formed_init|]. split; [done|]. constructor. }
  assert (Debounce.run (ns ++ [n]) (Debounce.init delay)
          = Debounce.notify n (Debounce.run ns (Debounce.init delay))) as ->
    by (unfold Debounce.run; by rewrite foldl_app).
  split; [by apply well_formed_notify|]. split; [by rewrite delay_notify|].
  unfold Debounce.notify.
  destruct (schedule_spec "" (Debounce.at_time n) (Debounce.src_path n)
              (Debounce.kind n) _
              (well_formed_elapse (Debounce.at_time n) _ WF))
    as (_ & _ & _ & -> & _).
  rewrite delay_elapse, D, elapse_timers. apply Forall_app. split.
  - eapply Forall_impl; [exact IH|]. intros tm (n' & Hn' & E).
    exists n'. split; [|done]. apply elem_of_app. by left.
  - apply Forall_singleton. exists n. split; [|done].
    apply elem_of_app. right. apply list_elem_of_here.
Qed.

(** X18 (_DebouncedEventHandler._pending_timers): whatever notifications
    have arrived and whatever the clock shows, the handler holds at most
    one pending timer for a path, stored under that path; each pending
    timer is running, was started by one of the notifications, for its
    path and kind and the delay of the handler, and is not due; and no
    timer is running besides the pending ones. *)
Theorem X18_pending_timers_invariant (delay : nat)
    (ns : list Debounce.notification) (T : nat) :
  let h := Debounce.elapse T (Debounce.run ns (Debounce.init delay)) in
  NoDup (Debounce._pending_timers h).*1
  /\ Forall (fun e => exists tm,
                        Debounce.threads h !! e.2 = Some (tm, false)
                        /\ Debounce.fn_path tm = e.1
                        /\ (T < Debounce.deadline tm)%nat
                        /\ exists n, n ∈ ns /\ tm = timer_for delay n)
       (Debounce._pending_timers h)
  /\ (forall i tm, Debounce.threads h !! i = Some (tm, false) ->
                   (Debounce.fn_path tm, i) ∈ Debounce._pending_timers h).
Proof.
  cbn zeta.
  destruct (timers_from_notifications delay ns) as (WF0 & _ & F).
  destruct (elapse_spec "" T _ WF0) as ((N & W2 & W3) & Th & _).
  split; [done|]. split.
  - apply Forall_forall. intros [p i] Hin. cbn [fst snd].
    destruct (W2 p i (get_of_entry _ _ _ N Hin)) as (tm & Hth & Hp).
    exists tm. split; [done|]. split; [done|].
    apply Th in Hth as Hth0. destruct Hth0 as [Hth0 Hd]. split; [done|].
    rewrite Forall_forall in F. apply F.
    apply list_elem_of_fmap. exists (tm, false). split; [done|].
    by eapply list_elem_of_lookup_2.
  - intros i tm Hth. by apply entry_of_get, W3.
Qed.

(** ** The filter of the watcher and the resolver of the service *)

Lemma last_filter_snoc {A : Type} (P : A -> Prop) `{!forall x, Decision (P x)}
    (l : list A) (x d : A) :
  P x -> List.last (filter P (l ++ [x])) d = x.
Proof.
  intros Hx. rewrite filter_app, filter_cons, decide_True by done.
  rewrite filter_nil. apply List.last_last.
Qed.

Lemma name_of_basename (path x : string) :
  StepService.basename path = x -> x <> "" -> x <> "." -> PurePath.name path = x.
Proof.
  unfold StepService.basename, PurePath.name. intros E H1 H2.
  destruct (split "/"%char path) as [|p ps] eqn:S; [by apply split_nonempty in S|].
  rewrite (List.app_removelast_last "" (l := p :: ps)) by done.
  rewrite E. by apply last_filter_snoc.
Qed.

Lemma rfind_absent (x : ascii) (s : string) :
  contains x s = false -> PurePath.rfind x s = -1.
Proof.
  induction s as [|c s IH]; [done|]. cbn [contains PurePath.rfind].
  destruct (Ascii.eqb c x); [done|]. intros H. by rewrite (IH H).
Qed.

Lemma accepted_id_plain (tid : string) :
  StepService.matches_task_id tid = true ->
  contains "."%char tid = false /\ tid <> "" /\ tid <> ".".
Proof.
  unfold StepService.matches_task_id.
  destruct tid as [|a [|b [|h [|c [|d [|e [|f r]]]]]]];
    cbn [list_ascii_of_string]; try done.
  - rewrite !andb_true_iff.
    intros ((((Da & Db) & ->%Ascii.eqb_eq) & Dc) & Dd).
    destruct (digit_range _ Da) as (_ & Ha & _).
    destruct (digit_range _ Db) as (_ & Hb & _).
    destruct (digit_range _ Dc) as (_ & Hc & _).
    destruct (digit_range _ Dd) as (_ & Hd & _).
    cbn [contains]. by rewrite Ha, Hb, Hc, Hd.
  - rewrite !andb_true_iff.
    intros (((((Da & Db) & ->%Ascii.eqb_eq) & Dc) & Dd) & ->%Ascii.eqb_eq).
    destruct (digit_range _ Da) as (_ & Ha & _).
    destruct (digit_range _ Db) as (_ & Hb & _).
    destruct (digit_range _ Dc) as (_ & Hc & _).
    destruct (digit_range _ Dd) as (_ & Hd & _).
    cbn [contains]. by rewrite Ha, Hb, Hc, Hd.
Qed.

Lemma not_json_without_dot (path : string) :
  contains "."%char (PurePath.name path) = false ->
  EventHandler._is_json_file path = false.
Proof.
  intros H. unfold EventHandler._is_json_file, PurePath.suffix.
  by rewrite (rfind_absent _ _ H).
Qed.

(** X19 (_DebouncedEventHandler._is_json_file,
    StepService._extract_task_id_from_path): a path that passes the
    filter of the watcher and that the service resolves to an id ends in
    the id followed by [.json]; the bare names the resolver accepts as
    well never come from the watcher. *)
Theorem X19_watched_and_resolved (path tid : string) :
  EventHandler._is_json_file path = true ->
  StepService._extract_task_id_from_path path = Some tid ->
  StepService.basename path = (tid ++ ".json")%string
  /\ PurePath.name path = (tid ++ ".json")%string.
Proof.
  intros J. unfold StepService._extract_task_id_from_path.
  destruct (JsonFileRepository.ends_with ".json" (StepService.basename path)) eqn:E.
  - destruct (StepService.matches_task_id _) eqn:M; [|done].
    intros [= <-]. apply ends_with_stem in E.
    set (stem := String.substring _ _ _) in *.
    split; [done|]. apply name_of_basename; [done| |].
    + destruct stem; by rewrite ?append_nil, ?append_cons.
    + destruct stem as [|? []]; by rewrite ?append_nil, ?append_cons.
  - destruct (StepService.matches_task_id _) eqn:M; [|done].
    intros [= <-]. exfalso.
    destruct (accepted_id_plain _ M) as (Hdot & Hne & Hnd).
    rewrite not_json_without_dot in J; [done|].
    by rewrite (name_of_basename path _ eq_refl Hne Hnd).
Qed.

Lemma name_join (dir nm : string) :
  contains "/"%char nm = false -> nm <> "" -> nm <> "." ->
  PurePath.name (dir ++ String "/"%char nm)%string = nm.
Proof. intros H H1 H2. apply name_of_basename; [by apply basename_join|done..]. Qed.

Lemma step_files_pass (dir tid : string) :
  is_NN_NN tid = true ->
  EventHandler._is_json_file (dir ++ "/" ++ tid ++ ".json") = true
  /\ EventHandler._is_json_file (dir ++ "/" ++ tid ++ ".JSON") = true
  /\ StepService._extract_task_id_from_path (dir ++ "/" ++ tid ++ ".JSON") = None
  /\ EventHandler._is_json_file (dir ++ "/" ++ tid) = false.
Proof.
  intros H.
  assert (StepService.matches_task_id tid = true) as M
    by (apply matches_task_id_shape; by left).
  destruct (accepted_id_plain _ M) as (Hdot & Hne & Hnd).
  unfold is_NN_NN in H.
  destruct tid as [|a [|b [|h [|c [|d [|e r]]]]]];
    cbn [list_ascii_of_string] in H; try done.
  revert H. rewrite !andb_true_iff.
  intros ((((Da & Db) & ->%Ascii.eqb_eq) & Dc) & Dd).
  destruct (digit_range _ Da) as (Ha & _).
  destruct (digit_range _ Db) as (Hb & _).
  destruct (digit_range _ Dc) as (Hc & _).
  destruct (digit_range _ Dd) as (Hd & _).
  change (dir ++ "/" ++ ?x)%string with (dir ++ String "/"%char x)%string.
  rewrite !append_cons, !append_nil.
  split; [|split; [|split]].
  - unfold EventHandler._is_json_file, PurePath.suffix.
    rewrite name_join; [reflexivity| |done|done].
    cbn [contains]. by rewrite Ha, Hb, Hc, Hd.
  - unfold EventHandler._is_json_file, PurePath.suffix.
    rewrite name_join; [reflexivity| |done|done].
    cbn [contains]. by rewrite Ha, Hb, Hc, Hd.
  - unfold StepService._extract_task_id_from_path.
    rewrite basename_join; [reflexivity|].
    cbn [contains]. by rewrite Ha, Hb, Hc, Hd.
  - apply not_json_without_dot. rewrite name_join; [done| |done|done].
    cbn [contains]. by rewrite Ha, Hb, Hc, Hd.
Qed.

(** X20 (_DebouncedEventHandler._is_json_file): the filter of the
    watcher lets the file of every step through, in whatever directory,
    and holds back a path that ends in the bare id. It also lets through
    the file whose extension is written in capital letters, which the
    service then resolves to no id. *)
Theorem X20_step_files_pass_the_filter (dir tid : string) :
  is_NN_NN tid = true ->
  EventHandler._is_json_file (dir ++ "/" ++ tid ++ ".json") = true
  /\ EventHandler._is_json_file (dir ++ "/" ++ tid ++ ".JSON") = true
  /\ StepService._extract_task_id_from_path (dir ++ "/" ++ tid ++ ".JSON") = None
  /\ EventHandler._is_json_file (dir ++ "/" ++ tid) = false.
Proof. apply step_files_pass. Qed.

(** ** What the handler makes of the events of the observer *)

Lemma dispatch_cases (o : observed) (h : Debounce.t) :
  (passes o
   /\ dispatch o h
      = Debounce._schedule_callback (observed_at o)
          (EventHandler.src_path (observed_event o)) (observed_kind o)
          (Debounce.elapse (observed_at o) h))
  \/ (~ passes o /\ dispatch o h = Debounce.elapse (observed_at o) h).
Proof.
  unfold passes, dispatch, EventHandler.on_created, EventHandler.on_modified,
    EventHandler.on_deleted.
  destruct (EventHandler.is_directory (observed_event o)).
  { right. split; [by intros [? _]|]. by destruct (observed_kind o). }
  destruct (EventHandler._is_json_file _).
  - left. split; [done|]. by destruct (observed_kind o).
  - right. split; [by intros [_ ?]|]. by destruct (observed_kind o).
Qed.

Lemma from_observed_run_timer (os : list observed) (i : nat) (h : Debounce.t) :
  from_observed os h -> from_observed os (Debounce.run_timer i h).
Proof.
  intros [D P]. unfold Debounce.run_timer.
  destruct (Debounce.threads h !! i) as [[tm []]|] eqn:Hi; try done.
  rewrite fire_callback_del. split; cbn.
  - apply Forall_app. split; [done|]. apply Forall_singleton.
    rewrite Forall_forall in P.
    apply (P (tm, false)). by eapply list_elem_of_lookup_2.
  - apply Forall_alter; [done|]. by intros [tm' b] _ ?.
Qed.

Lemma from_observed_elapse (os : list observed) (T : nat) (h : Debounce.t) :
  from_observed os h -> from_observed os (Debounce.elapse T h).
Proof.
  unfold Debounce.elapse. generalize (Debounce.due T h) as timers. intros timers.
  revert h. induction timers as [|i timers IH]; intros h I; [done|].
  cbn [foldl]. by apply IH, from_observed_run_timer.
Qed.

Lemma from_observed_more (os : list observed) (o : observed) (h : Debounce.t) :
  from_observed os h -> from_observed (os ++ [o]) h.
Proof.
  intros [D P]. split.
  - eapply Forall_impl; [exact D|]. intros e (o' & Hin & Hp & E).
    exists o'. split; [apply elem_of_app; by left|done].
  - eapply Forall_impl; [exact P|]. intros e (o' & Hin & Hp & E).
    exists o'. split; [apply elem_of_app; by left|done].
Qed.

Lemma from_observed_dispatch (os : list observed) (o : observed) (h : Debounce.t) :
  from_observed os h -> from_observed (os ++ [o]) (dispatch o h).
Proof.
  intros I. apply (from_observed_elapse _ (observed_at o)) in I.
  apply (from_observed_more _ o) in I.
  destruct (dispatch_cases o h) as [[Hp ->]|[_ ->]]; [|done].
  destruct I as [D P].
  unfold Debounce._schedule_callback, Debounce._cancel_pending_timer.
  assert (exists o', o' ∈ os ++ [o] /\ passes o'
                     /\ mkFileEvent (observed_kind o)
                          (EventHandler.src_path (observed_event o)) = settles_as o')
    as New.
  { exists o. split; [|done]. apply elem_of_app. right. apply list_elem_of_here. }
  destruct (Dict.get _ _); split; cbn; try done.
  - apply Forall_app. split; [|by apply Forall_singleton].
    apply Forall_alter; [done|]. by intros [tm' b] _ ?.
  - apply Forall_app. split; [done|]. by apply Forall_singleton.
Qed.

(** X21 (_DebouncedEventHandler.on_created, on_modified, on_deleted):
    whatever the observer reports and whenever, every event the handler
    hands to its callback has the path and the kind of a reported event
    that was not for a directory and whose path has the suffix [.json],
    in small or capital letters. *)
Theorem X21_only_json_files_are_handed_on (delay : nat) (os : list observed)
    (T : nat) :
  Forall (fun e => exists o, o ∈ os /\ passes o /\ e = settles_as o)
    (Debounce.delivered
       (Debounce.elapse T (foldl (fun h o => dispatch o h) (Debounce.init delay) os))).
Proof.
  apply from_observed_elapse.
  induction os as [|o os IH] using rev_ind; [by split; constructor|].
  rewrite foldl_app. cbn [foldl]. by apply from_observed_dispatch.
Qed.

(** ** The emulator and the files it writes *)

Lemma phase_loop_indep (n n' major : Z) (phase : string) (descriptions : list string)
    (indices : list nat) :
  forall (steps : list pyval) (minor : Z),
    Z.of_nat (length steps + length indices) <= n ->
    Z.of_nat (length steps + length indices) <= n' ->
    Emulator.phase_loop n major phase descriptions indices steps minor
    = Emulator.phase_loop n' major phase descriptions indices steps minor.
Proof.
  induction indices as [|i rest IH]; intros steps minor Hn Hn'; [done|].
  cbn [Emulator.phase_loop length] in *.
  rewrite !Z.geb_leb.
  rewrite (proj2 (Z.leb_gt n _)) by lia.
  rewrite (proj2 (Z.leb_gt n' _)) by lia.
  apply IH; rewrite length_app; cbn; lia.
Qed.

Lemma phase_loop_length (n major : Z) (phase : string) (descriptions : list string)
    (indices : list nat) :
  forall (steps : list pyval) (minor : Z),
    (length (Emulator.phase_loop n major phase descriptions indices steps minor).1
     <= length steps + length indices)%nat.
Proof.
  induction indices as [|i rest IH]; intros steps minor; cbn [Emulator.phase_loop length].
  - cbn. lia.
  - destruct (_ >=? _); [cbn; lia|].
    etrans; [apply IH|]. rewrite length_app. cbn. lia.
Qed.

Lemma phase_steps_length (n : Z) (st : list pyval * Z) (phase : string) :
  (length (Emulator.phase_steps n st phase).1
   <= length st.1 + length (Emulator.descriptions_of phase Emulator.DESCRIPTIONS))%nat.
Proof.
  unfold Emulator.phase_steps. destruct st as [steps major].
  pose proof (phase_loop_length n major phase
                (Emulator.descriptions_of phase Emulator.DESCRIPTIONS)
                (seq 0 (Z.to_nat
                          (Z.min (Z.of_nat (length (Emulator.descriptions_of phase
                                                      Emulator.DESCRIPTIONS)))
                             (n / Z.of_nat (length Emulator.PHASES) + 1))))
                steps 1) as L.
  destruct (Emulator.phase_loop _ _ _ _ _ _ _) as [steps' minor'].
  rewrite length_seq in L. cbn in *. lia.
Qed.

Lemma phase_steps_indep (n n' : Z) (st : list pyval * Z) (phase : string) :
  let k := Z.of_nat (length (Emulator.descriptions_of phase Emulator.DESCRIPTIONS)) in
  k <= n / 5 + 1 -> k <= n' / 5 + 1 ->
  Z.of_nat (length st.1) + k <= n -> Z.of_nat (length st.1) + k <= n' ->
  Emulator.phase_steps n st phase = Emulator.phase_steps n' st phase.
Proof.
  intros k H1 H2 H3 H4. unfold Emulator.phase_steps. destruct st as [steps major].
  change (Z.of_nat (length Emulator.PHASES)) with 5. fold k. cbn [fst] in *.
  rewrite !Z.min_l by done.
  rewrite (phase_loop_indep n n'); [done| |]; rewrite length_seq; lia.
Qed.

Lemma generate_loop_indep (n n' : Z) (phases : list string) :
  forall st : list pyval * Z,
    Forall (fun ph =>
              let k := Z.of_nat (length (Emulator.descriptions_of ph Emulator.DESCRIPTIONS)) in
              k <= n / 5 + 1 /\ k <= n' / 5 + 1) phases ->
    let total :=
      Z.of_nat (length st.1
                + sum_list (map (fun ph => length (Emulator.descriptions_of ph
                                                     Emulator.DESCRIPTIONS)) phases)) in
    total <= n -> total <= n' ->
    foldl (Emulator.phase_steps n) st phases = foldl (Emulator.phase_steps n') st phases.
Proof.
  induction phases as [|ph phases IH]; intros st F total Hn Hn'; [done|].
  apply Forall_cons in F as [[F1 F2] F]. cbn [foldl].
  subst total. cbn [map sum_list sum_list_with id] in *.
  cbn zeta in F1, F2.
  rewrite (phase_steps_indep n n') by (cbn zeta; lia).
  pose proof (phase_steps_length n' st ph).
  apply IH; [done|lia|lia].
Qed.

Lemma generate_steps_capped (n : Z) :
  21 <= n -> Emulator.generate_steps n = Emulator.generate_steps 21.
Proof.
  intros H. unfold Emulator.generate_steps.
  rewrite (generate_loop_indep n 21).
  - set (l := (foldl (Emulator.phase_steps 21) ([], 1) Emulator.PHASES).1).
    assert (length l = 21%nat) as L by (by vm_compute).
    unfold Emulator.slice_to.
    rewrite (proj2 (Z.leb_le 0 n)) by lia. cbn [Z.leb Z.compare].
    rewrite !take_ge; [done| |]; lia.
  - assert (4 <= n / 5) by (apply Z.div_le_lower_bound; lia).
    unfold Emulator.PHASES.
    repeat (apply Forall_cons_2; [split; [cbn; lia|by vm_compute]|]).
    apply Forall_nil_2.
  - cbn. lia.
  - cbn. lia.
Qed.

Lemma phase_loop_nothing (n major : Z) (phase : string) (descriptions : list string)
    (indices : list nat) (minor : Z) :
  n <= 0 ->
  (Emulator.phase_loop n major phase descriptions indices [] minor).1 = [].
Proof.
  intros H. destruct indices as [|i rest]; [done|]. cbn [Emulator.phase_loop length].
  rewrite Z.geb_leb, (proj2 (Z.leb_le n _)); [done|]. cbn. lia.
Qed.

Lemma generate_steps_nothing (n : Z) : n <= 0 -> Emulator.generate_steps n = [].
Proof.
  intros H. unfold Emulator.generate_steps.
  assert (forall phases major,
            (foldl (Emulator.phase_steps n) ([], major) phases).1 = []) as E.
  { induction phases as [|ph phases IH]; intros major; [done|]. cbn [foldl].
    unfold Emulator.phase_steps at 2.
    pose proof (phase_loop_nothing n major ph
                  (Emulator.descriptions_of ph Emulator.DESCRIPTIONS)
                  (seq 0 (Z.to_nat
                            (Z.min (Z.of_nat (length (Emulator.descriptions_of ph
                                                        Emulator.DESCRIPTIONS)))
                               (n / Z.of_nat (length Emulator.PHASES) + 1))))
                  1 H) as L.
    destruct (Emulator.phase_loop _ _ _ _ _ _ _) as [steps' minor'].
    cbn in L. subst steps'. apply IH. }
  rewrite E. unfold Emulator.slice_to. by destruct (0 <=? n); rewrite take_nil.
Qed.

Lemma generated_list_ok_spec (n : Z) (steps : list pyval) :
  generated_list_ok n steps = true ->
  length steps = Z.to_nat (Z.min n 21)
  /\ Forall (fun s => generated_ok s = true) steps
  /\ NoDup (omap generated_id steps).
Proof.
  unfold generated_list_ok. rewrite !andb_true_iff.
  intros [[L%bool_decide_eq_true F] N%bool_decide_eq_true].
  split; [done|]. split; [|done].
  apply Forall_forall. intros s Hs. rewrite forallb_forall in F.
  apply F. by apply list_elem_of_In.
Qed.

Lemma generate_steps_ok (n : Z) :
  generated_list_ok n (Emulator.generate_steps n) = true.
Proof.
  destruct (Z.le_gt_cases n 0) as [H|H].
  { rewrite generate_steps_nothing by done. unfold generated_list_ok.
    rewrite bool_decide_eq_true_2; [done|]. cbn. lia. }
  destruct (Z.le_gt_cases 21 n) as [H'|H'].
  { rewrite generate_steps_capped by done. unfold generated_list_ok.
    rewrite (bool_decide_eq_true_2 (_ = _)); [by vm_compute|].
    rewrite Z.min_r by done. by vm_compute. }
  assert (n = 1 \/ n = 2 \/ n = 3 \/ n = 4 \/ n = 5 \/ n = 6 \/ n = 7 \/ n = 8
          \/ n = 9 \/ n = 10 \/ n = 11 \/ n = 12 \/ n = 13 \/ n = 14 \/ n = 15
          \/ n = 16 \/ n = 17 \/ n = 18 \/ n = 19 \/ n = 20) as C by lia.
  repeat (destruct C as [->|C]; [by vm_compute|]). subst n. by vm_compute.
Qed.

(** X22 (generate_steps): [generate_steps] returns as many step
    definitions as it is asked for, but never more than the 21 that the
    descriptions of the five phases allow, and none for a count of zero
    or less. Each has an id of the form NN-NN, a phase of [PHASES] and a
    description of that phase, and no two have the same id. *)
Theorem X22_generate_steps (num_steps : Z) :
  let steps := Emulator.generate_steps num_steps in
  length steps = Z.to_nat (Z.min num_steps 21)
  /\ Forall (fun s => generated_ok s = true) steps
  /\ NoDup (omap generated_id steps)
  /\ all_descriptions = 21%nat.
Proof.
  cbn zeta. pose proof (generated_list_ok_spec _ _ (generate_steps_ok num_steps))
    as (L & F & N).
  by repeat split.
Qed.

Lemma lookup_set (k k' : string) (v : pyval) (d : list (string * pyval)) :
  dict_lookup k' (Dict.set k v d)
  = if String.eqb k' k then Some v else dict_lookup k' d.
Proof.
  induction d as [|[k0 v0] d IH]; cbn [Dict.set dict_lookup fst].
  - rewrite (String.eqb_sym k k'). by destruct (String.eqb k' k).
  - destruct (String.eqb_spec k0 k) as [->|E0]; cbn [dict_lookup].
    + rewrite (String.eqb_sym k k'). by destruct (String.eqb k' k).
    + rewrite IH. destruct (String.eqb_spec k0 k') as [->|E1]; [|done].
      by rewrite (proj2 (String.eqb_neq k' k)).
Qed.

Lemma prefix_dot_digit (c : ascii) (s : string) :
  is_digit c = true -> String.prefix "." (String c s) = false.
Proof.
  intros (_ & H & _)%digit_range. cbn [String.prefix].
  destruct (ascii_dec "." c) as [<-|_]; [done|done].
Qed.

Lemma emulator_file_read (dir tid pid ph d status : string)
    (st : StepStatus) :
  is_NN_NN tid = true ->
  StepStatus_of (PStr status) = Ok st ->
  let name := (Emulator.create_step_file tid pid ph d status).1 in
  let data := (Emulator.create_step_file tid pid ph d status).2 in
  JsonFileRepository.ends_with ".json" name = true
  /\ String.prefix "." name = false
  /\ EventHandler._is_json_file (dir ++ "/" ++ name) = true
  /\ StepService._extract_task_id_from_path (dir ++ "/" ++ name) = Some tid
  /\ exists major minor,
       from_dict data = Ok (mkStep tid (PStr pid) (PStr ph) (PStr d) st major minor)
       /\ 0 <= major <= 99 /\ 0 <= minor <= 99.
Proof.
  intros H Hst. cbn zeta. cbn [Emulator.create_step_file fst snd].
  destruct (step_files_pass dir tid H) as (J & _).
  destruct (path_resolves dir tid H) as (P & _).
  assert (StepService.matches_task_id tid = true) as M
    by (apply matches_task_id_shape; by left).
  destruct (accepted_id_constructs tid M) as (major & minor & Hmaj & Hmin & C).
  split; [|split; [|split; [done|split; [done|]]]].
  - unfold is_NN_NN in H.
    by destruct tid as [|a [|b [|h [|c [|e [|f r]]]]]].
  - unfold is_NN_NN in H.
    destruct tid as [|a [|b [|h [|c [|e [|f r]]]]]];
      cbn [list_ascii_of_string] in H; try done.
    rewrite !andb_true_iff in H. destruct H as ((((Da & _) & _) & _) & _).
    rewrite append_cons. by apply prefix_dot_digit.
  - exists major, minor. split; [|done].
    unfold from_dict. cbn [get getitem dict_lookup String.eqb Ascii.eqb Bool.eqb
                             default from_option id mbind result_bind].
    rewrite Hst. cbn [mbind result_bind]. apply C.
Qed.

(** X23 (create_step_file): the file the emulator writes for an id of
    the form NN-NN, with a status that is the value of a member of
    [StepStatus], is one the backend takes up: its name is matched by the
    pattern of [get_all], its path passes the filter of the watcher and
    resolves to the id, and [from_dict] makes of its content the step
    with the fields and the status given. *)
Theorem X23_emulator_files_reach_the_backend (dir tid pid ph d status : string)
    (st : StepStatus) :
  is_NN_NN tid = true ->
  StepStatus_of (PStr status) = Ok st ->
  let name := (Emulator.create_step_file tid pid ph d status).1 in
  let data := (Emulator.create_step_file tid pid ph d status).2 in
  JsonFileRepository.ends_with ".json" name = true
  /\ String.prefix "." name = false
  /\ EventHandler._is_json_file (dir ++ "/" ++ name) = true
  /\ StepService._extract_task_id_from_path (dir ++ "/" ++ name) = Some tid
  /\ exists major minor,
       from_dict data = Ok (mkStep tid (PStr pid) (PStr ph) (PStr d) st major minor)
       /\ 0 <= major <= 99 /\ 0 <= minor <= 99.
Proof. apply emulator_file_read. Qed.

(** X24 (update_step_status): on a file that the backend reads as a
    step, [update_step_status] with the value of a member of
    [StepStatus] either writes a file that the backend reads as the same
    step with the new status, or, where the file has no status of its
    own and the backend takes the step for pending, raises [KeyError]
    and writes nothing. *)
Theorem X24_update_changes_the_status_only (data : pyval) (s : Step)
    (new_status : string) (st : StepStatus) :
  from_dict data = Ok s ->
  StepStatus_of (PStr new_status) = Ok st ->
  match Emulator.update_step_status data new_status with
  | (Some data', Ok _) => from_dict data' = Ok (with_status st s)
  | (Some _, Raise _) => False
  | (None, r) =>
      r = Raise KeyError /\ status s = PENDING
      /\ (getitem data "validation" = Raise KeyError
          \/ exists validation,
               getitem data "validation" = Ok validation
               /\ getitem validation "status" = Raise KeyError)
  end.
Proof.
  intros F Hst.
  pose proof F as (validation & Ev & Es & Et & Ep & Eph & Ed & G)%from_dict_Ok.
  apply StepStatus_of_value in Hst as [= ->].
  destruct data as [| | | | | |d]; try done. cbn [get] in Ev.
  unfold Emulator.update_step_status. cbn [getitem].
  destruct (dict_lookup "validation" d) as [v|] eqn:Ev'; cbn [mbind result_bind].
  2:{ cbn in Ev. injection Ev as <-. cbn in Es. injection Es as E.
      split; [done|]. split; [by destruct (status s)|]. by left. }
  cbn in Ev. injection Ev as ->.
  destruct validation as [| | | | | |vd]; try done. cbn [get getitem] in *.
  destruct (dict_lookup "status" vd) as [old|] eqn:Es'; cbn [mbind result_bind].
  2:{ cbn in Es. injection Es as E.
      split; [done|]. split; [by destruct (status s)|].
      right. exists (PDict vd). cbn. by rewrite Es'. }
  cbn in Es. injection Es as ->.
  cbn [Emulator.setitem mbind result_bind].
  apply from_dict_Ok. exists (PDict (Dict.set "status" (PStr (status_value st)) vd)).
  cbn [get getitem with_status task_id project_id phase description status
       major_version minor_version].
  rewrite !lookup_set. cbn [String.eqb Ascii.eqb Bool.eqb default from_option id].
  repeat split; done.
Qed.




(** * The properties at concrete inputs *)

#[local] Existing Instance Examples.codec.

(** C1: the code does not keep the claim. The server is started on an
    empty folder; the file 02-01.json, an object without the required
    fields, is put in the folder, and its file event raises in the handler
    and changes nothing; then client 7 connects. The connection is
    accepted, [get_all_steps] finds the cache empty, reads the folder and
    raises the [AttributeError] that the reader of step files lets
    through, and the endpoint drops the client: it is sent no init
    message and receives no transition. On the empty folder the same
    connection is sent the init message, as the docstring of the endpoint
    says of every connection. *)
Theorem C1_no_init_when_snapshot_read_raises :
  let started := Main.lifespan_startup empty_folder Examples.watcher Main.init in
  let created := mkFileEvent CREATED "/steps/02-01.json" in
  let whole :=
    Main.run [ (Examples.all_up, Main.FileChanges folder_of_no_fields created);
               (Examples.all_up, Main.ClientConnects folder_of_no_fields 7%nat) ]
      started.2 in
  started.1 = Ok tt
  /\ Main.file_changed Examples.all_up folder_of_no_fields created started.2
     = (Raise AttributeError, started.2, [])
  /\ whole.2 = [Accept 7%nat]
  /\ sends_to 7%nat whole.2 = []
  /\ registrations 7%nat whole.1 = []
  /\ sends_to 7%nat
       (Main.websocket_endpoint Examples.all_up empty_folder 7%nat started.2).2
     = [json_dumps (Main.init_message [])].
Proof. repeat split; by vm_compute. Qed.

(** A run in which the snapshot is read: client 7 connects to the started
    server after a step was completed, and stays while client 8 comes and
    goes. *)
Lemma init_then_transitions_at_a_run :
  let steps := StepService.cached_steps service_at_connect in
  let connected :=
    (Main.step Examples.all_up (Main.ClientConnects Examples.folder_completed 7%nat)
       (Main.run before_connect Examples.started).1).1 in
  let whole :=
    Main.run (before_connect
                ++ (Examples.all_up, Main.ClientConnects Examples.folder_completed 7%nat)
                   :: after_connect) Examples.started in
  steps = StepService.cached_steps service_at_connect
  /\ sends_to 7%nat whole.2
     = json_dumps (Main.init_message steps)
       :: map json_dumps (transitions (Main.run after_connect connected).2)
  /\ registrations 7%nat whole.1 = [7%nat].
Proof.
  apply (init_then_transitions Examples.started before_connect after_connect
           Examples.all_up Examples.folder_completed 7%nat
           service_at_connect service_at_connect
           (StepService.cached_steps service_at_connect)).
  - reflexivity.
  - repeat constructor; cbn; discriminate.
  - repeat constructor.
  - reflexivity.
  - by vm_compute.
  - by vm_compute.
Qed.

(** C4 at a concrete burst: three notifications for one file, 50 and 70
    ticks apart with a quiet period of 100, and one for another file in
    between. *)
Lemma C4_witness :
  let a0 := Debounce.mkNotification 0 "/steps/01-01.json" CREATED in
  let b0 := Debounce.mkNotification 30 "/steps/01-02.json" MODIFIED in
  let a1 := Debounce.mkNotification 50 "/steps/01-01.json" MODIFIED in
  let a2 := Debounce.mkNotification 120 "/steps/01-01.json" DELETED in
  Debounce.delivered_for "/steps/01-01.json"
    (Debounce.elapse 300 (Debounce.run [a0; b0; a1; a2] (Debounce.init 100)))
  = [mkFileEvent DELETED "/steps/01-01.json"]
  /\ Debounce.delivered_for "/steps/01-01.json"
       (Debounce.elapse 300 (Debounce.run [a0; b0; a1; a2] (Debounce.init 100)))
     = Debounce.delivered_for "/steps/01-01.json"
         (Debounce.elapse 300 (Debounce.run [a0; a1; a2] (Debounce.init 100))).
Proof.
  intros a0 b0 a1 a2.
  apply (C4_one_callback_per_burst 100 "/steps/01-01.json" [a0; b0; a1; a2]
           a0 [a1; a2] 300).
  - cbn. lia.
  - reflexivity.
  - cbn. lia.
  - repeat constructor; cbn; lia.
  - cbn. lia.
Defined.

(** C6 at a concrete event: the file 09-09.json, never seen, is deleted. *)
Lemma C6_witness :
  Main.file_changed Examples.all_up Examples.folder Examples.deleted_unknown
    Examples.started = (Ok tt, Examples.started, []).
Proof.
  apply (C6_delete_of_unknown_id Examples.all_up Examples.folder
           Examples.deleted_unknown Examples.started Examples.started_service
           "09-09"); by vm_compute.
Defined.

(** C7 at a concrete event: the file 01-01.json, completed, is modified. *)
Lemma C7_witness :
  let first := StepService._handle_file_event Examples.folder_completed
                 Examples.modified_known Examples.started_service in
  let second := StepService._handle_file_event Examples.folder_completed
                  Examples.modified_known first.2 in
  StepService._steps_cache first.2 !! "01-01"
    = Some (mkStep "01-01" (PStr "demo") (PStr "design") (PStr "Test step")
              COMPLETED 1 1)
  /\ second = first.
Proof.
  apply (C7_same_event_twice Examples.folder_completed Examples.modified_known
           Examples.started_service "01-01").
  - discriminate.
  - reflexivity.
  - reflexivity.
Defined.

(** C8 at the started service and at a fresh one. *)
Lemma C8_witness :
  StepService.start_watching Examples.folder Main.on_file_change
    Examples.started_service = (Raise RuntimeError, Examples.started_service)
  /\ data_error RuntimeError = false
  /\ StepService.stop_watching (StepService.init (CB := Main.callback) Examples.watcher)
     = (Ok tt, StepService.init Examples.watcher).
Proof.
  apply (C8_start_twice_stop_stopped Examples.folder Main.on_file_change
           Examples.started_service (StepService.init Examples.watcher));
    reflexivity.
Defined.

(** C9 at a concrete event: 09-09.json is created and no file holds a
    step with that id. *)
Lemma C9_witness :
  StepService._handle_file_event Examples.folder Examples.created_unknown
    Examples.started_service
  = (Ok (Some (StepService.mkInvocation Main.on_file_change "created" None)),
     Examples.started_service)
  /\ forall down ty m, Main.handle_step_update down ty None m = (m, []).
Proof.
  apply (C9_callback_called_with_none Examples.folder Examples.created_unknown
           Examples.started_service Main.on_file_change "09-09").
  - reflexivity.
  - reflexivity.
  - right. split; [discriminate | reflexivity].
Defined.

Lemma X1_witness :
  is_NN_NN "03-07" = true
  /\ StepService._extract_task_id_from_path "/data/steps/03-07.json" = Some "03-07"
  /\ StepService._extract_task_id_from_path "/data/steps/03-07" = Some "03-07"
  /\ StepService._extract_task_id_from_path "03-07.json" = Some "03-07".
Proof.
  split; [reflexivity|].
  apply (X1_path_resolves_to_its_id "/data/steps" "03-07"). reflexivity.
Defined.

Lemma X2_witness :
  StepService._extract_task_id_from_path "/steps/12-05.json" = Some "12-05"
  /\ (StepService.basename "/steps/12-05.json" = "12-05"
      \/ StepService.basename "/steps/12-05.json" = "12-05.json")
  /\ (is_NN_NN "12-05" = true
      \/ exists nn, is_NN_NN nn = true /\ "12-05" = (nn ++ String "010"%char "")%string)
  /\ forall pid ph descr st,
       Step_init (PStr "12-05") pid ph descr st
       = Ok (mkStep "12-05" pid ph descr st 12 5).
Proof.
  split; [reflexivity|].
  destruct (X2_resolved_id_constructs "/steps/12-05.json" "12-05" eq_refl)
    as (Hb & Hn & a & b & c & d & tail & E & _ & _ & _ & _ & _ & _ & _ & Hs).
  split; [exact Hb|]. split; [exact Hn|].
  injection E as <- <- <- <- <-. exact Hs.
Defined.

Lemma X4_witness :
  from_dict (step_data "+3-07" "failed")
  = Ok (mkStep "+3-07" (PStr "demo") (PStr "design") (PStr "Test step") FAILED 3 7)
  /\ 0 <= 3 /\ 0 <= 7.
Proof.
  split; [reflexivity|].
  apply (X4_versions_not_negative (step_data "+3-07" "failed")
           (mkStep "+3-07" (PStr "demo") (PStr "design") (PStr "Test step") FAILED 3 7)).
  reflexivity.
Defined.


Lemma X8_witness :
  let s := service_after Examples.watcher
             [StartWatching Examples.folder Main.on_file_change] in
  let steps := [mkStep "01-01" (PStr "demo") (PStr "design") (PStr "Test step")
                  PENDING 1 1] in
  StepService.get_all_steps Examples.folder_completed s = (Ok steps, s)
  /\ NoDup (task_id <$> steps)
  /\ (forall st, st ∈ steps <-> StepService._steps_cache s !! task_id st = Some st)
  /\ (steps <> [] ->
      forall repo' : JsonFileRepository.t,
        StepService.get_all_steps repo' s = (Ok steps, s)).
Proof.
  intros s steps.
  assert (StepService.get_all_steps Examples.folder_completed s = (Ok steps, s)) as E
    by (vm_compute; reflexivity).
  split; [exact E|].
  apply (X8_get_all_steps_serves_the_cache Examples.watcher
           [StartWatching Examples.folder Main.on_file_change]
           Examples.folder_completed steps s E).
Defined.

Lemma X10_witness :
  let g := Examples.started in
  let r := Main.websocket_endpoint Examples.all_up Examples.folder 7%nat g in
  let snapshot := (StepService.get_all_steps Examples.folder Examples.started_service).1 in
  Main.step_service g = Some Examples.started_service
  /\ (7%nat ∉ ConnectionManager._active_connections (Main.connection_manager g))
  /\ ConnectionManager._active_connections (Main.connection_manager r.1)
     = ConnectionManager._active_connections (Main.connection_manager g)
       ++ (if bool_decide (raises snapshot = false /\ Examples.all_up 7%nat = None)
           then [7%nat] else [])
  /\ r.2 = Accept 7%nat
           :: match snapshot with
              | Ok steps =>
                  [Dumps (Main.init_message steps);
                   attempt Examples.all_up (json_dumps (Main.init_message steps)) 7%nat]
              | Raise _ => []
              end.
Proof.
  assert (Main.step_service Examples.started = Some Examples.started_service) as Hs
    by reflexivity.
  assert (7%nat ∉ ConnectionManager._active_connections
                    (Main.connection_manager Examples.started)) as Hw
    by (vm_compute; apply not_elem_of_nil).
  split; [exact Hs|]. split; [exact Hw|].
  apply (X10_registered_iff_init_delivered Examples.all_up Examples.folder 7%nat
           Examples.started Examples.started_service Hs Hw).
Defined.

Lemma X11_witness :
  let g := Main.mk (ConnectionManager.mk [7%nat; 8%nat])
             (Some Examples.started_service) (Some true) in
  let fe := mkFileEvent DELETED "/steps/01-01.json" in
  let st := mkStep "01-01" (PStr "demo") (PStr "design") (PStr "Test step")
              PENDING 1 1 in
  let down : network := fun ws => if bool_decide (ws = 8%nat)
                                  then Some WebSocketDisconnect else None in
  Main.file_changed down Examples.folder fe g
  = (Ok tt,
     Main.mk (ConnectionManager.mk (filter (up down) [7%nat; 8%nat]))
       (Some (StepService.set_cache
                (delete "01-01" (StepService._steps_cache Examples.started_service))
                Examples.started_service))
       (Some true),
     Dumps (Main.remove_message st)
       :: map (attempt down (json_dumps (Main.remove_message st))) [7%nat; 8%nat]).
Proof.
  intros g fe st down.
  apply (X11_delete_of_known_id down Examples.folder fe g Examples.started_service
           "01-01" st); reflexivity.
Defined.

Lemma X12_witness :
  let g := Main.mk (ConnectionManager.mk [7%nat; 8%nat])
             (Some Examples.started_service) (Some true) in
  let st := mkStep "01-01" (PStr "demo") (PStr "design") (PStr "Test step")
              COMPLETED 1 1 in
  Main.file_changed Examples.all_up Examples.folder_completed Examples.modified_known g
  = (Ok tt,
     Main.mk (ConnectionManager.mk (filter (up Examples.all_up) [7%nat; 8%nat]))
       (Some (StepService.set_cache
                (<["01-01" := st]> (StepService._steps_cache Examples.started_service))
                Examples.started_service))
       (Some true),
     Dumps (Main.update_message st)
       :: map (attempt Examples.all_up (json_dumps (Main.update_message st)))
              [7%nat; 8%nat]).
Proof.
  intros g st.
  apply (X12_update_of_readable_step Examples.all_up Examples.folder_completed
           Examples.modified_known g Examples.started_service "01-01" st);
    try reflexivity.
  discriminate.
Defined.

Lemma X13_witness :
  let g := Main.mk (ConnectionManager.mk [7%nat])
             (Some Examples.started_service) (Some false) in
  let r := Main.file_changed Examples.all_up Examples.folder_completed
             Examples.modified_known g in
  Main.main_event_loop g <> Some true
  /\ r.2 = []
  /\ Main.connection_manager r.1.2 = Main.connection_manager g
  /\ Main.step_service r.1.2
     = (fun svc => (StepService._handle_file_event Examples.folder_completed
                      Examples.modified_known svc).2)
         <$> Main.step_service g.
Proof.
  intros g r.
  assert (Main.main_event_loop g <> Some true) as H by discriminate.
  split; [exact H|].
  apply (X13_no_running_loop_no_broadcast Examples.all_up Examples.folder_completed
           Examples.modified_known g H).
Defined.

Lemma X15_witness :
  WatchdogFileWatcher.is_running Examples.watcher = false
  /\ match WatchdogFileWatcher.start Examples.watcher with
     | Ok w' =>
         WatchdogFileWatcher.folder_exists Examples.watcher = true
         /\ WatchdogFileWatcher.folder_is_dir Examples.watcher = true
         /\ WatchdogFileWatcher.is_running w' = true
         /\ WatchdogFileWatcher._handler w'
            = Some (Debounce.init (WatchdogFileWatcher._debounce_delay Examples.watcher))
         /\ WatchdogFileWatcher.start w' = Raise RuntimeError
         /\ exists w'',
              WatchdogFileWatcher.stop w' = Ok w''
              /\ WatchdogFileWatcher.is_running w'' = false
              /\ WatchdogFileWatcher._handler w'' = None
              /\ WatchdogFileWatcher.stop w'' = Ok w''
              /\ WatchdogFileWatcher.start w'' = Ok w'
     | Raise e =>
         (WatchdogFileWatcher.folder_exists Examples.watcher = false
          /\ e = FileNotFoundError)
         \/ (WatchdogFileWatcher.folder_exists Examples.watcher = true
             /\ WatchdogFileWatcher.folder_is_dir Examples.watcher = false
             /\ e = NotADirectoryError)
     end.
Proof.
  split; [reflexivity|]. apply (X15_watcher_start_stop Examples.watcher). reflexivity.
Defined.

Lemma X16_witness :
  let s := StepService.init (CB := Main.callback) Examples.watcher in
  let s1 := Examples.started_service in
  let s2 := (StepService.stop_watching s1).2 in
  StepService.start_watching Examples.folder Main.on_file_change s = (Ok tt, s1)
  /\ StepService.stop_watching s1 = (Ok tt, s2)
  /\ StepService._watching s2 = false
  /\ StepService._callback s2 = None
  /\ StepService._steps_cache s2 = StepService._steps_cache s1
  /\ (forall (repo' : JsonFileRepository.t) fe i,
        (StepService._handle_file_event repo' fe s2).1 <> Ok (Some i))
  /\ StepService.stop_watching s2 = (Ok tt, s2).
Proof.
  intros s s1 s2.
  assert (StepService.start_watching Examples.folder Main.on_file_change s = (Ok tt, s1))
    as H1 by reflexivity.
  assert (StepService.stop_watching s1 = (Ok tt, s2)) as H2 by reflexivity.
  split; [exact H1|]. split; [exact H2|].
  apply (X16_stopped_service_is_silent Examples.folder Main.on_file_change s s1 s2 H1 H2).
Defined.

Lemma X17_witness :
  let a0 := Debounce.mkNotification 0 "/steps/01-01.json" CREATED in
  let b0 := Debounce.mkNotification 30 "/steps/01-02.json" MODIFIED in
  let a1 := Debounce.mkNotification 50 "/steps/01-01.json" MODIFIED in
  let a2 := Debounce.mkNotification 200 "/steps/01-01.json" DELETED in
  let ns := [a0; b0; a1; a2] in
  let mine := filter (fun n => Debounce.src_path n = "/steps/01-01.json") ns in
  settled 100 400 mine = [a1; a2]
  /\ Debounce.delivered_for "/steps/01-01.json"
       (Debounce.elapse 400 (Debounce.run ns (Debounce.init 100)))
     = map event_for (settled 100 400 mine)
  /\ sublist (settled 100 400 mine) ns
  /\ Forall (fun e => file_path e = "/steps/01-01.json")
       (map event_for (settled 100 400 mine)).
Proof.
  intros a0 b0 a1 a2 ns mine. split; [reflexivity|].
  apply (X17_debouncer_delivers_the_settled 100 "/steps/01-01.json" ns 400).
  - cbn. lia.
  - repeat constructor; cbn; lia.
Defined.

Lemma X19_witness :
  EventHandler._is_json_file "/steps/02-03.json" = true
  /\ StepService._extract_task_id_from_path "/steps/02-03.json" = Some "02-03"
  /\ StepService.basename "/steps/02-03.json" = "02-03.json"
  /\ PurePath.name "/steps/02-03.json" = "02-03.json".
Proof.
  split; [reflexivity|]. split; [reflexivity|].
  apply (X19_watched_and_resolved "/steps/02-03.json" "02-03"); reflexivity.
Defined.

Lemma X20_witness :
  is_NN_NN "04-02" = true
  /\ EventHandler._is_json_file "/data/steps/04-02.json" = true
  /\ EventHandler._is_json_file "/data/steps/04-02.JSON" = true
  /\ StepService._extract_task_id_from_path "/data/steps/04-02.JSON" = None
  /\ EventHandler._is_json_file "/data/steps/04-02" = false.
Proof.
  split; [reflexivity|].
  apply (X20_step_files_pass_the_filter "/data/steps" "04-02"). reflexivity.
Defined.

Lemma X23_witness :
  let file := Emulator.create_step_file "03-02" "demo" "implement"
                "Add error handling" "in_progress" in
  is_NN_NN "03-02" = true
  /\ StepStatus_of (PStr "in_progress") = Ok IN_PROGRESS
  /\ JsonFileRepository.ends_with ".json" file.1 = true
  /\ String.prefix "." file.1 = false
  /\ EventHandler._is_json_file ("/steps" ++ "/" ++ file.1) = true
  /\ StepService._extract_task_id_from_path ("/steps" ++ "/" ++ file.1) = Some "03-02"
  /\ exists major minor,
       from_dict file.2
       = Ok (mkStep "03-02" (PStr "demo") (PStr "implement")
               (PStr "Add error handling") IN_PROGRESS major minor)
       /\ 0 <= major <= 99 /\ 0 <= minor <= 99.
Proof.
  intros file. split; [reflexivity|]. split; [reflexivity|].
  apply (X23_emulator_files_reach_the_backend "/steps" "03-02" "demo" "implement"
           "Add error handling" "in_progress" IN_PROGRESS); reflexivity.
Defined.

Lemma X24_witness :
  let data := (Emulator.create_step_file "01-01" "demo" "design" "Test step"
                 "pending").2 in
  let s := mkStep "01-01" (PStr "demo") (PStr "design") (PStr "Test step")
             PENDING 1 1 in
  from_dict data = Ok s
  /\ StepStatus_of (PStr "completed") = Ok COMPLETED
  /\ match Emulator.update_step_status data "completed" with
     | (Some data', Ok _) => from_dict data' = Ok (with_status COMPLETED s)
     | (Some _, Raise _) => False
     | (None, r) =>
         r = Raise KeyError /\ status s = PENDING
         /\ (getitem data "validation" = Raise KeyError
             \/ exists validation,
                  getitem data "validation" = Ok validation
                  /\ getitem validation "status" = Raise KeyError)
     end.
Proof.
  intros data s. split; [reflexivity|]. split; [reflexivity|].
  apply (X24_update_changes_the_status_only data s "completed" COMPLETED); reflexivity.
Defined.

